(** * ImgAPICacher: a shallow embedding of the cache policy and its checks

    The repository ships three revisions of one Go program (a single
    [package main] file each):
    - [src/ImgAPICacher.go], the first revision (module [V1] below),
    - [src/unnamed/part_000], first document, the second revision ([V2]),
    - [src/unnamed/part_000], second document, the third revision ([V3]).

    Go strings and byte slices are byte sequences and are modelled by
    [string]; Go's [int], [int64] are modelled by [Z], the one subtraction
    of the program being wrapped to 64 bits.  The operating system, the
    network, the clock, the random generator and the image codec are
    oracles gathered in a record [Env]; the global variables of the
    program and the file system form the state [World]. *)

From stdpp Require Import gmap strings list fin_maps pretty sorting.
From Stdlib Require Import ZArith Ascii String Lia.

Local Open Scope string_scope.
Local Open Scope list_scope.
Local Open Scope nat_scope.

(** ** Byte strings *)

Module Str.

(** [take n s]: the first [n] bytes of [s] (Go's [s[:n]]). *)

Fixpoint take (n : nat) (s : string) : string :=
  match n, s with
  | S n', String c s' => String c (take n' s')
  | _, _ => ""
  end.

(** [drop n s]: [s] without its first [n] bytes (Go's [s[n:]]). *)

Fixpoint drop (n : nat) (s : string) : string :=
  match n, s with
  | S n', String _ s' => drop n' s'
  | _, _ => s
  end.

(** [strings.HasPrefix]. *)

Fixpoint HasPrefix (s p : string) {struct p} : bool :=
  match p, s with
  | "", _ => true
  | String c p', String d s' => if Ascii.eqb c d then HasPrefix s' p' else false
  | _, _ => false
  end.

(** ASCII lower-casing of one byte and of a string.  [strings.ToLower] is
    applied by the program to regexp captures made of ASCII letters only,
    where it coincides with this function. *)

Definition lower_ascii (c : ascii) : ascii :=
  let n := N_of_ascii c in
  if ((65 <=? n) && (n <=? 90))%N then ascii_of_N (n + 32) else c.

Fixpoint ToLower (s : string) : string :=
  match s with
  | "" => ""
  | String c s' => String (lower_ascii c) (ToLower s')
  end.

(** [strings.Replace(s, old, new, -1)] for the one call of the program:
    every backslash-slash pair, scanned left to right without overlap,
    becomes a slash. *)

Fixpoint unescape_slashes (s : string) : string :=
  match s with
  | String "\" (String "/" rest) => String "/" (unescape_slashes rest)
  | String c rest => String c (unescape_slashes rest)
  | "" => ""
  end.

(** [strings.Replace(s, "\\", "/", -1)]: every backslash becomes a slash. *)

Fixpoint to_slash (s : string) : string :=
  match s with
  | "" => ""
  | String c rest =>
      String (if Ascii.eqb c "\" then "/"%char else c) (to_slash rest)
  end.

(** [strings.FieldsFunc]: the stretches of [s] between the bytes that
    satisfy [f], empty ones dropped; [cur] is the stretch read so far. *)

Fixpoint FieldsFunc (f : ascii → bool) (s cur : string) : list string :=
  match s with
  | "" => match cur with "" => [] | _ => [cur] end
  | String c s' =>
      if f c then
        match cur with "" => FieldsFunc f s' "" | _ => cur :: FieldsFunc f s' "" end
      else FieldsFunc f s' (cur +:+ String c "")
  end.

(** Every byte of the text satisfies [P]. *)

Fixpoint Forall (P : ascii → Prop) (s : string) : Prop :=
  match s with
  | "" => True
  | String c s' => P c ∧ Forall P s'
  end.

End Str.

(** ** The fragment of Go's [regexp] syntax used by the program

    A backtracking matcher with the priorities of Go's leftmost-first
    semantics: greedy [?] and [+], alternatives tried left to right.
    [.] matches any byte but line feed (flag [s] is off), [$] matches at
    the end of the text only (flag [m] is off), [(?i)] makes the literals
    after it fold ASCII case.  The letters folded by the program's
    patterns (j, p, e, g, n) have no fold outside ASCII. *)

Module Regexp.

Inductive regex : Type :=
| Lit (c : ascii)
| LitFold (c : ascii)
| AnyNotNL
| Cat (r1 r2 : regex)
| Alt (r1 r2 : regex)
| Quest (r : regex)
| Plus (r : regex)
| Group (r : regex)
| EndText.

Definition newline : ascii := "010"%char.

(** The state of a match attempt: the capture of group 1, if any. *)
Definition capture := option string.

(** What is left of the text after the match, and the capture. *)
Definition outcome : Type := string * capture.

(** The loop of a greedy [r+]: one more [r], then as many as the text
    allows, then the continuation.  An iteration that consumed nothing is
    not repeated. *)
Definition plus_loop
    (m : string → capture → (string → capture → option outcome) → option outcome)
    (k : string → capture → option outcome) :
    nat → string → capture → option outcome :=
  fix loop (fuel : nat) (s : string) (cap : capture) : option outcome :=
    match fuel with
    | 0 => None
    | S fuel' =>
        m s cap (λ s' cap',
          if Nat.ltb (String.length s') (String.length s) then
            match loop fuel' s' cap' with
            | Some o => Some o
            | None => k s' cap'
            end
          else k s' cap')
    end.

(** [bt r s cap k] matches [r] at the head of [s] and hands the rest of the
    text to the continuation [k]; when [k] fails the next choice of [r] is
    tried. *)
Fixpoint bt (r : regex) (s : string) (cap : capture)
    (k : string → capture → option outcome) {struct r} : option outcome :=
  match r with
  | Lit c =>
      match s with
      | String d s' => if Ascii.eqb c d then k s' cap else None
      | "" => None
      end
  | LitFold c =>
      match s with
      | String d s' =>
          if Ascii.eqb (Str.lower_ascii c) (Str.lower_ascii d) then k s' cap else None
      | "" => None
      end
  | AnyNotNL =>
      match s with
      | String d s' => if Ascii.eqb d newline then None else k s' cap
      | "" => None
      end
  | Cat r1 r2 => bt r1 s cap (λ s' cap', bt r2 s' cap' k)
  | Alt r1 r2 =>
      match bt r1 s cap k with
      | Some o => Some o
      | None => bt r2 s cap k
      end
  | Quest r1 =>
      match bt r1 s cap k with
      | Some o => Some o
      | None => k s cap
      end
  | Plus r1 => plus_loop (bt r1) k (S (String.length s)) s cap
  | Group r1 =>
      bt r1 s cap (λ s' _,
        k s' (Some (Str.take (String.length s - String.length s') s)))
  | EndText =>
      match s with
      | "" => k s cap
      | _ => None
      end
  end.

(** One attempt at the head of [s]: the matched text and the capture. *)
Definition match_here (r : regex) (s : string) : option (string * capture) :=
  match bt r s None (λ s' cap, Some (s', cap)) with
  | Some (s', cap) => Some (Str.take (String.length s - String.length s') s, cap)
  | None => None
  end.

(** The leftmost match: attempts at offsets 0, 1, ..., up to the end. *)
Fixpoint find (r : regex) (s : string) : option (string * capture) :=
  match match_here r s with
  | Some m => Some m
  | None =>
      match s with
      | "" => None
      | String _ s' => find r s'
      end
  end.

(** Go's [Regexp.FindString]: the text of the leftmost match, or [""]. *)
Definition FindString (r : regex) (s : string) : string :=
  match find r s with
  | Some (m, _) => m
  | None => ""
  end.

(** Go's [Regexp.FindStringSubmatch] for a pattern with one group: the match
    and the group ([""] for a group that took no part), or the empty
    slice. *)
Definition FindStringSubmatch (r : regex) (s : string) : list string :=
  match find r s with
  | Some (m, cap) => [m; default "" cap]
  | None => []
  end.

(** Literal text, case-sensitive and case-folding. *)
Fixpoint lits (s : string) : regex :=
  match s with
  | "" => Quest EndText
  | String c "" => Lit c
  | String c s' => Cat (Lit c) (lits s')
  end.

Fixpoint lits_fold (s : string) : regex :=
  match s with
  | "" => Quest EndText
  | String c "" => LitFold c
  | String c s' => Cat (LitFold c) (lits_fold s')
  end.

(** *** What a pattern denotes

    [matches r a rest c c']: [r] can match the text [a] when [rest] follows
    it, taking the capture from [c] to [c']. *)

Fixpoint iter_matches (f : string → string → capture → capture → Prop)
    (n : nat) (a rest : string) (c c' : capture) : Prop :=
  match n with
  | 0 => a = "" ∧ c' = c
  | S n' =>
      ∃ a1 a2 cm, a = a1 +:+ a2 ∧ f a1 (a2 +:+ rest) c cm
                  ∧ iter_matches f n' a2 rest cm c'
  end.

Fixpoint matches (r : regex) (a rest : string) (c c' : capture) : Prop :=
  match r with
  | Lit x => a = String x "" ∧ c' = c
  | LitFold x =>
      ∃ d, a = String d "" ∧ Str.lower_ascii x = Str.lower_ascii d ∧ c' = c
  | AnyNotNL => ∃ d, a = String d "" ∧ d ≠ newline ∧ c' = c
  | Cat r1 r2 =>
      ∃ a1 a2 cm, a = a1 +:+ a2 ∧ matches r1 a1 (a2 +:+ rest) c cm
                  ∧ matches r2 a2 rest cm c'
  | Alt r1 r2 => matches r1 a rest c c' ∨ matches r2 a rest c c'
  | Quest r1 => matches r1 a rest c c' ∨ (a = "" ∧ c' = c)
  | Plus r1 => ∃ n, iter_matches (matches r1) (S n) a rest c c'
  | Group r1 => (∃ cm, matches r1 a rest c cm) ∧ c' = Some a
  | EndText => a = "" ∧ rest = "" ∧ c' = c
  end.

End Regexp.

(** ** The helpers shared by the three revisions *)

Import Regexp.

(** [(jpg|jpeg|png)] under [(?i)]. *)
Definition image_exts : regex :=
  Group (Alt (lits_fold "jpg") (Alt (lits_fold "jpeg") (lits_fold "png"))).

(** [https?\:\/\/.+\.(?i)(jpg|jpeg|png)] *)
Definition imgURL_pattern : regex :=
  Cat (lits "http") (Cat (Quest (Lit "s")) (Cat (lits "://")
    (Cat (Plus AnyNotNL) (Cat (Lit ".") image_exts)))).

(** [.+\.(?i)(jpg|jpeg|png)$] *)
Definition imgExtension_pattern : regex :=
  Cat (Plus AnyNotNL) (Cat (Lit ".") (Cat image_exts EndText)).

Definition getExtension (contentType : string) : string :=
  if String.eqb contentType "image/jpeg" then "jpg"
  else if String.eqb contentType "image/png" then "png"
  else "".

Definition getImgURL (response : string) : string :=
  let response := Str.unescape_slashes response in
  FindString imgURL_pattern response.

Definition getImgExtension (filename : string) : string :=
  let match_ := FindStringSubmatch imgExtension_pattern filename in
  if Nat.leb 2 (List.length match_) then Str.ToLower (default "" (match_ !! 1%nat))
  else "".


(** *** The shapes the two patterns describe *)

(** No line feed in the text. *)
Fixpoint one_line (s : string) : Prop :=
  match s with
  | "" => True
  | String c s' => c ≠ newline ∧ one_line s'
  end.

(** One of the three extensions, in lower case. *)
Definition is_image_ext (e : string) : Prop :=
  e = "jpg" ∨ e = "jpeg" ∨ e = "png".

(** A name the extension check accepts: some byte other than line feed,
    a dot, and one of the three extensions in any case, at the very end. *)
Definition image_name (s : string) : Prop :=
  ∃ pre d e, s = pre +:+ String d ("." +:+ e) ∧ d ≠ newline
             ∧ is_image_ext (Str.ToLower e).

(** An address the extraction pattern describes: [http] or [https], a
    non-empty stretch of one line, a dot and an extension in any case. *)
Definition image_url (u : string) : Prop :=
  ∃ sch x e, u = "http" +:+ sch +:+ "://" +:+ x +:+ "." +:+ e
             ∧ (sch = "s" ∨ sch = "") ∧ x ≠ "" ∧ one_line x
             ∧ is_image_ext (Str.ToLower e).

(** ** Configuration and the globals of the program *)

Definition Mode := string.
Definition Local : Mode := "local".
Definition Remote : Mode := "remote".

(** The [Config] struct.  The record has the fields of the third revision;
    the second revision has no [LogFileName], the first neither that nor
    [CacheTmpFolder] and [ImageQuality], and they never read them.
    [Remotes] is a slice: [None] is Go's [nil]. *)
Record Config : Type := {
  ListenPort : Z;
  LogFileName : string;
  CfgMode : Mode;
  CacheFolder : string;
  CacheTmpFolder : string;
  UpdateInterval : Z;
  MaxCacheSize : Z;
  ImageQuality : Z;
  Remotes : option (list string);
}.

Definition set_Mode (m : Mode) (c : Config) : Config :=
  {| ListenPort := ListenPort c; LogFileName := LogFileName c; CfgMode := m;
     CacheFolder := CacheFolder c; CacheTmpFolder := CacheTmpFolder c;
     UpdateInterval := UpdateInterval c; MaxCacheSize := MaxCacheSize c;
     ImageQuality := ImageQuality c; Remotes := Remotes c |}.

(** ** The file system

    A path is the list of its components below the working directory of
    the process, which always exists; [CacheFolder], [CacheTmpFolder] and
    the names of files are one component each, and the text of a path
    joins the components with [os.PathSeparator], a slash. *)

Inductive node : Type :=
| File (data : string)
| Dir.

Inductive errno : Type :=
| ENOENT | EEXIST | ENOTDIR | EISDIR | ENOTEMPTY | EIO | EOF.

Inductive fallible (A : Type) : Type :=
| Ok (a : A)
| Fail (e : errno).
Arguments Ok {A} a.
Arguments Fail {A} e.

(** [os.IsNotExist]. *)
Definition IsNotExist (e : errno) : bool :=
  match e with ENOENT => true | _ => false end.

(** One entry of a directory listing ([fs.FileInfo]). *)
Record DirEntry : Type := { Name : string; IsDir : bool }.

Definition PathSeparator : string := "/".

Module FS.

Abbreviation path := (list string).
Abbreviation t := (gmap (list string) node).

Fixpoint join (p : path) : string :=
  match p with
  | [] => ""
  | [x] => x
  | x :: p' => x +:+ PathSeparator +:+ join p'
  end.

(** The components of a slash-separated text, empty ones dropped. *)
Fixpoint fields (s cur : string) : list string :=
  match s with
  | "" => match cur with "" => [] | _ => [cur] end
  | String c s' =>
      if Ascii.eqb c "/" then
        match cur with "" => fields s' "" | _ => cur :: fields s' "" end
      else fields s' (cur +:+ String c "")
  end.

Definition dir_exists (fs : t) (p : path) : bool :=
  match p with
  | [] => true
  | _ => match fs !! p with Some Dir => true | _ => false end
  end.

Definition entry_of (p : path) (kn : path * node) : option DirEntry :=
  match last kn.1 with
  | Some name =>
      if decide (kn.1 = (p ++ [name])%list) then
        Some {| Name := name;
                IsDir := match kn.2 with Dir => true | File _ => false end |}
      else None
  | None => None
  end.

(** The entries directly below [p], in no particular order. *)
Definition children (fs : t) (p : path) : list DirEntry :=
  omap (entry_of p) (map_to_list fs).

(** The number of entries directly below [p]. *)
Definition count (fs : t) (p : path) : nat := List.length (children fs p).

Definition name_le (a b : DirEntry) : Prop := String.le (Name a) (Name b).

#[global] Instance name_le_dec (a b : DirEntry) : Decision (name_le a b).
Proof. unfold name_le. apply _. Defined.

Definition stat (fs : t) (p : path) : fallible node :=
  match p with
  | [] => Ok Dir
  | _ =>
      match fs !! p with
      | Some n => Ok n
      | None =>
          match fs !! removelast p with
          | Some (File _) => Fail ENOTDIR
          | _ => Fail ENOENT
          end
      end
  end.

(** [ioutil.ReadDir]: the entries sorted by name. *)
Definition readDir (fs : t) (p : path) : fallible (list DirEntry) :=
  if dir_exists fs p then Ok (merge_sort name_le (children fs p))
  else match stat fs p with
       | Ok _ => Fail ENOTDIR
       | Fail e => Fail e
       end.

(** [os.Mkdir]: the parent must exist, the path must not. *)
Definition mkdir (fs : t) (p : path) : fallible t :=
  match stat fs p with
  | Ok _ => Fail EEXIST
  | Fail _ =>
      if dir_exists fs (removelast p) then Ok (<[p := Dir]> fs)
      else Fail ENOENT
  end.

(** [ioutil.WriteFile], and [os.Create] with no data: the file is created
    or truncated, then written. *)
Definition writeFile (fs : t) (p : path) (data : string) : fallible t :=
  match stat fs p with
  | Ok Dir => Fail EISDIR
  | _ =>
      if dir_exists fs (removelast p) then Ok (<[p := File data]> fs)
      else Fail ENOENT
  end.

Definition readFile (fs : t) (p : path) : fallible string :=
  match stat fs p with
  | Ok (File data) => Ok data
  | Ok Dir => Fail EISDIR
  | Fail e => Fail e
  end.

(** [os.Remove]: a file, or a directory with no entry. *)
Definition remove (fs : t) (p : path) : fallible t :=
  match p with
  | [] => Fail EIO
  | _ =>
      match fs !! p with
      | Some (File _) => Ok (delete p fs)
      | Some Dir =>
          match children fs p with
          | [] => Ok (delete p fs)
          | _ => Fail ENOTEMPTY
          end
      | None => Fail ENOENT
      end
  end.

End FS.

(** ** The world outside the program *)

Inductive syscall : Type :=
| SysReadDir | SysMkdir | SysCreate | SysOpen | SysReadFile | SysWriteFile
| SysRemove.

(** What [http.Get] hands back when the transport worked: the status, the
    [Content-Type] header and the body ([None] when reading it fails). *)
Record Response : Type := {
  StatusCode : Z;
  ContentType : string;
  Body : option string;
}.

(** The oracles: the clock (nanoseconds since the epoch, one value per
    reading), the random generator (one raw draw per call), the network,
    the image codec at a quality ([None]: decoding or encoding failed) and
    the refusals of the operating system (permissions, full disk, I/O
    errors), per system call and path. *)
Record Env : Type := {
  clock : nat → Z;
  draw : nat → nat;
  network : string → option Response;
  codec : Z → string → option string;
  fault : syscall → list string → bool;
}.

Inductive LogLine : Type :=
| Println (text : string)
| PrintError (what : string).

(** The file [config.json] as the decoder sees it. *)
Inductive ConfigFile : Type :=
| NoFile
| Unreadable
| Stored (c : Config).

(** The state: the two global variables of the program, the disk, the
    number of clock readings and random draws so far, the lines logged and
    the addresses requested with [http.Get]. *)
Record World : Type := {
  config : Config;
  timestamp : Z;
  fs : gmap (list string) node;
  configFile : ConfigFile;
  ticks : nat;
  draws : nat;
  logged : list LogLine;
  requested : list string;
}.

Definition set_config (c : Config) (w : World) : World :=
  {| config := c; timestamp := timestamp w; fs := fs w;
     configFile := configFile w; ticks := ticks w; draws := draws w;
     logged := logged w; requested := requested w |}.
Definition set_timestamp (z : Z) (w : World) : World :=
  {| config := config w; timestamp := z; fs := fs w;
     configFile := configFile w; ticks := ticks w; draws := draws w;
     logged := logged w; requested := requested w |}.
Definition set_fs (f : gmap (list string) node) (w : World) : World :=
  {| config := config w; timestamp := timestamp w; fs := f;
     configFile := configFile w; ticks := ticks w; draws := draws w;
     logged := logged w; requested := requested w |}.
Definition set_configFile (f : ConfigFile) (w : World) : World :=
  {| config := config w; timestamp := timestamp w; fs := fs w;
     configFile := f; ticks := ticks w; draws := draws w;
     logged := logged w; requested := requested w |}.
Definition set_ticks (n : nat) (w : World) : World :=
  {| config := config w; timestamp := timestamp w; fs := fs w;
     configFile := configFile w; ticks := n; draws := draws w;
     logged := logged w; requested := requested w |}.
Definition set_draws (n : nat) (w : World) : World :=
  {| config := config w; timestamp := timestamp w; fs := fs w;
     configFile := configFile w; ticks := ticks w; draws := n;
     logged := logged w; requested := requested w |}.
Definition set_logged (l : list LogLine) (w : World) : World :=
  {| config := config w; timestamp := timestamp w; fs := fs w;
     configFile := configFile w; ticks := ticks w; draws := draws w;
     logged := l; requested := requested w |}.
Definition set_requested (l : list string) (w : World) : World :=
  {| config := config w; timestamp := timestamp w; fs := fs w;
     configFile := configFile w; ticks := ticks w; draws := draws w;
     logged := logged w; requested := l |}.

(** ** Computations

    A computation runs from a world to one of four results: it returns, it
    ends the process ([log.Fatalln], or a panic outside the goroutine of a
    request), it panics, or the fuel given to a loop ran out. *)

Inductive result (A : Type) : Type :=
| Ret (a : A) (w : World)
| Exit (w : World)
| Panic (w : World)
| OutOfFuel.
Arguments Ret {A} a w.
Arguments Exit {A} w.
Arguments Panic {A} w.
Arguments OutOfFuel {A}.

Definition M (A : Type) : Type := World → result A.

Definition ret {A} (a : A) : M A := λ w, Ret a w.

Definition bind {A B} (m : M A) (k : A → M B) : M B :=
  λ w, match m w with
       | Ret a w' => k a w'
       | Exit w' => Exit w'
       | Panic w' => Panic w'
       | OutOfFuel => OutOfFuel
       end.

Notation "'let*' x ':=' m 'in' k" := (bind m (λ x, k))
  (at level 10, x pattern, m at level 100, k at level 200).
Notation "m ';;' k" := (bind m (λ _, k))
  (at level 100, k at level 200, right associativity).

Definition gets {A} (f : World → A) : M A := λ w, Ret (f w) w.
Definition modify (f : World → World) : M unit := λ w, Ret tt (f w).
Definition exit {A} : M A := λ w, Exit w.
Definition panic {A} : M A := λ w, Panic w.

(** [log.Println] and [fmt.Println]. *)
Definition println (text : string) : M unit :=
  modify (λ w, set_logged (logged w ++ [Println text])%list w).

(** [log.Println("Error:", err)] and [fmt.Println("error:", err)]; [what]
    names the call that failed. *)
Definition printError (what : string) : M unit :=
  modify (λ w, set_logged (logged w ++ [PrintError what])%list w).

(** [log.Fatalln("Error:", err)]: the line is printed, then [os.Exit(1)]. *)
Definition fatalln {A} (what : string) : M A :=
  printError what ;; exit.

Definition wrap64 (z : Z) : Z := ((z + 2 ^ 63) `mod` 2 ^ 64 - 2 ^ 63)%Z.

Definition Unix (ns : Z) : Z := (ns `div` 1000000000)%Z.
Definition UnixMilli (ns : Z) : Z := (ns `div` 1000000)%Z.
Definition UnixNano (ns : Z) : Z := ns.

(** [strconv.FormatInt(z, 10)]. *)
Definition FormatInt (z : Z) : string := pretty z.

(** Where the image is, and the extension of the temporary file: the
    address of the remote itself when the response is an image, what the
    body yields otherwise ([None]: the body cannot be read). *)
Definition locate (remote : string) (response : Response) :
    option (string * string) :=
  let extension := getExtension (ContentType response) in
  if negb (String.eqb extension "") then Some (remote, extension)
  else
    match Body response with
    | None => None
    | Some body =>
        let imgURL := getImgURL body in
        Some (imgURL, getImgExtension imgURL)
    end.

(** The status codes the fetch accepts. *)
Definition statusOk (response : Response) : bool :=
  negb (negb (StatusCode response =? 200)%Z && negb (StatusCode response =? 302)%Z
        && negb (StatusCode response =? 301)%Z).

Section oracles.
Context (env : Env).

(** [time.Now()]. *)
Definition Now : M Z :=
  λ w, Ret (clock env (ticks w)) (set_ticks (S (ticks w)) w).

(** [rand.Intn(n)]; it panics unless [n] is positive. *)
Definition Intn (n : nat) : M nat :=
  match n with
  | 0 => panic
  | _ => λ w, Ret (draw env (draws w) `mod` n) (set_draws (S (draws w)) w)
  end.

(** [http.Get(url)].  Go's client refuses an address without a scheme, the
    empty one among them, before anything is sent. *)
Definition http_Get (url : string) : M (option Response) :=
  λ w, let w' := set_requested (requested w ++ [url])%list w in
       if String.eqb url "" then Ret None w' else Ret (network env url) w'.

Definition os_Stat (p : list string) : M (fallible node) :=
  gets (λ w, FS.stat (fs w) p).

Definition ioutil_ReadDir (p : list string) : M (fallible (list DirEntry)) :=
  if fault env SysReadDir p then ret (Fail EIO)
  else gets (λ w, FS.readDir (fs w) p).

Definition update_fs (r : World → fallible (gmap (list string) node)) :
    M (option errno) :=
  λ w, match r w with
       | Ok fs' => Ret None (set_fs fs' w)
       | Fail e => Ret (Some e) w
       end.

Definition os_Mkdir (p : list string) : M (option errno) :=
  if fault env SysMkdir p then ret (Some EIO)
  else update_fs (λ w, FS.mkdir (fs w) p).

Definition os_Create (p : list string) : M (option errno) :=
  if fault env SysCreate p then ret (Some EIO)
  else update_fs (λ w, FS.writeFile (fs w) p "").

Definition ioutil_WriteFile (p : list string) (data : string) :
    M (option errno) :=
  if fault env SysWriteFile p then ret (Some EIO)
  else update_fs (λ w, FS.writeFile (fs w) p data).

Definition ioutil_ReadFile (p : list string) : M (fallible string) :=
  if fault env SysReadFile p then ret (Fail EIO)
  else gets (λ w, FS.readFile (fs w) p).

Definition os_Remove (p : list string) : M (option errno) :=
  if fault env SysRemove p then ret (Some EIO)
  else update_fs (λ w, FS.remove (fs w) p).

(** [os.Open]. *)
Definition os_Open (p : list string) : M (fallible node) :=
  if fault env SysOpen p then ret (Fail EIO)
  else gets (λ w, FS.stat (fs w) p).

(** [downloadFile]: the same function in the three revisions.  The file is
    created first; when the request or the copy fails it stays as it is. *)
Definition downloadFile (filename : list string) (URL : string) :
    M (option errno) :=
  let* err := os_Create filename in
  match err with
  | Some e => ret (Some e)
  | None =>
      let* resp := http_Get URL in
      match resp with
      | None => ret (Some EIO)
      | Some resp =>
          match Body resp with
          | None => ret (Some EIO)
          | Some data =>
              (* io.Copy into the file just created *)
              modify (λ w, set_fs (<[filename := File data]> (fs w)) w) ;;
              ret None
          end
      end
  end.

(** [compressImage]: the data and the error of the codec, the smaller of
    the two encodings otherwise. *)
Definition compressImage (quality : Z) (data : string) :
    string * option errno :=
  match codec env quality data with
  | None => (data, Some EIO)
  | Some buf =>
      if Nat.ltb (String.length data) (String.length buf) then (data, None)
      else (buf, None)
  end.

(** [writeConfig]: a failure to write is printed and nothing more. *)
Definition writeConfig (c : Config) : M unit :=
  if fault env SysWriteFile ["config.json"] then printError "writeConfig"
  else modify (set_configFile (Stored c)).

(** The block of the fetch that makes sure a folder exists, written out
    once for the cache folder and, from the second revision on, once more
    for its tmp folder: a folder that is not there is created, and the
    process ends when that fails. *)
Definition ensureFolder (p : list string) : M unit :=
  let* st := os_Stat p in
  match st with
  | Fail e =>
      if IsNotExist e then
        println "Creating folder" ;;
        let* err := os_Mkdir p in
        match err with
        | Some _ => fatalln "os.Mkdir"
        | None => ret tt
        end
      else ret tt
  | Ok _ => ret tt
  end.

(** The block of the fetch that checks the limit once the image is stored
    (second and third revision): [false] when the cache folder cannot be
    listed, where the fetch returns without an answer. *)
Definition enforceLimit (cf : string) : M bool :=
  let* cfg := gets config in
  if negb (MaxCacheSize cfg =? 0)%Z then
    let* files := ioutil_ReadDir [cf] in
    match files with
    | Fail _ => printError "ioutil.ReadDir" ;; ret false
    | Ok files =>
        if (MaxCacheSize cfg <=? Z.of_nat (List.length files))%Z then
          (* Limit MaxCacheSize reached, change mode to local *)
          modify (λ w, set_config (set_Mode Local (config w)) w) ;;
          (let* c := gets config in writeConfig c) ;;
          println "Mode changed to local" ;;
          ret true
        else ret true
    end
  else ret true.

End oracles.

(** ** Requests and responses *)

Record Request : Type := {
  Method : string;
  Path : string;
  Host : string;
}.

(** What the handler has put into its [http.ResponseWriter]. *)
Record ResponseWriter : Type := {
  status : Z;
  body : string;
  allowOrigin : option string;
}.

Definition emptyResponse : ResponseWriter :=
  {| status := 200; body := ""; allowOrigin := None |}.

(** [fmt.Fprintf(w, ...)] with the text already formatted. *)
Definition Fprintf (rw : ResponseWriter) (text : string) : ResponseWriter :=
  {| status := status rw; body := body rw +:+ text;
     allowOrigin := allowOrigin rw |}.

(** [http.Error(w, text, code)]. *)
Definition http_Error (rw : ResponseWriter) (text : string) (code : Z) :
    ResponseWriter :=
  {| status := code; body := body rw +:+ text +:+ String newline "";
     allowOrigin := allowOrigin rw |}.

Definition http_NotFound (rw : ResponseWriter) : ResponseWriter :=
  http_Error rw "404 page not found" 404.

Definition set_allowOrigin (v : string) (rw : ResponseWriter) :
    ResponseWriter :=
  {| status := status rw; body := body rw; allowOrigin := Some v |}.

(** [containsDotDot] of [net/http]: some component of the address, cut at
    slashes and backslashes, is [..]. *)
Definition isSlashRune (c : ascii) : bool :=
  Ascii.eqb c "/" || Ascii.eqb c "\".

Definition containsDotDot (v : string) : bool :=
  existsb (String.eqb "..") (Str.FieldsFunc isSlashRune v "").

(** [toHTTPError] of [net/http]. *)
Definition toHTTPError (rw : ResponseWriter) (e : errno) : ResponseWriter :=
  match e with
  | ENOENT | ENOTDIR => http_Error rw "404 page not found" 404
  | _ => http_Error rw "500 Internal Server Error" 500
  end.

(** [http.ServeFile(w, r, name)] for a GET without conditions or ranges:
    an address with a [..] component is refused, the file is opened and
    its bytes are the body; a directory, whose address never ends in a
    slash where the handler calls this, is answered with a redirection.
    The handler calls it for addresses that end in an image extension, so
    the redirection of [/index.html] never applies. *)
Definition http_ServeFile (env : Env) (rw : ResponseWriter) (r : Request)
    (name : list string) : M ResponseWriter :=
  if containsDotDot (Path r) then ret (http_Error rw "invalid URL path" 400)
  else
    let* f := os_Open env name in
    match f with
    | Fail e => ret (toHTTPError rw e)
    | Ok (File data) =>
        ret {| status := 200; body := body rw +:+ data;
               allowOrigin := allowOrigin rw |}
    | Ok Dir =>
        ret {| status := 301; body := body rw; allowOrigin := allowOrigin rw |}
    end.

(** ** The third revision ([src/unnamed/part_000], second document) *)

Module V3.

Definition DefaultConfigFileName : string := "config.json".
Definition ConfigDefaultListenPort : Z := 8080.
Definition ConfigDefaultCacheFolder : string := "cache".
Definition ConfigDefaultCacheTmpFolder : string := "tmp".
Definition ConfigDefaultUpdateInterval : Z := 3.
Definition ConfigDefaultMaxCacheSize : Z := 0.
Definition ConfigDefaultImageQuality : Z := 60.
Definition ConfigDefaultRemote1 : string := "https://api.nyan.xyz/httpapi/sexphoto".
Definition ConfigDefaultRemote2 : string := "https://loliapi.com/acg".

(** The zero value of [Config]. *)
Definition zeroConfig : Config :=
  {| ListenPort := 0; LogFileName := ""; CfgMode := ""; CacheFolder := "";
     CacheTmpFolder := ""; UpdateInterval := 0; MaxCacheSize := 0;
     ImageQuality := 0; Remotes := None |}.

Definition warn (valid : bool) (text : string) : M unit :=
  if valid then ret tt else println text.

(** [newConfig]: every field out of range is replaced by its default, with
    a warning. *)
Definition newConfig (config : Config) : M Config :=
  let okPort := ((1024 <=? ListenPort config) && (ListenPort config <=? 65535))%Z in
  let okLog := negb (String.eqb (LogFileName config) "") in
  let okMode := String.eqb (CfgMode config) Local || String.eqb (CfgMode config) Remote in
  let okFolder := negb (String.eqb (CacheFolder config) "") in
  let okTmp := negb (String.eqb (CacheTmpFolder config) "") in
  let okInterval := (0 <? UpdateInterval config)%Z in
  let okSize := (0 <=? MaxCacheSize config)%Z in
  let okQuality := (0 <? ImageQuality config)%Z in
  let okRemotes := match Remotes config with Some _ => true | None => false end in
  warn okPort "Warning: ListenPort out of range" ;;
  warn okLog "Warning: LogFileName is empty, disabling log file" ;;
  warn okMode "Warning: Mode invalid" ;;
  warn okFolder "Warning: CacheFolder invalid" ;;
  warn okTmp "Warning: CacheTmpFolder invalid" ;;
  warn okInterval "Warning: UpdateInterval out of range" ;;
  warn okSize "Warning: MaxCacheSize out of range" ;;
  warn okQuality "Warning: ImageQuality out of range" ;;
  warn okRemotes "Warning: Remotes invalid" ;;
  ret {| ListenPort := if okPort then ListenPort config else ConfigDefaultListenPort;
         LogFileName := LogFileName config;
         CfgMode := if okMode then CfgMode config else Remote;
         CacheFolder := if okFolder then CacheFolder config else ConfigDefaultCacheFolder;
         CacheTmpFolder := if okTmp then CacheTmpFolder config else ConfigDefaultCacheTmpFolder;
         UpdateInterval := if okInterval then UpdateInterval config else ConfigDefaultUpdateInterval;
         MaxCacheSize := if okSize then MaxCacheSize config else ConfigDefaultMaxCacheSize;
         ImageQuality := if okQuality then ImageQuality config else ConfigDefaultImageQuality;
         Remotes := if okRemotes then Remotes config
                    else Some [ConfigDefaultRemote1; ConfigDefaultRemote2] |}.

Section program.
Context (env : Env).

(** [getConfig], with [readConfig] inlined: a file that cannot be read or
    decoded ends the process. *)
Definition getConfig : M Config :=
  let* file := gets configFile in
  let* config :=
    match file with
    | Stored c => println "Config file found, reading..." ;; newConfig c
    | NoFile => println "No config file found, creating one..." ;; newConfig zeroConfig
    | Unreadable => println "Config file found, reading..." ;; fatalln "readConfig"
    end in
  writeConfig env config ;;
  ret config.

Definition reloadConfig (rw : ResponseWriter) : M ResponseWriter :=
  let* c := getConfig in
  modify (set_config c) ;;
  println "Reloaded config" ;;
  ret (Fprintf rw "Config reloaded").

(** [isImage]: the extension, then one read of the file: a file that
    cannot be opened, a directory and an empty file are no images. *)
Definition isImage (filename : string) : M bool :=
  if String.eqb (getImgExtension filename) "" then ret false
  else
    let* cf := gets (λ w, CacheFolder (config w)) in
    let* f := os_Open env [cf; filename] in
    match f with
    | Fail _ => printError "os.Open" ;; ret false
    | Ok Dir => ret false
    | Ok (File data) => ret (negb (String.eqb data ""))
    end.

Definition retrieveRemote (hostname : string) (rw : ResponseWriter) :
    M ResponseWriter :=
  println "--- Starting Remote Retrieval ---" ;;
  (* Update last update timestamp *)
  let* now := Now env in
  modify (set_timestamp (Unix now)) ;;
  (* Get a random remote from config.Remotes *)
  let* cfg := gets config in
  let remotes := default [] (Remotes cfg) in
  let* i := Intn env (List.length remotes) in
  match remotes !! i with
  | None => panic
  | Some remote =>
  println "Retrieving remote" ;;
  (* Send get request to remote *)
  let* response := http_Get env remote in
  match response with
  | None => printError "http.Get" ;; ret rw
  | Some response =>
  (* Validate response status code *)
  if negb (statusOk response) then printError "Invalid response status code" ;; ret rw
  else
  match locate remote response with
  | None => printError "ioutil.ReadAll" ;; ret rw
  | Some (imgURL, extension) =>
  println "Retrieving from URL" ;;
  (* Filename for uncompressed image *)
  let* now := Now env in
  let cf := CacheFolder cfg in
  let tmp := CacheTmpFolder cfg in
  let filenameUncompressed :=
    [cf; tmp; FormatInt (UnixNano now) +:+ "." +:+ extension] in
  (* Check if cache folder and its tmp folder exists *)
  ensureFolder env [cf] ;;
  ensureFolder env [cf; tmp] ;;
  (* Download image to tmp folder *)
  println "Downloading image" ;;
  let* err := downloadFile env filenameUncompressed imgURL in
  match err with
  | Some _ => printError "downloadFile" ;; ret rw
  | None =>
  (* Read and compress image *)
  let* now := Now env in
  let filenameCompressed := [cf; FormatInt (UnixNano now) +:+ ".jpg"] in
  println "Compressing image" ;;
  let* data := ioutil_ReadFile env filenameUncompressed in
  match data with
  | Fail _ => printError "ioutil.ReadFile" ;; ret rw
  | Ok data =>
  (* Save compressed image to cache folder; the error of compressImage is
     overwritten by the one of WriteFile *)
  let data := (compressImage env (ImageQuality cfg) data).1 in
  let* err := ioutil_WriteFile env filenameCompressed data in
  match err with
  | Some _ => printError "ioutil.WriteFile" ;; ret rw
  | None =>
  (* Remove uncompressed image from tmp folder *)
  let* err := os_Remove env filenameUncompressed in
  match err with
  | Some _ => printError "os.Remove" ;; ret rw
  | None =>
  println "Removed uncompressed image" ;;
  (* Check if current number of images have reached the MaxCacheSize limit *)
  let* continue := enforceLimit env cf in
  if negb continue then ret rw
  else
  (* Serve image link *)
  println "--- Finished Remote Retrieval ---" ;;
  ret (Fprintf rw ("http://" +:+ hostname +:+ "/"
                   +:+ Str.to_slash (FS.join filenameCompressed)))
  end end end end end end end.

(** The loop of [handleRequest] that looks for an image in the listing:
    [files] and [fileIndex] are its two variables. *)
Fixpoint pickLoop (fuel : nat) (files : list DirEntry) (fileIndex : nat) :
    M (list DirEntry * nat) :=
  match fuel with
  | 0 => λ _, OutOfFuel
  | S fuel' =>
      match files !! fileIndex with
      | None => panic
      | Some file =>
          let* img := isImage (Name file) in
          if negb img && Nat.ltb 0 (List.length files) then
            if IsDir file then
              (* a directory: drop it from the list and draw again *)
              let files := delete fileIndex files in
              if Nat.eqb (List.length files) 0 then ret (files, fileIndex)
              else
                let* fileIndex := Intn env (List.length files) in
                pickLoop fuel' files fileIndex
            else
              (* Remove the non-image file *)
              let* cf := gets (λ w, CacheFolder (config w)) in
              let* err := os_Remove env [cf; Name file] in
              (match err with
               | Some _ => printError "os.Remove"
               | None => ret tt
               end) ;;
              let files := delete fileIndex files in
              if Nat.eqb (List.length files) 0 then ret (files, fileIndex)
              else
                let* fileIndex := Intn env (List.length files) in
                pickLoop fuel' files fileIndex
          else ret (files, fileIndex)
      end
  end.

(** The attempt to serve from the cache: the writer and [served]. *)
Definition serveLocal (fuel : nat) (hostname : string) (rw : ResponseWriter) :
    M (ResponseWriter * bool) :=
  let* cf := gets (λ w, CacheFolder (config w)) in
  let* files := ioutil_ReadDir env [cf] in
  match files with
  | Fail _ => printError "ioutil.ReadDir" ;; ret (rw, false)
  | Ok files =>
      if Nat.eqb (List.length files) 0 then
        printError "No image found in cache folder" ;; ret (rw, false)
      else
        (* rand.Seed(time.Now().UnixNano()) *)
        Now env ;;
        let* fileIndex := Intn env (List.length files) in
        let* (files, fileIndex) := pickLoop fuel files fileIndex in
        let* bad :=
          if Nat.eqb (List.length files) 0 then ret true
          else match files !! fileIndex with
               | None => panic
               | Some file => let* img := isImage (Name file) in ret (negb img)
               end in
        if bad : bool then
          printError "No image found in cache folder" ;; ret (rw, false)
        else
          match files !! fileIndex with
          | None => panic
          | Some file =>
              println "Serving local image" ;;
              ret (Fprintf rw ("http://" +:+ hostname +:+ "/" +:+ cf +:+ "/"
                               +:+ Name file), true)
          end
  end.

(** [handleRequest].  The second component of the result tells whether the
    handler started [retrieveRemote] in a goroutine of its own. *)
Definition handleRequest (fuel : nat) (r : Request) :
    M (ResponseWriter * bool) :=
  let rw := emptyResponse in
  if negb (String.eqb (Method r) "GET") then
    ret (http_Error rw "Method not allowed" 405, false)
  else
  (* Set CORS headers *)
  let rw := set_allowOrigin "*" rw in
  if String.eqb (Path r) "/favicon.ico" then ret (http_NotFound rw, false)
  else
  let* cf := gets (λ w, CacheFolder (config w)) in
  if Str.HasPrefix (Path r) ("/" +:+ cf +:+ "/") then
    if String.eqb (getImgExtension (Path r)) "" then
      ret (http_NotFound rw, false)
    else
      let filepath :=
        cf :: FS.fields (Str.drop (String.length cf + 1) (Path r)) "" in
      let* st := os_Stat filepath in
      match st with
      | Ok _ =>
          (* Image exists, return it *)
          let* rw := http_ServeFile env rw r filepath in
          ret (rw, false)
      | Fail _ => ret (http_NotFound rw, false)
      end
  else
  if negb (String.eqb (Path r) "/") then ret (http_NotFound rw, false)
  else
  let hostname := Host r in
  let* (rw, served) := serveLocal fuel hostname rw in
  (* Determine whether to access remote to retrieve more images *)
  let* fresh :=
    if served : bool then
      let* cfg := gets config in
      if String.eqb (CfgMode cfg) Local then ret true
      else
        let* now := Now env in
        let* timestamp := gets timestamp in
        ret (wrap64 (Unix now - timestamp) <? UpdateInterval cfg)%Z
    else ret false in
  if served && fresh then ret (rw, false)
  else if served then ret (rw, true)
  else
    let* rw := retrieveRemote hostname rw in
    ret (rw, false).

(** One request from the listener to the response: the route [/reload]
    goes to [reloadConfig], every other path to [handleRequest]; a
    goroutine started by the handler runs once the handler has returned,
    what it writes comes after the response is complete and is dropped,
    and a panic of the goroutine ends the process. *)
Definition serve (fuel : nat) (r : Request) : M ResponseWriter :=
  if String.eqb (Path r) "/reload" then reloadConfig emptyResponse
  else
    λ w, match handleRequest fuel r w with
         | Ret (rw, false) w' => Ret rw w'
         | Ret (rw, true) w' =>
             match retrieveRemote (Host r) rw w' with
             | Ret _ w'' => Ret rw w''
             | Exit w'' | Panic w'' => Exit w''
             | OutOfFuel => OutOfFuel
             end
         | Exit w' => Exit w'
         | Panic w' => Panic w'
         | OutOfFuel => OutOfFuel
         end.

(** [main] up to the call of [http.ListenAndServe]: the configuration, the
    log file, which is opened when it has a name and lives outside the disk
    modelled here, and the time of the last update. *)
Definition startup : M unit :=
  (* Create/Read config file *)
  let* c := getConfig in
  modify (set_config c) ;;
  (* Initialize logging *)
  (if negb (String.eqb (LogFileName c) "") then
     if fault env SysOpen [LogFileName c] then fatalln "os.OpenFile"
     else ret tt
   else ret tt) ;;
  println "Initialized Config" ;;
  (* Initialize last update timestamp *)
  let* now := Now env in
  modify (set_timestamp (Unix now)) ;;
  println "Listening on port".

(** The server over the requests it receives, taken one after the other:
    a panic of a handler is recovered by [net/http], the request gets no
    response and the server goes on; the end of the process ends it all. *)
Fixpoint serveAll (fuel : nat) (requests : list Request) :
    M (list (option ResponseWriter)) :=
  match requests with
  | [] => ret []
  | r :: requests' =>
      λ w, match serve fuel r w with
           | Ret rw w' =>
               (let* rest := serveAll fuel requests' in ret (Some rw :: rest)) w'
           | Panic w' =>
               (let* rest := serveAll fuel requests' in ret (None :: rest)) w'
           | Exit w' => Exit w'
           | OutOfFuel => OutOfFuel
           end
  end.

Definition main (fuel : nat) (requests : list Request) :
    M (list (option ResponseWriter)) :=
  startup ;; serveAll fuel requests.

End program.

End V3.

(** ** The second revision ([src/unnamed/part_000], first document) *)

Module V2.

Definition ConfigDefaultName : string := "config.json".
Definition ConfigDefaultListenPort : Z := 8080.
Definition ConfigDefaultCacheFolder : string := "cache".
Definition ConfigDefaultCacheTmpFolder : string := "tmp".
Definition ConfigDefaultUpdateInterval : Z := 10.
Definition ConfigDefaultMaxCacheSize : Z := 100.
Definition ConfigDefaultImageQuality : Z := 60.
Definition ConfigDefaultRemote1 : string := "https://api.nyan.xyz/httpapi/sexphoto".
Definition ConfigDefaultRemote2 : string := "https://loliapi.com/acg".

Definition defaultConfig : Config :=
  {| ListenPort := ConfigDefaultListenPort; LogFileName := "";
     CfgMode := Remote; CacheFolder := ConfigDefaultCacheFolder;
     CacheTmpFolder := ConfigDefaultCacheTmpFolder;
     UpdateInterval := ConfigDefaultUpdateInterval;
     MaxCacheSize := ConfigDefaultMaxCacheSize;
     ImageQuality := ConfigDefaultImageQuality;
     Remotes := Some [ConfigDefaultRemote1; ConfigDefaultRemote2] |}.

Section program.
Context (env : Env).

(** [getConfig]: the file as it is, or the defaults, written out. *)
Definition getConfig : M Config :=
  let* file := gets configFile in
  match file with
  | Stored c => ret c
  | Unreadable => fatalln "readConfig"
  | NoFile => writeConfig env defaultConfig ;; ret defaultConfig
  end.

Definition reloadConfig (rw : ResponseWriter) : M ResponseWriter :=
  let* c := getConfig in
  modify (set_config c) ;;
  println "Reloaded config" ;;
  ret (Fprintf rw "Config reloaded").

Definition isImage (filename : string) : bool :=
  negb (String.eqb (getImgExtension filename) "").

Definition retrieveRemote (hostname : string) (rw : ResponseWriter) :
    M ResponseWriter :=
  (* Get a random remote from config.Remotes *)
  let* cfg := gets config in
  let remotes := default [] (Remotes cfg) in
  let* i := Intn env (List.length remotes) in
  match remotes !! i with
  | None => panic
  | Some remote =>
  println "Using remote" ;;
  (* Send get request to remote *)
  let* response := http_Get env remote in
  match response with
  | None => printError "http.Get" ;; ret rw
  | Some response =>
  (* Validate response status code *)
  if negb (statusOk response) then printError "Invalid response status code" ;; ret rw
  else
  match locate remote response with
  | None => printError "ioutil.ReadAll" ;; ret rw
  | Some (imgURL, extension) =>
  (* Filename with no extension before compressing *)
  let* now := Now env in
  let cf := CacheFolder cfg in
  let tmp := CacheTmpFolder cfg in
  let filenameUncompressed :=
    [cf; tmp; FormatInt (UnixMilli now) +:+ "." +:+ extension] in
  println "Downloading uncompressed image" ;;
  (* Check if cache folder and its tmp folder exists *)
  ensureFolder env [cf] ;;
  ensureFolder env [cf; tmp] ;;
  (* Download image to tmp folder *)
  let* err := downloadFile env filenameUncompressed imgURL in
  match err with
  | Some _ => printError "downloadFile" ;; ret rw
  | None =>
  (* Compress image *)
  let* data := ioutil_ReadFile env filenameUncompressed in
  match data with
  | Fail _ => printError "ioutil.ReadFile" ;; ret rw
  | Ok data =>
  (* Save compressed image to cache folder *)
  let data := (compressImage env (ImageQuality cfg) data).1 in
  let* now := Now env in
  let filenameCompressed := [cf; FormatInt (UnixMilli now) +:+ ".jpg"] in
  let* err := ioutil_WriteFile env filenameCompressed data in
  println "Writing compressed image" ;;
  match err with
  | Some _ => printError "ioutil.WriteFile" ;; ret rw
  | None =>
  (* Remove temporary file *)
  let* err := os_Remove env filenameUncompressed in
  match err with
  | Some _ => printError "os.Remove" ;; ret rw
  | None =>
  (* Update last update timestamp *)
  let* now := Now env in
  modify (set_timestamp (Unix now)) ;;
  println "Latest update timestamp" ;;
  (* Check if current amount of image have reached the limit *)
  let* continue := enforceLimit env cf in
  if negb continue then ret rw
  else
  ret (Fprintf rw ("http://" +:+ hostname +:+ "/"
                   +:+ Str.to_slash (FS.join filenameCompressed)))
  end end end end end end end.

(** The loop of [handleRequest]: [file] is its one variable, the listing
    [files] stays as it was read. *)
Fixpoint pickLoop (fuel : nat) (files : list DirEntry) (file : DirEntry) :
    M DirEntry :=
  match fuel with
  | 0 => λ _, OutOfFuel
  | S fuel' =>
      if negb (isImage (Name file)) then
        (* Remove the non-image file *)
        let* cf := gets (λ w, CacheFolder (config w)) in
        let* err := os_Remove env [cf; Name file] in
        (match err with
         | Some _ => printError "os.Remove"
         | None => ret tt
         end) ;;
        let* i := Intn env (List.length files) in
        match files !! i with
        | None => panic
        | Some file => pickLoop fuel' files file
        end
      else ret file
  end.

Definition serveLocal (fuel : nat) (hostname : string) (rw : ResponseWriter) :
    M (ResponseWriter * bool) :=
  let* cf := gets (λ w, CacheFolder (config w)) in
  let* files := ioutil_ReadDir env [cf] in
  match files with
  | Fail _ => printError "ioutil.ReadDir" ;; ret (rw, false)
  | Ok files =>
      if Nat.eqb (List.length files) 0 then
        printError "No images in cache folder" ;; ret (rw, false)
      else
        (* rand.Seed(time.Now().UnixMilli()) *)
        Now env ;;
        let* i := Intn env (List.length files) in
        match files !! i with
        | None => panic
        | Some file =>
            let* file := pickLoop fuel files file in
            if negb (isImage (Name file)) then
              printError "No images in cache folder" ;; ret (rw, false)
            else
              println "Using local image" ;;
              ret (Fprintf rw ("http://" +:+ hostname +:+ "/" +:+ cf +:+ "/"
                               +:+ Name file), true)
        end
  end.

Definition handleRequest (fuel : nat) (r : Request) :
    M (ResponseWriter * bool) :=
  let rw := emptyResponse in
  if negb (String.eqb (Method r) "GET") then
    ret (http_Error rw "Method not allowed" 405, false)
  else
  (* Set cors headers *)
  let rw := set_allowOrigin "*" rw in
  if String.eqb (Path r) "/favicon.ico" then ret (http_NotFound rw, false)
  else
  let* cf := gets (λ w, CacheFolder (config w)) in
  if Str.HasPrefix (Path r) ("/" +:+ cf +:+ "/") then
    if String.eqb (getImgExtension (Path r)) "" then
      ret (http_NotFound rw, false)
    else
      let filepath :=
        cf :: FS.fields (Str.drop (String.length cf + 1) (Path r)) "" in
      let* st := os_Stat filepath in
      match st with
      | Ok _ =>
          (* Image exists, return it *)
          let* rw := http_ServeFile env rw r filepath in
          ret (rw, false)
      | Fail _ => ret (http_NotFound rw, false)
      end
  else
  if negb (String.eqb (Path r) "/") then ret (http_NotFound rw, false)
  else
  let hostname := Host r in
  let* (rw, served) := serveLocal fuel hostname rw in
  (* Determine whether to access remote to retrieve image *)
  let* fresh :=
    if served : bool then
      let* cfg := gets config in
      if String.eqb (CfgMode cfg) Local then ret true
      else
        let* now := Now env in
        let* timestamp := gets timestamp in
        ret (wrap64 (Unix now - timestamp) <? UpdateInterval cfg)%Z
    else ret false in
  if served && fresh then ret (rw, false)
  else if served then ret (rw, true)
  else
    let* rw := retrieveRemote hostname rw in
    ret (rw, false).

(** One request from the listener to the response, as in [V3.serve]. *)
Definition serve (fuel : nat) (r : Request) : M ResponseWriter :=
  if String.eqb (Path r) "/reload" then reloadConfig emptyResponse
  else
    λ w, match handleRequest fuel r w with
         | Ret (rw, false) w' => Ret rw w'
         | Ret (rw, true) w' =>
             match retrieveRemote (Host r) rw w' with
             | Ret _ w'' => Ret rw w''
             | Exit w'' | Panic w'' => Exit w''
             | OutOfFuel => OutOfFuel
             end
         | Exit w' => Exit w'
         | Panic w' => Panic w'
         | OutOfFuel => OutOfFuel
         end.

End program.

End V2.

(** ** The first revision ([src/ImgAPICacher.go]) *)

Module V1.

Definition ConfigDefaultName : string := "config.json".
Definition ConfigDefaultListenPort : Z := 8080.
Definition ConfigDefaultFolder : string := "cache".
Definition ConfigDefaultUpdateInterval : Z := 10.
Definition ConfigDefaultMaxCacheSize : Z := 100.
Definition ImageCompressQuality : Z := 60.

Definition defaultConfig : Config :=
  {| ListenPort := ConfigDefaultListenPort; LogFileName := "";
     CfgMode := Remote; CacheFolder := ConfigDefaultFolder;
     CacheTmpFolder := "";
     UpdateInterval := ConfigDefaultUpdateInterval;
     MaxCacheSize := ConfigDefaultMaxCacheSize;
     ImageQuality := 0;
     Remotes := Some ["https://www.loliapi.com/acg";
                      "https://api.nyan.xyz/httpapi/sexphoto"] |}.

Section program.
Context (env : Env).

Definition getConfig : M Config :=
  let* file := gets configFile in
  match file with
  | Stored c => ret c
  | Unreadable => fatalln "readConfig"
  | NoFile => writeConfig env defaultConfig ;; ret defaultConfig
  end.

Definition reloadConfig (rw : ResponseWriter) : M ResponseWriter :=
  let* c := getConfig in
  modify (set_config c) ;;
  println "Reloaded config" ;;
  ret (Fprintf rw "Config reloaded").

Definition isImage (filename : string) : bool :=
  negb (String.eqb (getImgExtension filename) "").

(** The loop of [handleRequest]; the error of [os.Remove] is dropped. *)
Fixpoint pickLoop (fuel : nat) (files : list DirEntry) (file : DirEntry) :
    M DirEntry :=
  match fuel with
  | 0 => λ _, OutOfFuel
  | S fuel' =>
      if negb (isImage (Name file)) then
        (* Remove the non-image file *)
        let* cf := gets (λ w, CacheFolder (config w)) in
        os_Remove env [cf; Name file] ;;
        let* i := Intn env (List.length files) in
        match files !! i with
        | None => panic
        | Some file => pickLoop fuel' files file
        end
      else ret file
  end.

(** The local branch of [handleRequest]: the writer and whether the
    handler returns from it. *)
Definition serveLocal (fuel : nat) (hostname : string) (rw : ResponseWriter) :
    M (ResponseWriter * bool) :=
  let* cf := gets (λ w, CacheFolder (config w)) in
  let* files := ioutil_ReadDir env [cf] in
  match files with
  | Fail _ => printError "ioutil.ReadDir" ;; ret (rw, false)
  | Ok files =>
      if Nat.eqb (List.length files) 0 then
        printError "No images in cache folder" ;; ret (rw, false)
      else
        (* rand.Seed(time.Now().Unix()) *)
        Now env ;;
        let* i := Intn env (List.length files) in
        match files !! i with
        | None => panic
        | Some file =>
            let* file := pickLoop fuel files file in
            if negb (isImage (Name file)) then
              printError "No images in cache folder" ;; ret (rw, false)
            else
              println "Using local image" ;;
              ret (Fprintf rw ("http://" +:+ hostname +:+ "/" +:+ cf +:+ "/"
                               +:+ Name file), true)
        end
  end.

(** The rest of [handleRequest] after the local branch: the fetch. *)
Definition fetchRemote (hostname : string) (rw : ResponseWriter) :
    M ResponseWriter :=
  (* Get a random remote from config.Remotes *)
  let* cfg := gets config in
  let remotes := default [] (Remotes cfg) in
  let* i := Intn env (List.length remotes) in
  match remotes !! i with
  | None => panic
  | Some remote =>
  println "Using remote" ;;
  (* Send get request to remote *)
  let* response := http_Get env remote in
  match response with
  | None => printError "http.Get" ;; ret rw
  | Some response =>
  (* Validate response status code *)
  if negb (statusOk response) then printError "status code" ;; ret rw
  else
  match locate remote response with
  | None => printError "ioutil.ReadAll" ;; ret rw
  | Some (imgURL, extension) =>
  (* Filename with no extension before compressing *)
  let cf := CacheFolder cfg in
  let* timestamp := gets timestamp in
  let filenameNoExtension := FormatInt timestamp in
  let filenameUncompressed := [cf; filenameNoExtension +:+ "." +:+ extension] in
  println "Downloading uncompressed image" ;;
  (* Check if cache folder exists *)
  ensureFolder env [cf] ;;
  let* err := downloadFile env filenameUncompressed imgURL in
  match err with
  | Some _ => printError "downloadFile" ;; ret rw
  | None =>
  (* Compress image *)
  let* data := ioutil_ReadFile env filenameUncompressed in
  match data with
  | Fail _ => printError "ioutil.ReadFile" ;; ret rw
  | Ok data =>
  let data := (compressImage env ImageCompressQuality data).1 in
  let filenameCompressed := [cf; filenameNoExtension +:+ "_compressed.jpg"] in
  let* err := ioutil_WriteFile env filenameCompressed data in
  println "Writing compressed image" ;;
  match err with
  | Some _ => printError "ioutil.WriteFile" ;; ret rw
  | None =>
  (* Remove temporary file *)
  let* err := os_Remove env filenameUncompressed in
  match err with
  | Some _ => printError "os.Remove" ;; ret rw
  | None =>
  (* Update last update timestamp *)
  let* now := Now env in
  modify (set_timestamp (UnixNano now)) ;;
  println "Latest update timestamp" ;;
  ret (Fprintf rw ("http://" +:+ hostname +:+ "/"
                   +:+ Str.to_slash (FS.join filenameCompressed)))
  end end end end end end end.

(** [handleRequest]; this revision starts no goroutine. *)
Definition handleRequest (fuel : nat) (r : Request) : M ResponseWriter :=
  let rw := emptyResponse in
  if negb (String.eqb (Method r) "GET") then
    ret (http_Error rw "Method not allowed" 405)
  else
  if String.eqb (Path r) "/favicon.ico" then ret (http_NotFound rw)
  else
  let* cf := gets (λ w, CacheFolder (config w)) in
  if Str.HasPrefix (Path r) ("/" +:+ cf +:+ "/") then
    if String.eqb (getImgExtension (Path r)) "" then ret (http_NotFound rw)
    else
      let filepath :=
        cf :: FS.fields (Str.drop (String.length cf + 1) (Path r)) "" in
      let* st := os_Stat filepath in
      match st with
      | Ok _ =>
          (* Image exists, return it *)
          http_ServeFile env rw r filepath
      | Fail _ => ret (http_NotFound rw)
      end
  else
  if negb (String.eqb (Path r) "/") then ret (http_NotFound rw)
  else
  let hostname := Host r in
  (* Determine to use local or remote mode *)
  let* cfg := gets config in
  let* fresh :=
    if String.eqb (CfgMode cfg) Local then ret true
    else
      let* now := Now env in
      let* timestamp := gets timestamp in
      ret (wrap64 (Unix now - timestamp) <? UpdateInterval cfg)%Z in
  let* (rw, served) :=
    if fresh : bool then serveLocal fuel hostname rw else ret (rw, false) in
  if served : bool then ret rw
  else fetchRemote hostname rw.

Definition serve (fuel : nat) (r : Request) : M ResponseWriter :=
  if String.eqb (Path r) "/reload" then reloadConfig emptyResponse
  else handleRequest fuel r.

End program.

End V1.

(** ** Statements on computations *)

(** [wp m w Q]: the result of running [m] from [w] satisfies [Q]. *)
Definition wp {A} (m : M A) (w : World) (Q : result A → Prop) : Prop :=
  Q (m w).

(** What [Q] asks of [m] once [m] is followed by [k]. *)
Definition wp_cont {A B} (k : A → M B) (Q : result B → Prop)
    (r : result A) : Prop :=
  match r with
  | Ret a w' => wp (k a) w' Q
  | Exit w' => Q (Exit w')
  | Panic w' => Q (Panic w')
  | OutOfFuel => Q OutOfFuel
  end.

(** From [w] to [w'] only lines were logged and the disk may have changed. *)
Definition quiet (w w' : World) : Prop :=
  config w' = config w ∧ timestamp w' = timestamp w
  ∧ configFile w' = configFile w ∧ ticks w' = ticks w
  ∧ draws w' = draws w ∧ requested w' = requested w
  ∧ ∃ l, logged w' = (logged w ++ l)%list.

(** The last line logged is an error. *)
Definition error_logged (w : World) : Prop :=
  ∃ what, last (logged w) = Some (PrintError what).

(** The world where a computation stopped, if it did. *)
Definition final {A} (r : result A) : option World :=
  match r with
  | Ret _ w | Exit w | Panic w => Some w
  | OutOfFuel => None
  end.

(** From [w] to [w'] the globals of the program, the configuration file
    and the list of requests are the same. *)
Definition calm (w w' : World) : Prop :=
  config w' = config w ∧ timestamp w' = timestamp w
  ∧ configFile w' = configFile w ∧ requested w' = requested w.

(** What the check of the limit does to the world when it lets the fetch go
    on: nothing, the limit being off or not reached, or the switch to the
    local mode with the configuration written out. *)
Definition limit_step (env : Env) (cf : string) (w w' : World) : Prop :=
  fs w' = fs w ∧ timestamp w' = timestamp w ∧ ticks w' = ticks w
  ∧ draws w' = draws w ∧ requested w' = requested w
  ∧ ((config w' = config w ∧ configFile w' = configFile w
      ∧ logged w' = logged w
      ∧ (MaxCacheSize (config w) = 0%Z
         ∨ ∃ files, FS.readDir (fs w) [cf] = Ok files
             ∧ (Z.of_nat (List.length files) < MaxCacheSize (config w))%Z))
     ∨ (config w' = set_Mode Local (config w)
        ∧ MaxCacheSize (config w) ≠ 0%Z
        ∧ (∃ files, FS.readDir (fs w) [cf] = Ok files
             ∧ (MaxCacheSize (config w) <= Z.of_nat (List.length files))%Z)
        ∧ (configFile w' = Stored (config w')
           ∨ fault env SysWriteFile ["config.json"] = true))).

(** How the mode may move while a request is handled: not at all, or to
    local with the limit on and reached by the listing of the cache
    folder. *)
Definition mode_step (w w' : World) : Prop :=
  config w' = config w
  ∨ (config w' = set_Mode Local (config w)
     ∧ MaxCacheSize (config w) ≠ 0%Z
     ∧ ∃ files, FS.readDir (fs w') [CacheFolder (config w)] = Ok files
         ∧ (MaxCacheSize (config w) <= Z.of_nat (List.length files))%Z).

(** The address of the entry [name] of the cache folder [cf] on [host]. *)
Definition url_of (host cf name : string) : string :=
  "http://" +:+ host +:+ "/" +:+ cf +:+ "/" +:+ name.

(** The address a fetch answers with: the cache folder with its
    backslashes turned into slashes, and the name made of the clock reading
    [t]. *)
Definition remote_url (host : string) (cfg : Config) (t : Z) : string :=
  url_of host (Str.to_slash (CacheFolder cfg)) (FormatInt t +:+ ".jpg").


(** The writer with which [handleRequest] reaches the root path in the
    second and third revision, and what it holds once a local image was
    served. *)
Definition rootWriter : ResponseWriter := set_allowOrigin "*" emptyResponse.

Definition localAnswer (host cf name : string) : ResponseWriter :=
  Fprintf rootWriter (url_of host cf name).

(** A result of [retrieveRemote] seen as a result of [handleRequest]. *)
Definition synchronous (r : result ResponseWriter) :
    result (ResponseWriter * bool) :=
  match r with
  | Ret rw w => Ret (rw, false) w
  | Exit w => Exit w
  | Panic w => Panic w
  | OutOfFuel => OutOfFuel
  end.

(** The fuel is enough for the listing of the cache folder. *)
Definition fuel_ok (fuel : nat) (w : World) : Prop :=
  ∀ files, FS.readDir (fs w) [CacheFolder (config w)] = Ok files →
    List.length files <= fuel.

(** A body of the shape of an answer: an entry of the cache folder, written
    as configured or with slashes for backslashes, that passes the
    extension check. *)
Definition answer_shape (host cf : string) (b : string) : Prop :=
  ∃ name, image_name name
    ∧ (b = url_of host cf name ∨ b = url_of host (Str.to_slash cf) name).

(** *** The shapes as the specification words them *)


(** [http://<host>/<cacheFolder>/<name>.(jpg|jpeg|png)], the extension in
    any case. *)
Definition spec_shape (host cf b : string) : Prop :=
  ∃ name e, b = url_of host cf (name +:+ "." +:+ e)
            ∧ is_image_ext (Str.ToLower e).

(** ** Concrete worlds

    The environments and worlds at which the statements below are
    evaluated. *)

Module Scenario.


Definition cfg (mode : Mode) (folder : string) (limit : Z) : Config :=
  {| ListenPort := 8080; LogFileName := ""; CfgMode := mode;
     CacheFolder := folder; CacheTmpFolder := "tmp"; UpdateInterval := 3;
     MaxCacheSize := limit; ImageQuality := 60;
     Remotes := Some ["https://img.example/api"] |}.

Definition start_ns : Z := 1700000100000000000.

(** The remote answers with a JPEG image, whatever is asked. *)
Definition env_ok : Env :=
  {| clock := λ n, (start_ns + Z.of_nat n)%Z;
     draw := λ _, 0;
     network := λ _, Some {| StatusCode := 200; ContentType := "image/jpeg";
                             Body := Some "JPEGDATA" |};
     codec := λ _ data, Some data;
     fault := λ _ _, false |}.

(** The network is down. *)
Definition env_down : Env :=
  {| clock := clock env_ok; draw := draw env_ok; network := λ _, None;
     codec := codec env_ok; fault := fault env_ok |}.



Definition world (c : Config) (disk : gmap (list string) node) : World :=
  {| config := c; timestamp := 1700000000; fs := disk;
     configFile := Stored c; ticks := 0; draws := 0; logged := [];
     requested := [] |}.

Definition get (path : string) : Request :=
  {| Method := "GET"; Path := path; Host := "h" |}.

(** No cache folder yet, as on the first run. *)
Definition w_first_run : World := world (cfg Remote "cache" 0) ∅.

(** An empty cache folder, without its tmp folder. *)
Definition w_empty_cache : World :=
  world (cfg Remote "cache" 0) {[ ["cache"] := Dir ]}.


(** The local mode over a cache folder that holds one image. *)
Definition w_local_image : World :=
  world (cfg Local "cache" 2)
    {[ ["cache"] := Dir; ["cache"; "b.jpg"] := File "image" ]}.

(** A cache folder that holds one file, and no image. *)
Definition w_no_image : World :=
  world (cfg Local "cache" 2)
    {[ ["cache"] := Dir; ["cache"; "a.txt"] := File "text" ]}.


(** A cache folder with a backslash in its name. *)
Definition w_backslash : World := world (cfg Remote "a\b" 0) ∅.



End Scenario.

(** ** More predicates on configurations and files *)

(** The ranges [newConfig] of the third revision checks, the name of the
    log file apart, which may be empty. *)
Definition in_range (c : Config) : Prop :=
  (1024 <= ListenPort c <= 65535)%Z
  ∧ (CfgMode c = Local ∨ CfgMode c = Remote)
  ∧ CacheFolder c ≠ "" ∧ CacheTmpFolder c ≠ ""
  ∧ (0 < UpdateInterval c)%Z ∧ (0 <= MaxCacheSize c)%Z
  ∧ (0 < ImageQuality c)%Z ∧ Remotes c ≠ None.

(** An entry of the cache folder that [isImage] of the third revision
    accepts: a name that passes the check of the extension, and under it a
    file that can be opened and is not empty. *)
Definition servable (env : Env) (w : World) (name : string) : Prop :=
  image_name name
  ∧ fault env SysOpen [CacheFolder (config w); name] = false
  ∧ ∃ data, fs w !! [CacheFolder (config w); name] = Some (File data)
            ∧ data ≠ "".


(** What the globals other than the configuration and its file are after
    a computation that only reads and writes the configuration. *)
Definition config_only (w w' : World) : Prop :=
  timestamp w' = timestamp w ∧ fs w' = fs w ∧ requested w' = requested w
  ∧ ticks w' = ticks w ∧ draws w' = draws w.

(** ** More worlds *)

Module Scenario2.
Import Scenario.

(** A text with two addresses of images on one line. *)
Definition two_addresses : string :=
  "see http://a.example/1.jpg or http://b.example/2.PNG !".

(** The one entry of the cache folder of [w_local_image]. *)
Definition b_jpg : DirEntry := {| Name := "b.jpg"; IsDir := false |}.

(** A request to reload the configuration, sent with POST. *)
Definition post_reload : Request :=
  {| Method := "POST"; Path := "/reload"; Host := "h" |}.

(** A configuration with a port and a quality out of range, among
    values that are in range. *)
Definition cfg_out_of_range : Config :=
  {| ListenPort := 80; LogFileName := "server.log"; CfgMode := Local;
     CacheFolder := "cache"; CacheTmpFolder := "tmp"; UpdateInterval := 3;
     MaxCacheSize := 2; ImageQuality := 0;
     Remotes := Some ["https://img.example/api"] |}.

(** A clock that moves on by a thousand seconds from one reading to the
    next. *)
Definition env_slow : Env :=
  {| clock := λ n, (start_ns + Z.of_nat n * 1000000000000)%Z;
     draw := draw env_ok; network := network env_ok; codec := codec env_ok;
     fault := fault env_ok |}.

(** The world the first revision is in after one fetch into an empty cache
    folder, under that clock. *)
Definition w_after_fetch : World :=
  match V1.fetchRemote env_slow "h" emptyResponse w_empty_cache with
  | Ret _ w => w
  | _ => w_empty_cache
  end.

(** A configuration in range but for its list of remotes, which is
    empty. *)
Definition w_no_remote : World :=
  world {| ListenPort := 8080; LogFileName := ""; CfgMode := Remote;
           CacheFolder := "cache"; CacheTmpFolder := "tmp";
           UpdateInterval := 3; MaxCacheSize := 0; ImageQuality := 60;
           Remotes := Some [] |} ∅.

End Scenario2.
(** ** Facts on byte strings *)

Module StrFacts.
Import Str.

Lemma app_nil_l (s : string) : "" +:+ s = s.
Proof. reflexivity. Qed.

Lemma app_cons (c : ascii) (s t : string) :
  String c s +:+ t = String c (s +:+ t).
Proof. reflexivity. Qed.

Lemma app_nil_r (s : string) : s +:+ "" = s.
Proof. induction s as [|c s IH]; [done | rewrite app_cons; congruence]. Qed.

Lemma app_assoc (a b c : string) : (a +:+ b) +:+ c = a +:+ (b +:+ c).
Proof. induction a as [|x a IH]; [done | rewrite !app_cons; congruence]. Qed.

Lemma length_app (a b : string) :
  String.length (a +:+ b) = String.length a + String.length b.
Proof.
  induction a as [|x a IH]; [done | rewrite app_cons; simpl; congruence].
Qed.

Lemma take_app (a b : string) : take (String.length a) (a +:+ b) = a.
Proof.
  induction a as [|x a IH]; rewrite ?app_cons, ?app_nil_l; simpl;
    [by destruct b | congruence].
Qed.

Lemma drop_app (a b : string) : drop (String.length a) (a +:+ b) = b.
Proof.
  induction a as [|x a IH]; rewrite ?app_cons, ?app_nil_l; simpl;
    [by destruct b | done].
Qed.

Lemma take_drop (n : nat) (s : string) : take n s +:+ drop n s = s.
Proof.
  revert s; induction n as [|n IH]; intros [|c s]; simpl; try done.
  rewrite app_cons; f_equal; apply IH.
Qed.

Lemma app_inv_head (a b c : string) : a +:+ b = a +:+ c → b = c.
Proof.
  induction a as [|x a IH]; rewrite ?app_cons, ?app_nil_l;
    [done | intros [=]; auto].
Qed.

Lemma app_eq_nil (a b : string) : a +:+ b = "" → a = "" ∧ b = "".
Proof. destruct a; [by rewrite app_nil_l | by rewrite app_cons]. Qed.


End StrFacts.
(** ** Facts on the matcher: it finds exactly what the pattern denotes *)

Section loop_facts.
Context (m : string → capture → (string → capture → option outcome) → option outcome).
Context (f : string → string → capture → capture → Prop).
Hypothesis m_sound : ∀ s c k o, m s c k = Some o →
  ∃ a rest c', s = a +:+ rest ∧ f a rest c c' ∧ k rest c' = Some o.
Hypothesis m_complete : ∀ a rest c c' c0 k, f a rest c c' →
  (∀ c'', is_Some (k rest c'')) → is_Some (m (a +:+ rest) c0 k).

Lemma plus_loop_sound k fuel s c o :
  plus_loop m k fuel s c = Some o →
  ∃ a rest c' n, s = a +:+ rest ∧ iter_matches f (S n) a rest c c'
                 ∧ k rest c' = Some o.
Proof.
  revert s c; induction fuel as [|fuel IH]; intros s c; simpl; [done |].
  intros H. apply m_sound in H as (a & rest & c1 & -> & Hf & Hk).
  destruct (Nat.ltb _ _).
  - destruct (plus_loop m k fuel rest c1) as [o'|] eqn:E.
    + injection Hk as ->. apply IH in E as (a2 & rest2 & c2 & n & -> & Hit & Hk).
      exists (a +:+ a2), rest2, c2, (S n). rewrite StrFacts.app_assoc.
      split; [done |]. split; [| done].
      exists a, a2, c1. eauto.
    + exists a, rest, c1, 0. split; [done|]. split; [|done].
      exists a, "", c1. rewrite StrFacts.app_nil_r. simpl. eauto.
  - exists a, rest, c1, 0. split; [done|]. split; [|done].
    exists a, "", c1. rewrite StrFacts.app_nil_r. simpl. eauto.
Qed.

Lemma plus_loop_complete k n : ∀ a rest c c' c0 fuel,
  iter_matches f (S n) a rest c c' →
  (∀ c'', is_Some (k rest c'')) →
  String.length (a +:+ rest) < fuel →
  is_Some (plus_loop m k fuel (a +:+ rest) c0).
Proof.
  induction n as [|n IH]; intros a rest c c' c0 fuel Hit Hk Hfuel;
    (destruct fuel as [|fuel]; [lia |]);
    destruct Hit as (a1 & a2 & cm & -> & Hf & Hit).
  - destruct Hit as [-> ->]. rewrite StrFacts.app_nil_r in *. simpl.
    eapply m_complete; [exact Hf |]. intros c''.
    destruct (Nat.ltb _ _); [| apply Hk].
    destruct (plus_loop m k fuel rest c''); [by eexists | apply Hk].
  - destruct a1 as [|x a1].
    { rewrite StrFacts.app_nil_l. eapply IH; [exact Hit | exact Hk |].
      by rewrite StrFacts.app_nil_l in Hfuel. }
    simpl. rewrite StrFacts.app_assoc. eapply m_complete; [exact Hf |]. intros c''.
    rewrite StrFacts.app_assoc, StrFacts.app_cons in Hfuel. simpl in Hfuel.
    destruct (Nat.ltb_spec (String.length (a2 +:+ rest))
                (S (String.length ((a1 +:+ a2) +:+ rest)))) as [Hlt|Hge].
    + assert (is_Some (plus_loop m k fuel (a2 +:+ rest) c'')) as [o ->];
        [| by eexists].
      eapply IH; [exact Hit | exact Hk |].
      rewrite !StrFacts.length_app in *. lia.
    + rewrite !StrFacts.length_app in Hge. lia.
Qed.
End loop_facts.

Lemma bt_sound r : ∀ s c k o, bt r s c k = Some o →
  ∃ a rest c', s = a +:+ rest ∧ matches r a rest c c' ∧ k rest c' = Some o.
Proof.
  induction r as [x|x| |r1 IH1 r2 IH2|r1 IH1 r2 IH2|r1 IH1|r1 IH1|r1 IH1| ];
    intros s c k o; cbn [bt matches].
  - destruct s as [|d s]; [done |]. destruct (Ascii.eqb_spec x d) as [->|]; [|done].
    intros H. exists (String d ""), s, c. eauto.
  - destruct s as [|d s]; [done |].
    destruct (Ascii.eqb_spec (Str.lower_ascii x) (Str.lower_ascii d)) as [E|]; [|done].
    intros H. exists (String d ""), s, c. split; [done|]. split; [|done]. eauto.
  - destruct s as [|d s]; [done |]. destruct (Ascii.eqb_spec d newline) as [|Hne]; [done|].
    intros H. exists (String d ""), s, c. split; [done|]. split; [|done]. eauto.
  - intros H. apply IH1 in H as (a1 & rest1 & c1 & -> & H1 & H).
    apply IH2 in H as (a2 & rest & c2 & -> & H2 & H).
    exists (a1 +:+ a2), rest, c2. rewrite StrFacts.app_assoc. split; [done|].
    split; [|done]. exists a1, a2, c1. eauto.
  - destruct (bt r1 s c k) as [o1|] eqn:E1.
    + intros [= ->]. apply IH1 in E1 as (a & rest & c' & -> & ? & ?).
      exists a, rest, c'. eauto.
    + intros H. apply IH2 in H as (a & rest & c' & -> & ? & ?).
      exists a, rest, c'. eauto.
  - destruct (bt r1 s c k) as [o1|] eqn:E1.
    + intros [= ->]. apply IH1 in E1 as (a & rest & c' & -> & ? & ?).
      exists a, rest, c'. eauto.
    + intros H. exists "", s, c. eauto.
  - intros H. eapply plus_loop_sound in H as (a & rest & c' & n & -> & Hit & Hk);
      [| exact IH1].
    exists a, rest, c'. eauto.
  - intros H. apply IH1 in H as (a & rest & c' & -> & H1 & H).
    rewrite StrFacts.length_app in H.
    replace (String.length a + String.length rest - String.length rest)
      with (String.length a) in H by lia.
    rewrite StrFacts.take_app in H. exists a, rest, (Some a). eauto.
  - destruct s; [|done]. intros H. exists "", "", c. eauto.
Qed.

Lemma bt_complete r : ∀ a rest c c' c0 k, matches r a rest c c' →
  (∀ c'', is_Some (k rest c'')) → is_Some (bt r (a +:+ rest) c0 k).
Proof.
  induction r as [x|x| |r1 IH1 r2 IH2|r1 IH1 r2 IH2|r1 IH1|r1 IH1|r1 IH1| ];
    intros a rest c c' c0 k; cbn [bt matches].
  - intros [-> _] Hk. rewrite StrFacts.app_cons, StrFacts.app_nil_l.
    rewrite Ascii.eqb_refl. apply Hk.
  - intros (d & -> & E & _) Hk. rewrite StrFacts.app_cons, StrFacts.app_nil_l.
    rewrite E, Ascii.eqb_refl. apply Hk.
  - intros (d & -> & E & _) Hk. rewrite StrFacts.app_cons, StrFacts.app_nil_l.
    destruct (Ascii.eqb_spec d newline); [done | apply Hk].
  - intros (a1 & a2 & cm & -> & H1 & H2) Hk. rewrite StrFacts.app_assoc.
    eapply IH1; [exact H1 |]. intros c''. eapply IH2; [exact H2 | exact Hk].
  - intros [H|H] Hk.
    + destruct (IH1 _ _ _ _ c0 k H Hk) as [o ->]. by eexists.
    + destruct (bt r1 (a +:+ rest) c0 k); [by eexists |]. eapply IH2; eauto.
  - intros [H|[-> _]] Hk.
    + destruct (IH1 _ _ _ _ c0 k H Hk) as [o ->]. by eexists.
    + rewrite StrFacts.app_nil_l. destruct (bt r1 rest c0 k); [by eexists | apply Hk].
  - intros [n Hit] Hk. eapply plus_loop_complete; eauto.
  - intros [[cm H] _] Hk. eapply IH1; [exact H |]. intros c''. apply Hk.
  - intros (-> & -> & _) Hk. apply Hk.
Qed.

Lemma match_here_sound r s m cap :
  match_here r s = Some (m, cap) →
  ∃ rest, s = m +:+ rest ∧ matches r m rest None cap.
Proof.
  unfold match_here. destruct (bt r s None _) as [[s' c']|] eqn:E; [|done].
  apply bt_sound in E as (a & rest & c'' & -> & Hm & [= <- <-]).
  rewrite StrFacts.length_app.
  replace (String.length a + String.length rest - String.length rest)
    with (String.length a) by lia.
  rewrite StrFacts.take_app. intros [= <- <-]. eauto.
Qed.

Lemma match_here_complete r a rest c c' :
  matches r a rest c c' → is_Some (match_here r (a +:+ rest)).
Proof.
  intros Hm. unfold match_here.
  destruct (bt_complete r a rest c c' None (λ s' cap, Some (s', cap)) Hm)
    as [[s' c''] ->]; [by eexists | by eexists].
Qed.

Lemma find_sound r s m cap :
  find r s = Some (m, cap) →
  ∃ pre rest, s = pre +:+ m +:+ rest ∧ matches r m rest None cap
    ∧ ∀ pre' a' rest' c c', s = pre' +:+ a' +:+ rest' →
        matches r a' rest' c c' → (String.length pre ≤ String.length pre')%nat.
Proof.
  induction s as [|x s IH]; simpl.
  - destruct (match_here r "") as [[m' cap']|] eqn:E; [|done].
    intros [= -> ->]. apply match_here_sound in E as (rest & E & Hm).
    exists "", rest. split; [done |]. split; [done |]. simpl; lia.
  - destruct (match_here r (String x s)) as [[m' cap']|] eqn:E.
    + intros [= -> ->]. apply match_here_sound in E as (rest & E & Hm).
      exists "", rest. split; [done |]. split; [done |]. simpl; lia.
    + intros H. apply IH in H as (pre & rest & -> & Hm & Hleft).
      exists (String x pre), rest. split; [done |]. split; [done |].
      intros [|y pre'] a' rest' c c' Heq Hm'.
      * rewrite StrFacts.app_nil_l in Heq.
        destruct (match_here_complete _ _ _ _ _ Hm') as [o Ho].
        rewrite <- Heq in Ho. congruence.
      * rewrite StrFacts.app_cons in Heq. injection Heq as -> Heq.
        simpl. apply le_n_S. eapply Hleft; eauto.
Qed.

Lemma find_complete r pre a rest c c' :
  matches r a rest c c' → is_Some (find r (pre +:+ a +:+ rest)).
Proof.
  intros Hm. induction pre as [|x pre IH].
  - rewrite StrFacts.app_nil_l. destruct (match_here_complete _ _ _ _ _ Hm) as [o Ho].
    destruct (a +:+ rest); simpl; rewrite Ho; by eexists.
  - rewrite StrFacts.app_cons. simpl.
    destruct (match_here r _); [by eexists | exact IH].
Qed.


Lemma one_line_app a b : one_line (a +:+ b) ↔ one_line a ∧ one_line b.
Proof.
  induction a as [|x a IH]; [rewrite StrFacts.app_nil_l; simpl; tauto |].
  rewrite StrFacts.app_cons. simpl. tauto.
Qed.

Lemma iter_any_iff n a rest c c' :
  iter_matches (matches AnyNotNL) n a rest c c' ↔
  String.length a = n ∧ one_line a ∧ c' = c.
Proof.
  revert a c; induction n as [|n IH]; intros a c; simpl.
  - split; [intros [-> ->]; done | intros (H & _ & ->)].
    by destruct a.
  - split.
    + intros (a1 & a2 & cm & -> & (d & -> & Hd & ->) & Hit).
      apply IH in Hit as (<- & Hl & ->). rewrite StrFacts.app_cons. simpl. eauto.
    + destruct a as [|d a]; [intros [? _]; done |]. simpl.
      intros ([= Hlen] & [Hd Hl] & ->).
      exists (String d ""), a, c. split; [done |]. split; [eauto |].
      apply IH; eauto.
Qed.

Lemma plus_any_iff a rest c c' :
  matches (Plus AnyNotNL) a rest c c' ↔ a ≠ "" ∧ one_line a ∧ c' = c.
Proof.
  cbn [matches]. split.
  - intros [n Hit]. apply iter_any_iff in Hit as (Hlen & ? & ?).
    split; [by destruct a | done].
  - intros (Hne & Hl & ->). destruct a as [|d a]; [done |].
    exists (String.length a). apply iter_any_iff. eauto.
Qed.

Lemma lits_iff w a rest c c' :
  w ≠ "" → matches (lits w) a rest c c' ↔ a = w ∧ c' = c.
Proof.
  revert a c; induction w as [|x w IH]; [done |]. intros a c _.
  destruct w as [|y w]; [simpl; tauto |].
  change (lits (String x (String y w))) with (Cat (Lit x) (lits (String y w))).
  cbn [matches]. split.
  - intros (a1 & a2 & cm & -> & [-> ->] & H2). apply IH in H2 as [-> ->]; done.
  - intros [-> ->]. exists (String x ""), (String y w), c.
    split; [done |]. split; [done |]. by apply IH.
Qed.

Lemma lits_fold_iff w a rest c c' :
  w ≠ "" →
  matches (lits_fold w) a rest c c' ↔ Str.ToLower a = Str.ToLower w ∧ c' = c.
Proof.
  revert a c; induction w as [|x w IH]; [done |]. intros a c _.
  destruct w as [|y w].
  - simpl. split.
    + intros (d & -> & E & ->). simpl. by rewrite E.
    + intros [E ->]. destruct a as [|d [|??]]; try done.
      injection E as E. eauto.
  - change (lits_fold (String x (String y w)))
      with (Cat (LitFold x) (lits_fold (String y w))).
    cbn [matches]. split.
    + intros (a1 & a2 & cm & -> & (d & -> & E & ->) & H2).
      apply IH in H2 as [E2 ->]; [|done]. split; [|done].
      rewrite StrFacts.app_cons, StrFacts.app_nil_l. simpl. rewrite E. simpl in E2.
      by rewrite E2.
    + intros [E ->]. destruct a as [|d a]; [done |]. simpl in E.
      injection E as E1 E2.
      exists (String d ""), a, c. split; [done |]. split; [eauto |].
      apply IH; done.
Qed.

Lemma image_exts_iff a rest c c' :
  matches image_exts a rest c c' ↔ is_image_ext (Str.ToLower a) ∧ c' = Some a.
Proof.
  unfold image_exts, is_image_ext. cbn [matches].
  split.
  - intros [[cm H] ->]. split; [|done].
    destruct H as [H|[H|H]]; apply lits_fold_iff in H as [H _]; try done;
      rewrite H; vm_compute; tauto.
  - intros [H ->]. split; [|done]. exists c.
    destruct H as [H|[H|H]]; [left | right; left | right; right];
      apply lits_fold_iff; try done; by rewrite H.
Qed.

Lemma imgExtension_pattern_iff m rest c cap :
  matches imgExtension_pattern m rest c cap ↔
  ∃ x e, m = x +:+ "." +:+ e ∧ x ≠ "" ∧ one_line x
         ∧ is_image_ext (Str.ToLower e) ∧ rest = "" ∧ cap = Some e.
Proof.
  unfold imgExtension_pattern. cbn [matches]. split.
  - intros (x & a2 & c1 & -> & Hx & d & a3 & c2 & -> & [-> ->] & e & a4 & c3
            & -> & He & -> & -> & ->).
    apply plus_any_iff in Hx as (? & ? & ->).
    apply image_exts_iff in He as [? ->].
    exists x, e. rewrite !StrFacts.app_nil_r. eauto 10.
  - intros (x & e & -> & Hx & Hl & He & -> & ->).
    exists x, ("." +:+ e), c. split; [done |].
    split; [by apply plus_any_iff |].
    exists ".", e, c. split; [done |]. split; [done |].
    exists e, "", (Some e). rewrite StrFacts.app_nil_r.
    split; [done |]. split; [by apply image_exts_iff | done].
Qed.

Lemma imgURL_pattern_iff m rest c cap :
  matches imgURL_pattern m rest c cap ↔
  ∃ sch x e, m = "http" +:+ sch +:+ "://" +:+ x +:+ "." +:+ e
             ∧ (sch = "s" ∨ sch = "") ∧ x ≠ "" ∧ one_line x
             ∧ is_image_ext (Str.ToLower e) ∧ cap = Some e.
Proof.
  unfold imgURL_pattern. cbn [matches]. split.
  - intros (a1 & r1 & c1 & -> & H1 & sch & r2 & c2 & -> & Hs & a3 & r3 & c3 & ->
            & H3 & x & r4 & c4 & -> & Hx & d & e & c5 & -> & [-> ->] & He).
    apply lits_iff in H1 as [-> ->]; [|done].
    apply lits_iff in H3 as [-> ->]; [|done].
    apply plus_any_iff in Hx as (? & ? & ->).
    apply image_exts_iff in He as [? ->].
    exists sch, x, e. split; [done |].
    split; [destruct Hs as [[-> _]|[-> _]]; auto |]. eauto.
  - intros (sch & x & e & -> & Hs & Hx & Hl & He & ->).
    exists "http", (sch +:+ "://" +:+ x +:+ "." +:+ e), c.
    split; [done |]. split; [by apply lits_iff |].
    exists sch, ("://" +:+ x +:+ "." +:+ e), c. split; [done |].
    split; [destruct Hs as [->| ->]; [left | right]; done |].
    exists "://", (x +:+ "." +:+ e), c. split; [done |].
    split; [by apply lits_iff |].
    exists x, ("." +:+ e), c. split; [done |].
    split; [by apply plus_any_iff |].
    exists ".", e, c. split; [done |]. split; [done |].
    by apply image_exts_iff.
Qed.

Lemma is_image_ext_nonempty e : is_image_ext e → e ≠ "".
Proof. intros [->|[->| ->]]; done. Qed.

Lemma split_last x : x ≠ "" → ∃ y d, x = y +:+ String d "".
Proof.
  induction x as [|c x IH]; [done |]. intros _. destruct x as [|c' x].
  - by exists "", c.
  - destruct IH as (y & d & E); [done |]. exists (String c y), d.
    by rewrite StrFacts.app_cons, <- E.
Qed.

Lemma getImgExtension_find s :
  getImgExtension s =
    match find imgExtension_pattern s with
    | Some (_, cap) => Str.ToLower (default "" cap)
    | None => ""
    end.
Proof.
  unfold getImgExtension, FindStringSubmatch.
  by destruct (find imgExtension_pattern s) as [[m cap]|].
Qed.

Lemma getImgExtension_sound s :
  getImgExtension s ≠ "" →
  ∃ pre d e, s = pre +:+ String d ("." +:+ e) ∧ d ≠ newline
             ∧ is_image_ext (Str.ToLower e)
             ∧ getImgExtension s = Str.ToLower e.
Proof.
  rewrite getImgExtension_find.
  destruct (find imgExtension_pattern s) as [[m cap]|] eqn:E; [|done].
  intros _. apply find_sound in E as (pre & rest & -> & Hm & _).
  apply imgExtension_pattern_iff in Hm as (x & e & -> & Hx & Hl & He & -> & ->).
  destruct (split_last x Hx) as (y & d & ->).
  apply one_line_app in Hl as [_ [Hd _]].
  exists (pre +:+ y), d, e. rewrite !StrFacts.app_assoc, StrFacts.app_nil_r. done.
Qed.

Lemma getImgExtension_complete s :
  image_name s → is_image_ext (getImgExtension s).
Proof.
  intros (pre & d & e & -> & Hd & He).
  assert (matches imgExtension_pattern (String d ("." +:+ e)) "" None (Some e)) as Hm.
  { apply imgExtension_pattern_iff. exists (String d ""), e. simpl. eauto 10. }
  destruct (find_complete _ pre _ _ _ _ Hm) as [[m cap] Hf].
  rewrite StrFacts.app_nil_r in Hf. rewrite getImgExtension_find, Hf.
  apply find_sound in Hf as (pre' & rest & _ & Hm' & _).
  apply imgExtension_pattern_iff in Hm' as (x' & e' & _ & _ & _ & He' & _ & ->).
  done.
Qed.

Lemma getImgExtension_cases s :
  getImgExtension s = "" ∨ is_image_ext (getImgExtension s).
Proof.
  destruct (decide (getImgExtension s = "")) as [|Hne]; [by left | right].
  apply getImgExtension_sound in Hne as (pre & d & e & _ & _ & He & ->). done.
Qed.

Lemma getImgExtension_iff s : getImgExtension s ≠ "" ↔ image_name s.
Proof.
  split.
  - intros H. apply getImgExtension_sound in H as (pre & d & e & ? & ? & ? & _).
    by exists pre, d, e.
  - intros H. by apply is_image_ext_nonempty, getImgExtension_complete.
Qed.

Lemma getImgURL_sound body :
  getImgURL body ≠ "" →
  image_url (getImgURL body) ∧
  ∃ pre rest, Str.unescape_slashes body = pre +:+ getImgURL body +:+ rest
    ∧ ∀ pre' u' rest', Str.unescape_slashes body = pre' +:+ u' +:+ rest' →
        image_url u' → (String.length pre ≤ String.length pre')%nat.
Proof.
  unfold getImgURL, FindString.
  destruct (find imgURL_pattern _) as [[m cap]|] eqn:E; [|done].
  intros _. apply find_sound in E as (pre & rest & E & Hm & Hleft).
  apply imgURL_pattern_iff in Hm as (sch & x & e & -> & ? & ? & ? & ? & _).
  split; [by exists sch, x, e |].
  exists pre, rest. split; [done |].
  intros pre' u' rest' E' (sch' & x' & e' & -> & ? & ? & ? & ?).
  eapply (Hleft pre' _ rest' None (Some e')); [exact E' |].
  apply imgURL_pattern_iff. exists sch', x', e'. done.
Qed.


Lemma image_url_image_name u : image_url u → image_name u.
Proof.
  intros (sch & x & e & -> & Hs & Hx & Hl & He).
  destruct (split_last x Hx) as (y & d & ->).
  apply one_line_app in Hl as [_ [Hd _]].
  exists ("http" +:+ sch +:+ "://" +:+ y), d, e.
  rewrite !StrFacts.app_assoc. done.
Qed.


(** ** Rules for computations *)

Arguments FS.stat : simpl never.
Arguments FS.readDir : simpl never.
Arguments FS.mkdir : simpl never.
Arguments FS.writeFile : simpl never.
Arguments FS.readFile : simpl never.
Arguments FS.remove : simpl never.
Arguments FS.join : simpl never.
Arguments getImgURL : simpl never.
Arguments getImgExtension : simpl never.
Arguments getExtension : simpl never.
Arguments FormatInt : simpl never.
Arguments wrap64 : simpl never.
Arguments Unix : simpl never.
Arguments UnixMilli : simpl never.
Arguments UnixNano : simpl never.
Arguments compressImage : simpl never.
Arguments locate : simpl never.
Arguments statusOk : simpl never.

Section rules.
Context (env : Env).

Lemma wp_bind {A B} (m : M A) (k : A → M B) w Q :
  wp m w (wp_cont k Q) → wp (bind m k) w Q.
Proof. unfold wp, wp_cont, bind. by destruct (m w). Qed.

Lemma wp_mono {A} (m : M A) w (Q Q' : result A → Prop) :
  wp m w Q' → (∀ r, Q' r → Q r) → wp m w Q.
Proof. unfold wp. auto. Qed.

Lemma wp_ret {A} (a : A) w Q : Q (Ret a w) → wp (ret a) w Q.
Proof. done. Qed.

Lemma wp_gets {A} (f : World → A) w Q : Q (Ret (f w) w) → wp (gets f) w Q.
Proof. done. Qed.

Lemma wp_modify f w Q : Q (Ret tt (f w)) → wp (modify f) w Q.
Proof. done. Qed.

Lemma wp_exit {A} w (Q : result A → Prop) : Q (Exit w) → wp exit w Q.
Proof. done. Qed.

Lemma wp_panic {A} w (Q : result A → Prop) : Q (Panic w) → wp panic w Q.
Proof. done. Qed.

Lemma wp_out {A} w (Q : result A → Prop) :
  Q OutOfFuel → wp (λ _, OutOfFuel) w Q.
Proof. done. Qed.

Lemma wp_println t w Q :
  Q (Ret tt (set_logged (logged w ++ [Println t]) w)) → wp (println t) w Q.
Proof. done. Qed.

Lemma wp_printError t w Q :
  Q (Ret tt (set_logged (logged w ++ [PrintError t]) w)) →
  wp (printError t) w Q.
Proof. done. Qed.

Lemma wp_fatalln {A} t w (Q : result A → Prop) :
  Q (Exit (set_logged (logged w ++ [PrintError t]) w)) → wp (fatalln t) w Q.
Proof. done. Qed.

Lemma wp_Now w Q :
  Q (Ret (clock env (ticks w)) (set_ticks (S (ticks w)) w)) →
  wp (Now env) w Q.
Proof. done. Qed.

Lemma wp_Intn n w Q :
  match n with
  | 0 => Q (Panic w)
  | _ => Q (Ret (draw env (draws w) `mod` n) (set_draws (S (draws w)) w))
  end → wp (Intn env n) w Q.
Proof. by destruct n. Qed.

Lemma wp_Intn_pos n w Q :
  0 < n →
  Q (Ret (draw env (draws w) `mod` n) (set_draws (S (draws w)) w)) →
  wp (Intn env n) w Q.
Proof. intros Hn HQ. apply wp_Intn. destruct n; [lia | done]. Qed.

Lemma wp_http_Get url w Q :
  Q (Ret (if String.eqb url "" then None else network env url)
         (set_requested (requested w ++ [url]) w)) →
  wp (http_Get env url) w Q.
Proof. unfold wp, http_Get. by destruct (String.eqb url ""). Qed.

Lemma wp_os_Stat p w Q : Q (Ret (FS.stat (fs w) p) w) → wp (os_Stat p) w Q.
Proof. done. Qed.

Lemma wp_update_fs r w Q :
  match r w with
  | Ok fs' => Q (Ret None (set_fs fs' w))
  | Fail e => Q (Ret (Some e) w)
  end → wp (update_fs r) w Q.
Proof. unfold wp, update_fs. by destruct (r w). Qed.

End rules.

Ltac wp_simpl :=
  unfold wp_cont;
  cbn beta iota zeta delta
    [fs config timestamp configFile ticks draws logged requested
     set_config set_timestamp set_fs set_configFile set_ticks set_draws
     set_logged set_requested fst snd negb andb orb].

Ltac wp_prim :=
  lazymatch goal with
  | |- wp (bind _ _) _ _ => apply wp_bind
  | |- wp (ret _) _ _ => apply wp_ret
  | |- wp (gets _) _ _ => apply wp_gets
  | |- wp (modify _) _ _ => apply wp_modify
  | |- wp exit _ _ => apply wp_exit
  | |- wp panic _ _ => apply wp_panic
  | |- wp (λ _, OutOfFuel) _ _ => apply wp_out
  | |- wp (println _) _ _ => apply wp_println
  | |- wp (printError _) _ _ => apply wp_printError
  | |- wp (fatalln _) _ _ => apply wp_fatalln
  | |- wp (Now _) _ _ => apply wp_Now
  | |- wp (Intn _ _) _ _ => first [apply wp_Intn_pos; [lia |] | apply wp_Intn]
  | |- wp (http_Get _ _) _ _ => apply wp_http_Get
  | |- wp (os_Stat _) _ _ => apply wp_os_Stat
  | |- wp (update_fs _) _ _ => apply wp_update_fs
  | |- wp (os_Mkdir _ _) _ _ => unfold os_Mkdir
  | |- wp (os_Create _ _) _ _ => unfold os_Create
  | |- wp (os_Remove _ _) _ _ => unfold os_Remove
  | |- wp (os_Open _ _) _ _ => unfold os_Open
  | |- wp (ioutil_ReadDir _ _) _ _ => unfold ioutil_ReadDir
  | |- wp (ioutil_ReadFile _ _) _ _ => unfold ioutil_ReadFile
  | |- wp (ioutil_WriteFile _ _ _) _ _ => unfold ioutil_WriteFile
  | |- wp (downloadFile _ _ _) _ _ => unfold downloadFile
  | |- wp (writeConfig _ _) _ _ => unfold writeConfig
  | |- wp (if Nat.eqb ?a ?b then _ else _) _ _ => destruct (Nat.eqb_spec a b)
  | |- wp (if ?b then _ else _) _ _ => destruct b eqn:?
  | |- wp (match ?x with _ => _ end) _ _ => destruct x eqn:?
  | |- match ?x with _ => _ end => destruct x eqn:?
  end.

Ltac wp_run := repeat (wp_prim; wp_simpl).

Ltac wsimpl :=
  cbn [fs config timestamp configFile ticks draws logged requested
       set_config set_timestamp set_fs set_configFile set_ticks set_draws
       set_logged set_requested fst snd negb andb orb] in *.

(** *** The two blocks with a join *)

Section blocks.
Context (env : Env).

Lemma quiet_refl w : quiet w w.
Proof. unfold quiet. repeat split. exists []. by rewrite app_nil_r. Qed.

Lemma quiet_log l w : quiet w (set_logged (logged w ++ l) w).
Proof. unfold quiet. repeat split. by exists l. Qed.

Lemma quiet_trans w1 w2 w3 : quiet w1 w2 → quiet w2 w3 → quiet w1 w3.
Proof.
  intros (? & ? & ? & ? & ? & ? & l1 & E1) (? & ? & ? & ? & ? & ? & l2 & E2).
  unfold quiet. repeat split; try congruence.
  exists (l1 ++ l2). by rewrite E2, E1, app_assoc.
Qed.

Lemma wp_ensureFolder p w Q :
  (∀ w', quiet w w' →
     fs w' = fs w ∨ (FS.stat (fs w) p = Fail ENOENT ∧ fs w' = <[p := Dir]> (fs w)) →
     Q (Ret tt w')) →
  (∀ w', quiet w w' → fs w' = fs w →
     last (logged w') = Some (PrintError "os.Mkdir") →
     FS.stat (fs w) p = Fail ENOENT →
     Q (Exit w')) →
  wp (ensureFolder env p) w Q.
Proof.
  intros HR HE. unfold ensureFolder. wp_run.
  - apply HR; [apply quiet_refl | by left].
  - destruct e; try done. apply HE; try done.
    + eapply quiet_trans; apply quiet_log.
    + cbn. by rewrite last_snoc.
  - destruct e; try done. apply HR.
    + unfold quiet; cbn. repeat split. by eexists.
    + right. split; [done |]. unfold FS.mkdir in *.
      match goal with H : FS.stat _ _ = _, H' : context [FS.stat] |- _ =>
        rewrite H in H' end.
      destruct (FS.dir_exists (fs w) (removelast p)); [| done].
      cbn. congruence.
  - destruct e; try done. apply HE; try done.
    + eapply quiet_trans; apply quiet_log.
    + cbn. by rewrite last_snoc.
  - apply HR; [apply quiet_refl | by left].
Qed.

End blocks.

(** ** Facts on the file system *)

Section fs_facts.
Implicit Types (m : gmap (list string) node) (p k : list string).









Lemma readDir_length m p files :
  FS.readDir m p = Ok files → List.length files = FS.count m p.
Proof.
  unfold FS.readDir. destruct (FS.dir_exists m p).
  - intros [= <-]. unfold FS.count. by rewrite merge_sort_Permutation.
  - by destruct (FS.stat m p).
Qed.

End fs_facts.

Section fs_rules.
Context (env : Env).

Lemma writeFile_Ok m p data m' :
  FS.writeFile m p data = Ok m' →
  m' = <[p := File data]> m ∧ FS.dir_exists m (removelast p) = true
  ∧ m !! p ≠ Some Dir.
Proof.
  unfold FS.writeFile, FS.stat. destruct p as [|x p]; [done |].
  destruct (m !! (x :: p)) as [[d|]|] eqn:E; try done.
  - destruct (FS.dir_exists _ _); [| done]. intros [= <-]. done.
  - destruct (m !! removelast (x :: p)) as [[]|];
      (destruct (FS.dir_exists _ _); [| done]); intros [= <-]; done.
Qed.

Lemma wp_write p data w Q :
  (∀ e, Q (Ret (Some e) w)) →
  (FS.dir_exists (fs w) (removelast p) = true → fs w !! p ≠ Some Dir →
     Q (Ret None (set_fs (<[p := File data]> (fs w)) w))) →
  wp (ioutil_WriteFile env p data) w Q.
Proof.
  intros HF HO. unfold ioutil_WriteFile.
  destruct (fault env SysWriteFile p); [apply wp_ret, HF |].
  apply wp_update_fs. destruct (FS.writeFile _ _ _) eqn:E; [| apply HF].
  apply writeFile_Ok in E as (-> & ? & ?). by apply HO.
Qed.

Lemma wp_create p w Q :
  (∀ e, Q (Ret (Some e) w)) →
  (FS.dir_exists (fs w) (removelast p) = true → fs w !! p ≠ Some Dir →
     Q (Ret None (set_fs (<[p := File ""]> (fs w)) w))) →
  wp (os_Create env p) w Q.
Proof.
  intros HF HO. unfold os_Create.
  destruct (fault env SysCreate p); [apply wp_ret, HF |].
  apply wp_update_fs. destruct (FS.writeFile _ _ _) eqn:E; [| apply HF].
  apply writeFile_Ok in E as (-> & ? & ?). by apply HO.
Qed.

Lemma wp_remove p w Q :
  (∀ e, Q (Ret (Some e) w)) →
  (∀ n, fs w !! p = Some n → Q (Ret None (set_fs (delete p (fs w)) w))) →
  wp (os_Remove env p) w Q.
Proof.
  intros HF HO. unfold os_Remove.
  destruct (fault env SysRemove p); [apply wp_ret, HF |].
  apply wp_update_fs. unfold FS.remove. destruct p as [|x p]; [apply HF |].
  destruct (fs w !! (x :: p)) as [[d|]|] eqn:E; [by eapply HO | | apply HF].
  destruct (FS.children _ _); [by eapply HO | apply HF].
Qed.

Lemma wp_readFile p w Q :
  (∀ e, Q (Ret (Fail e) w)) →
  (∀ data, fs w !! p = Some (File data) → Q (Ret (Ok data) w)) →
  wp (ioutil_ReadFile env p) w Q.
Proof.
  intros HF HO. unfold ioutil_ReadFile.
  destruct (fault env SysReadFile p); [apply wp_ret, HF |].
  apply wp_gets. unfold FS.readFile, FS.stat. destruct p as [|x p]; [apply HF |].
  destruct (fs w !! (x :: p)) as [[d|]|] eqn:E; [by apply HO | apply HF |].
  destruct (fs w !! removelast _) as [[]|]; apply HF.
Qed.

Lemma wp_readDir p w Q :
  (∀ e, Q (Ret (Fail e) w)) →
  (∀ files, FS.readDir (fs w) p = Ok files → Q (Ret (Ok files) w)) →
  wp (ioutil_ReadDir env p) w Q.
Proof.
  intros HF HO. unfold ioutil_ReadDir.
  destruct (fault env SysReadDir p); [apply wp_ret, HF |].
  apply wp_gets. destruct (FS.readDir (fs w) p) eqn:E; [by apply HO | apply HF].
Qed.

End fs_rules.

(** ** Facts on decimal numerals and on slashes *)

Section numerals.
Context (P : ascii → Prop).
Hypothesis P_digit : ∀ n, P (pretty_N_char n).

Lemma Forall_app a b : Str.Forall P (a +:+ b) ↔ Str.Forall P a ∧ Str.Forall P b.
Proof.
  induction a as [|x a IH]; [rewrite StrFacts.app_nil_l; simpl; tauto |].
  rewrite StrFacts.app_cons. simpl. tauto.
Qed.

Lemma pretty_N_go_Forall x : ∀ s,
  Str.Forall P s → Str.Forall P (pretty_N_go x s).
Proof.
  induction (N.lt_wf_0 x) as [x _ IH]; intros s Hs.
  assert (x = 0 ∨ 0 < x)%N as [->|Hx] by lia.
  - by rewrite pretty_N_go_0.
  - rewrite pretty_N_go_step by done. apply IH; [by apply N.div_lt |].
    simpl. auto.
Qed.

Lemma pretty_N_Forall (x : N) : Str.Forall P (pretty x).
Proof.
  unfold pretty, pretty_N. case_decide.
  - simpl. split; [apply (P_digit 0) | done].
  - by apply pretty_N_go_Forall.
Qed.

Lemma pretty_Z_Forall (z : Z) : P "-" → Str.Forall P (pretty z).
Proof.
  intros Hdash. destruct z as [|x|x]; unfold pretty, pretty_Z.
  - simpl. split; [apply (P_digit 0) | done].
  - apply pretty_N_Forall.
  - apply Forall_app. split; [by simpl | apply pretty_N_Forall].
Qed.

End numerals.

Lemma pretty_N_go_nonempty x : ∀ s, s ≠ "" → pretty_N_go x s ≠ "".
Proof.
  induction (N.lt_wf_0 x) as [x _ IH]; intros s Hs.
  assert (x = 0 ∨ 0 < x)%N as [->|Hx] by lia.
  - by rewrite pretty_N_go_0.
  - rewrite pretty_N_go_step by done. apply IH; [by apply N.div_lt | done].
Qed.

Lemma pretty_N_nonempty (x : N) : pretty x ≠ "".
Proof.
  unfold pretty, pretty_N. case_decide; [done |].
  rewrite pretty_N_go_step by lia. by apply pretty_N_go_nonempty.
Qed.

Lemma FormatInt_nonempty z : FormatInt z ≠ "".
Proof.
  unfold FormatInt. destruct z as [|x|x]; unfold pretty, pretty_Z; [done | |].
  - apply pretty_N_nonempty.
  - by rewrite StrFacts.app_cons.
Qed.

Lemma FormatInt_Forall (P : ascii → Prop) z :
  (∀ n, P (pretty_N_char n)) → P "-"%char → Str.Forall P (FormatInt z).
Proof. intros. by apply pretty_Z_Forall. Qed.

Lemma to_slash_app a b :
  Str.to_slash (a +:+ b) = Str.to_slash a +:+ Str.to_slash b.
Proof.
  induction a as [|x a IH]; [done |].
  rewrite StrFacts.app_cons. simpl. by rewrite IH.
Qed.

Lemma to_slash_id s :
  Str.Forall (λ c, c ≠ "\"%char) s → Str.to_slash s = s.
Proof.
  induction s as [|x s IH]; [done |]. simpl. intros [Hx Hs].
  rewrite IH by done. by destruct (Ascii.eqb_spec x "\").
Qed.

Lemma digit_not (c : ascii) n :
  c ≠ "0"%char → c ≠ "1"%char → c ≠ "2"%char → c ≠ "3"%char →
  c ≠ "4"%char → c ≠ "5"%char → c ≠ "6"%char → c ≠ "7"%char →
  c ≠ "8"%char → c ≠ "9"%char → pretty_N_char n ≠ c.
Proof. intros. unfold pretty_N_char. repeat case_match; congruence. Qed.

Lemma to_slash_FormatInt z : Str.to_slash (FormatInt z) = FormatInt z.
Proof.
  apply to_slash_id, FormatInt_Forall; [| done].
  intros n. by apply digit_not.
Qed.

(** The name the fetch gives a cache entry passes the extension check. *)
Lemma image_name_FormatInt z : image_name (FormatInt z +:+ ".jpg").
Proof.
  destruct (split_last _ (FormatInt_nonempty z)) as (y & d & E).
  assert (Str.Forall (λ c, c ≠ newline) (FormatInt z)) as Hall.
  { apply FormatInt_Forall; [| done]. intros n. by apply digit_not. }
  rewrite E in Hall. apply Forall_app in Hall as [_ [Hd _]].
  exists y, d, "jpg". rewrite E, StrFacts.app_assoc.
  split; [done |]. split; [done |]. by left.
Qed.

(** ** Facts on the third revision *)

Lemma quiet_calm w w' : quiet w w' → calm w w'.
Proof. intros (? & ? & ? & ? & ? & ? & _). by repeat split. Qed.

Lemma calm_refl w : calm w w.
Proof. by repeat split. Qed.

Lemma calm_trans w1 w2 w3 : calm w1 w2 → calm w2 w3 → calm w1 w3.
Proof.
  intros (? & ? & ? & ?) (? & ? & ? & ?). repeat split; congruence.
Qed.

Section v3.
Context (env : Env).

Lemma wp_isImage name w Q :
  (∀ b w', quiet w w' → fs w' = fs w →
     (b = true →
        image_name name ∧
        ∃ data, fs w !! [CacheFolder (config w); name] = Some (File data)
                ∧ data ≠ "") →
     Q (Ret b w')) →
  wp (V3.isImage env name) w Q.
Proof.
  intros H. unfold V3.isImage. wp_run; apply H; try done;
    try apply quiet_refl; try apply quiet_log.
  intros Hb. apply negb_true_iff, String.eqb_neq in Hb.
  split.
  - apply getImgExtension_iff. by apply String.eqb_neq.
  - unfold FS.stat in *. destruct (fs w !! _) as [n|] eqn:E.
    + exists data. split; [congruence | done].
    + by destruct (fs w !! removelast _) as [[]|].
Qed.

Lemma FS_remove_subseteq (m m' : gmap (list string) node) p :
  FS.remove m p = Ok m' → m' ⊆ m.
Proof.
  unfold FS.remove. destruct p; [done |].
  repeat case_match; intros; simplify_eq; apply delete_subseteq.
Qed.

Lemma wp_pickLoop fuel : ∀ files idx w (Q : result (list DirEntry * nat) → Prop),
  idx < List.length files →
  (List.length files <= fuel ∨ Q OutOfFuel) →
  (∀ files' idx' w', calm w w' → fs w' ⊆ fs w →
     ticks w' = ticks w →
     (files' = [] ∨ ∃ file, files' !! idx' = Some file) →
     Q (Ret (files', idx') w')) →
  wp (V3.pickLoop env fuel files idx) w Q.
Proof.
  induction fuel as [|fuel IH]; intros files idx w Q Hidx Hfuel HQ.
  { destruct Hfuel; [lia | done]. }
  cbn [V3.pickLoop].
  destruct (files !! idx) as [file|] eqn:Efile;
    [| apply lookup_ge_None in Efile; lia].
  apply wp_bind. apply wp_isImage. intros b w1 Hq Hfs _. wp_simpl.
  assert (calm w w1) as Hc1 by by apply quiet_calm.
  assert (ticks w1 = ticks w) as Ht1 by apply Hq.
  assert (List.length (delete idx files) = List.length files - 1) as Hlen.
  { rewrite length_delete; [lia | by eexists]. }
  assert (∀ w2 i, calm w w2 → fs w2 ⊆ fs w → ticks w2 = ticks w →
            List.length (delete idx files) ≠ 0 →
            wp (V3.pickLoop env fuel (delete idx files)
                  (i `mod` List.length (delete idx files))) w2 Q) as Hrec.
  { intros w2 i Hc2 Hs2 Ht2 Hne.
    apply IH; [apply Nat.mod_upper_bound; lia | destruct Hfuel; [left; lia | by right] |].
    intros files' idx' w' Hc Hsub Ht Hres. unfold calm in *.
    apply HQ; try done; [intuition congruence | | congruence].
    etrans; [exact Hsub | done]. }
  assert (∀ w2, calm w w2 → fs w2 ⊆ fs w → ticks w2 = ticks w →
            List.length (delete idx files) = 0 →
            Q (Ret (delete idx files, idx) w2)) as Hstop.
  { intros w2 Hc2 Hs2 Ht2 E0. apply HQ; try done.
    left. by apply length_zero_iff_nil. }
  destruct b; cbn [negb andb].
  { wp_run. apply HQ; try done; [by rewrite Hfs | eauto]. }
  destruct (Nat.ltb_spec 0 (List.length files)) as [Hpos|]; [| lia].
  unfold calm in *.
  wp_run;
    first [apply Hstop | apply Hrec]; wsimpl; try done;
    try (by rewrite Hfs); try (intuition congruence).
  - rewrite <- Hfs. by eapply FS_remove_subseteq.
  - rewrite <- Hfs. by eapply FS_remove_subseteq.
Qed.

(** The loop cannot run out of a positive fuel that is at least the
    length of the listing, whatever the listing holds and whatever is
    drawn. *)
Lemma V3_pickLoop_terminates fuel files idx w :
  0 < fuel → List.length files <= fuel →
  V3.pickLoop env fuel files idx w ≠ OutOfFuel.
Proof.
  intros Hpos Hfuel.
  destruct (decide (idx < List.length files)) as [Hidx|Hidx].
  - apply (wp_pickLoop fuel files idx w (λ r, r ≠ OutOfFuel)); auto.
  - destruct fuel as [|fuel]; [lia |]. cbn [V3.pickLoop].
    rewrite (proj2 (lookup_ge_None files idx)); [done | lia].
Qed.

Lemma wp_serveLocal fuel host rw w (Q : result (ResponseWriter * bool) → Prop) :
  ((∀ files, FS.readDir (fs w) [CacheFolder (config w)] = Ok files →
      List.length files <= fuel) ∨ Q OutOfFuel) →
  (∀ w', calm w w' → fs w' ⊆ fs w → error_logged w' → Q (Ret (rw, false) w')) →
  (∀ name w', calm w w' → fs w' ⊆ fs w → ticks w' = S (ticks w) →
     image_name name →
     (∃ data, fs w !! [CacheFolder (config w); name] = Some (File data)
              ∧ data ≠ "") →
     Q (Ret (Fprintf rw ("http://" +:+ host +:+ "/" +:+ CacheFolder (config w)
                         +:+ "/" +:+ name), true) w')) →
  wp (V3.serveLocal env fuel host rw) w Q.
Proof.
  intros Hfuel Hno Hyes. unfold V3.serveLocal.
  apply wp_bind, wp_gets. wp_simpl. apply wp_bind. unfold ioutil_ReadDir.
  destruct (fault env SysReadDir _).
  { wp_run. apply Hno; wsimpl; [by repeat split | done |].
    eexists. cbn. by rewrite last_snoc. }
  apply wp_gets. wp_simpl.
  destruct (FS.readDir (fs w) _) as [files|e] eqn:Edir.
  2:{ wp_run. apply Hno; wsimpl; [by repeat split | done |].
      eexists. cbn. by rewrite last_snoc. }
  destruct (Nat.eqb_spec (List.length files) 0) as [E0|Hne].
  { wp_run. apply Hno; wsimpl; [by repeat split | done |].
    eexists. cbn. by rewrite last_snoc. }
  apply wp_bind, wp_Now. wp_simpl.
  apply wp_bind, wp_Intn_pos; [lia |]. wp_simpl.
  apply wp_bind, wp_pickLoop.
  { apply Nat.mod_upper_bound; lia. }
  { destruct Hfuel as [Hfuel|]; [left; by apply Hfuel | by right]. }
  intros files' idx' w1 Hc1 Hs1 Ht1 Hres. unfold calm in Hc1. wp_simpl. wsimpl.
  destruct Hc1 as (Hcfg & Hts & Hcf & Hrq).
  destruct (Nat.eqb_spec (List.length files') 0) as [E0|Hne'].
  { wp_run. apply Hno; wsimpl; [by repeat split | done |].
    eexists. cbn. by rewrite last_snoc. }
  destruct Hres as [->|[file Efile]]; [done |]. rewrite Efile. wp_simpl.
  apply wp_bind, wp_bind, wp_isImage. intros b w2 Hq2 Hfs2 Hb. wp_simpl.
  destruct Hq2 as (Hcfg2 & Hts2 & Hcf2 & Htk2 & Hdr2 & Hrq2 & l2 & Hl2).
  destruct b; wp_simpl.
  - destruct Hb as [Hname (data & Hdata & Hne2)]; [done |].
    apply wp_ret. wp_simpl. apply wp_bind, wp_println. wp_simpl.
    apply wp_ret. apply Hyes.
    + unfold calm. wsimpl. repeat split; congruence.
    + wsimpl. by rewrite Hfs2.
    + wsimpl. congruence.
    + done.
    + exists data. split; [| done]. rewrite Hcfg in Hdata.
      eapply lookup_weaken; [exact Hdata | exact Hs1].
  - wp_run. apply Hno.
    + unfold calm. wsimpl. repeat split; congruence.
    + wsimpl. by rewrite Hfs2.
    + eexists. cbn. by rewrite last_snoc.
Qed.

End v3.

(** ** The fetch of the third revision *)

Ltac wp_step :=
  lazymatch goal with
  | |- wp (bind _ _) _ _ => apply wp_bind
  | |- wp (ensureFolder _ _) _ _ =>
      apply wp_ensureFolder; [intros ? ? ? | intros ? ? ? ? ?]
  | |- wp (ioutil_WriteFile _ _ _) _ _ => apply wp_write; [intros ? | intros ? ?]
  | |- wp (os_Create _ _) _ _ => apply wp_create; [intros ? | intros ? ?]
  | |- wp (os_Remove _ _) _ _ => apply wp_remove; [intros ? | intros ? ?]
  | |- wp (ioutil_ReadFile _ _) _ _ => apply wp_readFile; [intros ? | intros ? ?]
  | |- wp (ioutil_ReadDir _ _) _ _ => apply wp_readDir; [intros ? | intros ? ?]
  | _ => wp_prim
  end.

Ltac wp_go := repeat (wp_step; wp_simpl).

Lemma error_logged_snoc w l what :
  logged w = l ++ [PrintError what] → error_logged w.
Proof. intros E. exists what. by rewrite E, last_snoc. Qed.

Lemma Fprintf_neq rw t : t ≠ "" → Fprintf rw t ≠ rw.
Proof.
  intros Ht E. apply (f_equal body) in E. cbn in E.
  apply (f_equal String.length) in E. rewrite StrFacts.length_app in E.
  destruct t; [done | cbn in E; lia].
Qed.

Ltac break :=
  repeat match goal with
         | H : _ ∧ _ |- _ => destruct H
         | H : ∃ _, _ |- _ => destruct H
         end.

Lemma remote_url_eq host cfg t :
  "http://" +:+ host +:+ "/"
    +:+ Str.to_slash (FS.join [CacheFolder cfg; FormatInt t +:+ ".jpg"])
  = remote_url host cfg t.
Proof.
  unfold remote_url, url_of.
  change (FS.join [CacheFolder cfg; FormatInt t +:+ ".jpg"])
    with (CacheFolder cfg +:+ "/" +:+ FormatInt t +:+ ".jpg").
  rewrite !to_slash_app, to_slash_FormatInt. done.
Qed.

Section v3_fetch.
Context (env : Env).

Lemma wp_enforceLimit cf w Q :
  (∀ w', quiet w w' → fs w' = fs w → error_logged w' → Q (Ret false w')) →
  (∀ w', limit_step env cf w w' → Q (Ret true w')) →
  wp (enforceLimit env cf) w Q.
Proof.
  intros HF HT. unfold enforceLimit. wp_go.
  - apply HF; [apply quiet_log | done | by eapply error_logged_snoc].
  - apply HT. unfold limit_step; wsimpl. repeat split; try done.
    right. repeat split; try done.
    + by apply negb_true_iff, Z.eqb_neq in Heqb.
    + eexists. split; [done |]. by apply Z.leb_le.
    + by right.
  - apply HT. unfold limit_step; wsimpl. repeat split; try done.
    right. repeat split; try done.
    + by apply negb_true_iff, Z.eqb_neq in Heqb.
    + eexists. split; [done |]. by apply Z.leb_le.
    + by left.
  - apply HT. unfold limit_step; wsimpl. repeat split; try done.
    left. repeat split; try done. right.
    eexists. split; [done |]. by apply Z.leb_gt.
  - apply HT. unfold limit_step; wsimpl. repeat split; try done.
    left. repeat split; try done. left.
    by apply negb_false_iff, Z.eqb_eq in Heqb.
Qed.

Ltac wp_step' :=
  lazymatch goal with
  | |- wp (enforceLimit _ _) _ _ =>
      apply wp_enforceLimit; [intros ? ? ? ? | intros ? ?]
  | _ => wp_step
  end.
Ltac wp_go' := repeat (wp_step'; wp_simpl).

Lemma V3_fetch_globals host rw w :
  wp (V3.retrieveRemote env host rw) w (λ r,
    match r with
    | Ret rw' w' =>
        timestamp w' = Unix (clock env (ticks w)) ∧ mode_step w w'
        ∧ (rw' = rw → error_logged w')
        ∧ (rw' = rw ∨ ∃ t, rw' = Fprintf rw (remote_url host (config w) t))
        ∧ (rw' ≠ rw → MaxCacheSize (config w) ≠ 0%Z →
           ∀ files, FS.readDir (fs w') [CacheFolder (config w)] = Ok files →
             (MaxCacheSize (config w) <= Z.of_nat (List.length files))%Z →
             config w' = set_Mode Local (config w)
             ∧ (configFile w' = Stored (config w')
                ∨ fault env SysWriteFile ["config.json"] = true))
    | Exit w' =>
        timestamp w' = Unix (clock env (ticks w)) ∧ config w' = config w
        ∧ last (logged w') = Some (PrintError "os.Mkdir")
    | Panic w' =>
        timestamp w' = Unix (clock env (ticks w)) ∧ config w' = config w
        ∧ default [] (Remotes (config w)) = []
    | OutOfFuel => False
    end).
Proof.
  unfold V3.retrieveRemote. wp_go'.
  all: unfold quiet, limit_step, mode_step in *; wsimpl; break.
  all: try match goal with
       | H : List.length ?l = 0 |- _ => apply length_zero_iff_nil in H
       | H : ?l !! (_ `mod` S ?n) = None, E : List.length ?l = S ?n |- _ =>
           apply lookup_ge_None in H;
           pose proof (Nat.mod_upper_bound (draw env (draws w)) (S n)); lia
       end.
  all: try (split_and!; try congruence; try (by left; congruence);
            try (by left);
            try (by intros _; eexists; wsimpl; apply last_snoc);
            try (by intros; exfalso; congruence);
            try (wsimpl; by rewrite last_snoc);
            try done).
  all: match goal with
       | H : (config _ = config _ ∧ _) ∨ _ |- _ =>
           destruct H as [(Hc & Hcf & Hl & Hlim)
                         |(Hc & Hmax & (files0 & Hrd & Hle) & Hst)]
       end.
  all: repeat match goal with
       | H : config ?a = config ?b |- _ => rewrite H in *; clear H
       | H : fs ?a = _ |- context [fs ?a] => rewrite H
       end.
  all: try (by left).
  all: try (by intros E; apply Fprintf_neq in E).
  all: try (right; eexists; by rewrite remote_url_eq).
  all: try (right; split_and!; [done.. |]; by exists files0).
  all: try (intros _ _ files _ _; done).
  intros _ Hmax files Hrd Hle. destruct Hlim as [|(files0 & Hrd0 & Hlt)];
    [done |]. assert (files0 = files) as -> by congruence. lia.
Qed.










Lemma HasPrefix_root cf : Str.HasPrefix "/" ("/" +:+ cf +:+ "/") = false.
Proof. by destruct cf. Qed.

Lemma fuel_ok_dec fuel w : fuel_ok fuel w ∨ ¬ fuel_ok fuel w.
Proof.
  unfold fuel_ok. destruct (FS.readDir (fs w) _) as [files|e].
  - destruct (decide (List.length files <= fuel)) as [Hle|Hgt].
    + left. by intros ? [= <-].
    + right. intros H. apply Hgt. by apply H.
  - left. by intros.
Qed.

Lemma wp_handle_root fuel r w (Q : result (ResponseWriter * bool) → Prop) :
  Method r = "GET" → Path r = "/" →
  (fuel_ok fuel w ∨ Q OutOfFuel) →
  (∀ name w', calm w w' → fs w' ⊆ fs w → image_name name →
     (CfgMode (config w) = Local
      ∨ (wrap64 (Unix (clock env (S (ticks w))) - timestamp w)
         < UpdateInterval (config w))%Z) →
     Q (Ret (localAnswer (Host r) (CacheFolder (config w)) name, false) w')) →
  (∀ name w', calm w w' → fs w' ⊆ fs w → image_name name →
     CfgMode (config w) ≠ Local →
     Q (Ret (localAnswer (Host r) (CacheFolder (config w)) name, true) w')) →
  (∀ w1, calm w w1 → fs w1 ⊆ fs w → error_logged w1 →
     wp (V3.retrieveRemote env (Host r) rootWriter) w1
        (λ res, Q (synchronous res))) →
  wp (V3.handleRequest env fuel r) w Q.
Proof.
  intros Hm Hp Hfuel Hfresh Hstale Hsync. unfold V3.handleRequest.
  rewrite Hm, Hp. cbn [String.eqb Ascii.eqb Bool.eqb negb].
  apply wp_bind, wp_gets. wp_simpl. rewrite HasPrefix_root.
  cbn [String.eqb Ascii.eqb Bool.eqb negb].
  apply wp_bind, wp_serveLocal.
  - destruct Hfuel as [Hf|Hf]; [left; exact Hf | right; exact Hf].
  - intros w1 Hc Hs He. wp_simpl. apply wp_bind, wp_ret. wp_simpl.
    apply wp_bind. eapply wp_mono; [by apply Hsync |].
    intros [rw' w'| | |]; cbn; done.
  - intros name w1 Hc Hs Ht Hname _. wp_simpl.
    destruct (Hc) as (Hcfg & Hts & _).
    apply wp_bind, wp_bind, wp_gets. wp_simpl. rewrite Hcfg.
    destruct (String.eqb_spec (CfgMode (config w)) Local) as [Hloc|Hloc].
    + wp_run. apply Hfresh; try done. by left.
    + apply wp_bind, wp_Now. wp_simpl. apply wp_bind, wp_gets. wp_simpl.
      apply wp_ret. wp_simpl. rewrite Ht, Hts.
      destruct (Z.ltb_spec (wrap64 (Unix (clock env (S (ticks w))) - timestamp w))
                  (UpdateInterval (config w))).
      * wp_run. apply Hfresh; try done. by right.
      * wp_run. apply Hstale; try done.
Qed.

End v3_fetch.

(** ** Requests to the third revision *)

Section v3_serve.
Context (env : Env).

Lemma body_localAnswer host cf name :
  body (localAnswer host cf name) = url_of host cf name.
Proof. done. Qed.

Lemma url_of_nonempty host cf name : url_of host cf name ≠ "".
Proof. unfold url_of. by rewrite StrFacts.app_cons. Qed.

Lemma mode_step_calm w w1 w' : calm w w1 → mode_step w1 w' → mode_step w w'.
Proof.
  intros (Hc & _) [H|H]; unfold mode_step; rewrite <- Hc; [by left | by right].
Qed.

(** What a request for the root path comes to. *)
Lemma V3_serve_root fuel r w :
  Method r = "GET" → Path r = "/" →
  match V3.serve env fuel r w with
  | Ret rw w' =>
      mode_step w w'
      ∧ (body rw = "" → error_logged w')
      ∧ (body rw ≠ "" → answer_shape (Host r) (CacheFolder (config w)) (body rw))
  | Exit w' =>
      mode_step w w'
      ∧ (last (logged w') = Some (PrintError "os.Mkdir")
         ∨ default [] (Remotes (config w)) = [])
  | Panic w' => config w' = config w ∧ default [] (Remotes (config w)) = []
  | OutOfFuel => ¬ fuel_ok fuel w
  end.
Proof.
  intros Hm Hp. unfold V3.serve. rewrite Hp.
  cbn [String.eqb Ascii.eqb Bool.eqb].
  pattern (V3.handleRequest env fuel r w).
  match goal with |- ?Q ?x =>
    change (wp (V3.handleRequest env fuel r) w Q) end.
  apply wp_handle_root; try done.
  - destruct (fuel_ok_dec fuel w); [by left | by right].
  - intros name w' Hc Hs Hname _. split_and!.
    + left. apply Hc.
    + rewrite body_localAnswer. intros E. by apply url_of_nonempty in E.
    + intros _. exists name. split; [done |]. by left.
  - intros name w' Hc Hs Hname _.
    pose proof (V3_fetch_globals env (Host r)
      (localAnswer (Host r) (CacheFolder (config w)) name) w') as Hf.
    unfold wp in Hf.
    destruct (V3.retrieveRemote _ _ _ w') as [rw' w''|w''|w''|]; [| | | done].
    + destruct Hf as (_ & Hmode & _). split_and!.
      * by eapply mode_step_calm.
      * rewrite body_localAnswer. intros E. by apply url_of_nonempty in E.
      * intros _. exists name. split; [done |]. by left.
    + destruct Hf as (_ & Hcfg & Hlast). split; [| by left].
      left. destruct Hc as (Hc & _). congruence.
    + destruct Hf as (_ & Hcfg & Hrem). destruct Hc as (Hc & _).
      split; [left; congruence |]. right. by rewrite <- Hc.
  - intros w1 Hc Hs He.
    eapply wp_mono; [apply V3_fetch_globals |].
    intros [rw' w'|w'|w'|]; cbn; [| | | done].
    + intros (_ & Hmode & Herr & Hshape & _). split_and!.
      * by eapply mode_step_calm.
      * intros Hb. apply Herr. destruct Hshape as [->|[t ->]]; [done |].
        cbn in Hb. by apply url_of_nonempty in Hb.
      * intros Hb. destruct Hshape as [->|[t ->]]; [done |].
        exists (FormatInt t +:+ ".jpg"). split; [apply image_name_FormatInt |].
        right. destruct Hc as (Hc & _). by rewrite <- Hc.
    + intros (_ & Hcfg & Hlast). split; [| by left].
      left. destruct Hc as (Hc & _). congruence.
    + intros (_ & Hcfg & Hrem). destruct Hc as (Hc & _).
      split; [congruence | by rewrite <- Hc].
Qed.

End v3_serve.

(** ** Requests below the cache folder, and the answer from the cache *)

(** An address with two slashes is not one with a single slash. *)
Lemma two_slashes_neq cf x s :
  Str.Forall (λ c, c ≠ "/"%char) s → "/" +:+ cf +:+ "/" +:+ x ≠ "/" +:+ s.
Proof.
  intros Hs E. rewrite !StrFacts.app_cons, !StrFacts.app_nil_l in E.
  injection E as E. rewrite <- E in Hs.
  apply Forall_app in Hs as [_ Hs]. by destruct Hs as [Hs _].
Qed.

Lemma eqb_two_slashes cf x s :
  Str.Forall (λ c, c ≠ "/"%char) s →
  String.eqb ("/" +:+ cf +:+ "/" +:+ x) ("/" +:+ s) = false.
Proof.
  intros Hs. apply String.eqb_neq. by apply two_slashes_neq.
Qed.




Section v3_paths.
Context (env : Env).


(** Away from the root path the handler leaves the world as it is. *)
Lemma V3_handle_elsewhere fuel r w :
  Method r ≠ "GET" ∨ Path r ≠ "/" →
  ∃ rw, V3.handleRequest env fuel r w = Ret (rw, false) w.
Proof.
  intros Hr. unfold V3.handleRequest.
  destruct (String.eqb_spec (Method r) "GET") as [Hm|Hm]; cbn [negb];
    [| by eexists].
  destruct (String.eqb (Path r) "/favicon.ico"); [by eexists |].
  unfold bind at 1, gets at 1.
  destruct (Str.HasPrefix _ _).
  - destruct (String.eqb (getImgExtension (Path r)) ""); [by eexists |].
    unfold bind at 1, os_Stat at 1, gets at 1.
    destruct (FS.stat _ _); [| by eexists].
    unfold bind, http_ServeFile.
    destruct (containsDotDot _); [by eexists |].
    unfold bind, os_Open. destruct (fault _ _ _); [by eexists |].
    unfold gets. destruct (FS.stat _ _) as [[]|]; by eexists.
  - destruct (String.eqb_spec (Path r) "/") as [Hp|Hp]; cbn [negb];
      [| by eexists].
    by destruct Hr.
Qed.

Lemma V3_serve_elsewhere fuel r w :
  Path r ≠ "/reload" → Method r ≠ "GET" ∨ Path r ≠ "/" →
  ∃ rw, V3.serve env fuel r w = Ret rw w.
Proof.
  intros Hre Hr. unfold V3.serve.
  destruct (String.eqb_spec (Path r) "/reload"); [done |].
  destruct (V3_handle_elsewhere fuel r w Hr) as [rw ->]. by eexists.
Qed.

(** Whatever the request, short of a reload, the mode moves to local under
    the limit or not at all. *)
Lemma V3_serve_mode_step fuel r w w' :
  Path r ≠ "/reload" → final (V3.serve env fuel r w) = Some w' →
  mode_step w w'.
Proof.
  intros Hre Hfin.
  destruct (decide (Method r = "GET")) as [Hm|Hm];
    [destruct (decide (Path r = "/")) as [Hp|Hp] |].
  - pose proof (V3_serve_root env fuel r w Hm Hp) as H.
    destruct (V3.serve env fuel r w) as [rw w1|w1|w1|]; cbn in Hfin;
      simplify_eq; [apply H | apply H | left; apply H].
  - destruct (V3_serve_elsewhere fuel r w Hre) as [rw E]; [by right |].
    rewrite E in Hfin. cbn in Hfin. simplify_eq. by left.
  - destruct (V3_serve_elsewhere fuel r w Hre) as [rw E]; [by left |].
    rewrite E in Hfin. cbn in Hfin. simplify_eq. by left.
Qed.

(** A local answer that is fresh is the whole of the request. *)
Lemma V3_handle_fresh fuel r w rw w1 :
  Method r = "GET" → Path r = "/" →
  V3.serveLocal env fuel (Host r) rootWriter w = Ret (rw, true) w1 →
  (CfgMode (config w1) = Local
   ∨ (wrap64 (Unix (clock env (ticks w1)) - timestamp w1)
      < UpdateInterval (config w1))%Z) →
  ∃ w2, V3.handleRequest env fuel r w = Ret (rw, false) w2
    ∧ V3.serve env fuel r w = Ret rw w2
    ∧ (w2 = w1 ∨ w2 = set_ticks (S (ticks w1)) w1).
Proof.
  intros Hm Hp Hs Hfresh.
  assert (∃ w2, V3.handleRequest env fuel r w = Ret (rw, false) w2
            ∧ (w2 = w1 ∨ w2 = set_ticks (S (ticks w1)) w1)) as (w2 & E & Hw).
  { unfold V3.handleRequest. rewrite Hm, Hp.
    cbn [String.eqb Ascii.eqb Bool.eqb negb].
    unfold bind at 1, gets at 1. rewrite HasPrefix_root.
    fold rootWriter. unfold bind at 1. rewrite Hs.
    unfold bind at 1, gets at 1, bind at 1.
    destruct (String.eqb_spec (CfgMode (config w1)) Local) as [Hl|Hl].
    - exists w1. split; [done | by left].
    - destruct Hfresh as [Hfresh|Hfresh]; [done |].
      unfold bind, Now, gets, ret. cbn.
      apply Z.ltb_lt in Hfresh. rewrite Hfresh.
      eexists. split; [done | by right]. }
  exists w2. split; [done |]. split; [| done].
  unfold V3.serve. rewrite Hp. cbn [String.eqb Ascii.eqb Bool.eqb].
  by rewrite E.
Qed.

(** What the attempt to serve from the cache answers with. *)
Lemma V3_serveLocal_served fuel host rw rw' w w1 :
  V3.serveLocal env fuel host rw w = Ret (rw', true) w1 →
  calm w w1
  ∧ ∃ name, image_name name
      ∧ rw' = Fprintf rw (url_of host (CacheFolder (config w)) name)
      ∧ ∃ data, fs w !! [CacheFolder (config w); name] = Some (File data)
                ∧ data ≠ "".
Proof.
  intros E.
  pose proof (wp_serveLocal env fuel host rw w (λ res,
    res = Ret (rw', true) w1 →
    calm w w1
    ∧ ∃ name, image_name name
        ∧ rw' = Fprintf rw (url_of host (CacheFolder (config w)) name)
        ∧ ∃ data, fs w !! [CacheFolder (config w); name] = Some (File data)
                  ∧ data ≠ "")) as H.
  unfold wp in H. apply H; [by right | | | done].
  - intros w' _ _ _ [=].
  - intros name w' Hc _ _ Hname Hdata [= <- <-].
    split; [done |]. by exists name.
Qed.

End v3_paths.

(** An answer of the shape of [answer_shape] has the shape of the
    specification, for the folder as it is written into the answer. *)
Lemma answer_shape_spec host cf b :
  answer_shape host cf b →
  ∃ cf', (cf' = cf ∨ cf' = Str.to_slash cf) ∧ spec_shape host cf' b.
Proof.
  intros (name & (pre & d & e & -> & _ & He) & Hb).
  assert (pre +:+ String d ("." +:+ e) = (pre +:+ String d "") +:+ "." +:+ e)
    as Hname.
  { by rewrite StrFacts.app_assoc, StrFacts.app_cons, StrFacts.app_nil_l. }
  destruct Hb as [->| ->];
    [exists cf; split; [by left |] | exists (Str.to_slash cf); split; [by right |]];
    exists (pre +:+ String d ""), e; by rewrite Hname.
Qed.

(** ** The loop of the first two revisions *)

Section early_loops.
Context (env : Env).

Lemma draw_lookup (files : list DirEntry) (n : nat) :
  files ≠ [] → ∃ e, files !! (n `mod` List.length files) = Some e ∧ e ∈ files.
Proof.
  intros Hne.
  assert (n `mod` List.length files < List.length files) as Hlt.
  { apply Nat.mod_upper_bound. by destruct files. }
  apply lookup_lt_is_Some in Hlt as [e He].
  exists e. split; [done |]. by eapply list_elem_of_lookup_2.
Qed.

Lemma os_Remove_returns p w : ∃ err w', os_Remove env p w = Ret err w'.
Proof.
  unfold os_Remove, update_fs, ret. destruct (fault _ _ _); [by eauto |].
  destruct (FS.remove _ _); by eauto.
Qed.

(** The draw of the next entry. *)
Lemma wp_redraw {A} (files : list DirEntry) (k : DirEntry → M A) w Q :
  files ≠ [] →
  (∀ e, e ∈ files → wp (k e) (set_draws (S (draws w)) w) Q) →
  wp (let* i := Intn env (List.length files) in
      match files !! i with
      | None => panic
      | Some file => k file
      end) w Q.
Proof.
  intros Hne Hk. apply wp_bind.
  destruct (draw_lookup files (draw env (draws w)) Hne) as (e & He & Hin).
  unfold wp at 1, Intn. destruct (List.length files) eqn:El.
  { by destruct files. }
  unfold wp_cont. rewrite He. by apply Hk.
Qed.

(** With no image in the listing, the loop of the second revision uses up
    whatever fuel it is given. *)
Lemma V2_pickLoop_spins files fuel : ∀ file w,
  files ≠ [] → (∀ e, e ∈ files → V2.isImage (Name e) = false) →
  file ∈ files →
  V2.pickLoop env fuel files file w = OutOfFuel.
Proof.
  induction fuel as [|fuel IH]; intros file w Hne Hall Hin; [done |].
  change (wp (V2.pickLoop env (S fuel) files file) w (λ r, r = OutOfFuel)).
  cbn [V2.pickLoop]. rewrite (Hall file Hin). cbn [negb].
  apply wp_bind, wp_gets. unfold wp_cont. apply wp_bind.
  destruct (os_Remove_returns [CacheFolder (config w); Name file] w)
    as (err & w1 & E).
  unfold wp at 1. rewrite E. unfold wp_cont. apply wp_bind.
  assert (∃ w2, (match err with
                 | Some _ => printError "os.Remove"
                 | None => ret tt
                 end) w1 = Ret tt w2) as [w2 E2] by (destruct err; by eauto).
  unfold wp at 1. rewrite E2. unfold wp_cont.
  apply wp_redraw; [done |]. intros e He. by apply IH.
Qed.

(** The same for the loop of the first revision. *)
Lemma V1_pickLoop_spins files fuel : ∀ file w,
  files ≠ [] → (∀ e, e ∈ files → V1.isImage (Name e) = false) →
  file ∈ files →
  V1.pickLoop env fuel files file w = OutOfFuel.
Proof.
  induction fuel as [|fuel IH]; intros file w Hne Hall Hin; [done |].
  change (wp (V1.pickLoop env (S fuel) files file) w (λ r, r = OutOfFuel)).
  cbn [V1.pickLoop]. rewrite (Hall file Hin). cbn [negb].
  apply wp_bind, wp_gets. unfold wp_cont. apply wp_bind.
  destruct (os_Remove_returns [CacheFolder (config w); Name file] w)
    as (err & w1 & E).
  unfold wp at 1. rewrite E. unfold wp_cont.
  apply wp_redraw; [done |]. intros e He. by apply IH.
Qed.

(** So does the attempt to serve from the cache, and the request. *)
Lemma V2_serveLocal_spins fuel host rw w files :
  fault env SysReadDir [CacheFolder (config w)] = false →
  FS.readDir (fs w) [CacheFolder (config w)] = Ok files →
  files ≠ [] → (∀ e, e ∈ files → V2.isImage (Name e) = false) →
  V2.serveLocal env fuel host rw w = OutOfFuel.
Proof.
  intros Hf Hdir Hne Hall.
  change (wp (V2.serveLocal env fuel host rw) w (λ r, r = OutOfFuel)).
  unfold V2.serveLocal. apply wp_bind, wp_gets. unfold wp_cont.
  apply wp_bind. unfold ioutil_ReadDir. rewrite Hf. apply wp_gets.
  unfold wp_cont. rewrite Hdir.
  destruct (Nat.eqb_spec (List.length files) 0) as [E|_].
  { by destruct files. }
  apply wp_bind, wp_Now. unfold wp_cont.
  apply wp_redraw; [done |]. intros e He.
  apply wp_bind. unfold wp at 1. by rewrite V2_pickLoop_spins.
Qed.

Lemma V1_serveLocal_spins fuel host rw w files :
  fault env SysReadDir [CacheFolder (config w)] = false →
  FS.readDir (fs w) [CacheFolder (config w)] = Ok files →
  files ≠ [] → (∀ e, e ∈ files → V1.isImage (Name e) = false) →
  V1.serveLocal env fuel host rw w = OutOfFuel.
Proof.
  intros Hf Hdir Hne Hall.
  change (wp (V1.serveLocal env fuel host rw) w (λ r, r = OutOfFuel)).
  unfold V1.serveLocal. apply wp_bind, wp_gets. unfold wp_cont.
  apply wp_bind. unfold ioutil_ReadDir. rewrite Hf. apply wp_gets.
  unfold wp_cont. rewrite Hdir.
  destruct (Nat.eqb_spec (List.length files) 0) as [E|_].
  { by destruct files. }
  apply wp_bind, wp_Now. unfold wp_cont.
  apply wp_redraw; [done |]. intros e He.
  apply wp_bind. unfold wp at 1. by rewrite V1_pickLoop_spins.
Qed.

Lemma V2_serve_spins fuel r w files :
  Method r = "GET" → Path r = "/" →
  fault env SysReadDir [CacheFolder (config w)] = false →
  FS.readDir (fs w) [CacheFolder (config w)] = Ok files →
  files ≠ [] → (∀ e, e ∈ files → V2.isImage (Name e) = false) →
  V2.serve env fuel r w = OutOfFuel.
Proof.
  intros Hm Hp Hf Hdir Hne Hall.
  unfold V2.serve. rewrite Hp. cbn [String.eqb Ascii.eqb Bool.eqb].
  unfold V2.handleRequest. rewrite Hm, Hp.
  cbn [String.eqb Ascii.eqb Bool.eqb negb].
  unfold bind at 1, gets at 1. rewrite HasPrefix_root.
  unfold bind at 1.
  by rewrite (V2_serveLocal_spins fuel (Host r) _ w files Hf Hdir Hne Hall).
Qed.

Lemma V1_serve_spins fuel r w files :
  Method r = "GET" → Path r = "/" → CfgMode (config w) = Local →
  fault env SysReadDir [CacheFolder (config w)] = false →
  FS.readDir (fs w) [CacheFolder (config w)] = Ok files →
  files ≠ [] → (∀ e, e ∈ files → V1.isImage (Name e) = false) →
  V1.serve env fuel r w = OutOfFuel.
Proof.
  intros Hm Hp Hl Hf Hdir Hne Hall.
  unfold V1.serve. rewrite Hp. cbn [String.eqb Ascii.eqb Bool.eqb].
  unfold V1.handleRequest. rewrite Hm, Hp.
  cbn [String.eqb Ascii.eqb Bool.eqb negb].
  unfold bind at 1, gets at 1. rewrite HasPrefix_root.
  unfold bind at 1, gets at 1. rewrite Hl.
  cbn [String.eqb Ascii.eqb Bool.eqb Local].
  unfold bind at 1, ret at 1. unfold bind at 1.
  by erewrite V1_serveLocal_spins.
Qed.

End early_loops.


(** ** The fetch of the second revision *)

Section v2_fetch.
Context (env : Env).

Ltac wp_step2 :=
  lazymatch goal with
  | |- wp (enforceLimit _ _) _ _ =>
      apply wp_enforceLimit; [intros ? ? ? ? | intros ? ?]
  | _ => wp_step
  end.
Ltac wp_go2 := repeat (wp_step2; wp_simpl).

(** The mode and the time of the last update over a fetch of the second
    revision: the time is set once the temporary file is removed. *)
Lemma V2_fetch_globals host rw w :
  wp (V2.retrieveRemote env host rw) w (λ r,
    match r with
    | Ret rw' w' =>
        mode_step w w'
        ∧ (rw' = rw → error_logged w')
        ∧ (timestamp w' = timestamp w
           ∨ timestamp w' = Unix (clock env (S (S (ticks w)))))
        ∧ (rw' ≠ rw → timestamp w' = Unix (clock env (S (S (ticks w)))))
        ∧ (rw' ≠ rw → MaxCacheSize (config w) ≠ 0%Z →
           ∀ files, FS.readDir (fs w') [CacheFolder (config w)] = Ok files →
             (MaxCacheSize (config w) <= Z.of_nat (List.length files))%Z →
             config w' = set_Mode Local (config w)
             ∧ (configFile w' = Stored (config w')
                ∨ fault env SysWriteFile ["config.json"] = true))
    | Exit w' =>
        timestamp w' = timestamp w ∧ config w' = config w
        ∧ last (logged w') = Some (PrintError "os.Mkdir")
    | Panic w' =>
        timestamp w' = timestamp w ∧ config w' = config w
        ∧ default [] (Remotes (config w)) = []
    | OutOfFuel => False
    end).
Proof.
  unfold V2.retrieveRemote. wp_go2.
  all: unfold quiet, limit_step, mode_step in *; wsimpl; break.
  all: try match goal with
       | H : List.length ?l = 0 |- _ => apply length_zero_iff_nil in H
       | H : ?l !! (_ `mod` S ?n) = None, E : List.length ?l = S ?n |- _ =>
           apply lookup_ge_None in H;
           pose proof (Nat.mod_upper_bound (draw env (draws w)) (S n)); lia
       end.
  all: try (split_and!; try congruence; try (by left; congruence);
            try (by left); try (by right; congruence);
            try (by intros _; eexists; wsimpl; apply last_snoc);
            try (by intros; exfalso; congruence);
            try (wsimpl; by rewrite last_snoc);
            try done).
  all: match goal with
       | H : (config _ = config _ ∧ _) ∨ _ |- _ =>
           destruct H as [(Hc & Hcf & Hl & Hlim)
                         |(Hc & Hmax & (files0 & Hrd & Hle) & Hst)]
       end.
  all: repeat match goal with
       | H : config ?a = config ?b |- _ => rewrite H in *; clear H
       | H : fs ?a = _ |- context [fs ?a] => rewrite H
       end.
  all: try (by left).
  all: try (by intros E; apply Fprintf_neq in E).
  all: try (right; split_and!; [done.. |]; by exists files0).
  all: try (intros _ _ files _ _; done).
  intros _ Hmax files Hrd Hle. destruct Hlim as [|(files0 & Hrd0 & Hlt)];
    [done |]. assert (files0 = files) as -> by congruence. lia.
Qed.

End v2_fetch.

(** ** The fetch of the first revision *)

Section v1_fetch.
Context (env : Env).

(** The time of the last update over a fetch of the first revision: it is
    set at the very end, and in nanoseconds. *)
Lemma V1_fetch_globals host rw w :
  wp (V1.fetchRemote env host rw) w (λ r,
    match r with
    | Ret rw' w' =>
        config w' = config w
        ∧ (rw' = rw → error_logged w' ∧ timestamp w' = timestamp w)
        ∧ (rw' ≠ rw → timestamp w' = UnixNano (clock env (ticks w)))
    | Exit w' =>
        timestamp w' = timestamp w ∧ config w' = config w
        ∧ last (logged w') = Some (PrintError "os.Mkdir")
    | Panic w' =>
        timestamp w' = timestamp w ∧ config w' = config w
        ∧ default [] (Remotes (config w)) = []
    | OutOfFuel => False
    end).
Proof.
  unfold V1.fetchRemote. wp_go.
  all: unfold quiet in *; wsimpl; break.
  all: try match goal with
       | H : List.length ?l = 0 |- _ => apply length_zero_iff_nil in H
       | H : ?l !! (_ `mod` S ?n) = None, E : List.length ?l = S ?n |- _ =>
           apply lookup_ge_None in H;
           pose proof (Nat.mod_upper_bound (draw env (draws w)) (S n)); lia
       end.
  all: try (split_and!; try congruence;
            try (by intros _; split; [eexists; wsimpl; apply last_snoc | congruence]);
            try (by intros; exfalso; congruence);
            try (wsimpl; by rewrite last_snoc);
            try done).
  intros E. by apply Fprintf_neq in E.
Qed.

End v1_fetch.

(** ** Requests to the second revision *)

Section v2_serve.
Context (env : Env).

Lemma calm_set_fs w m : calm w (set_fs m w).
Proof. by repeat split. Qed.

Lemma calm_log w l : calm w (set_logged l w).
Proof. by repeat split. Qed.

Lemma calm_draws w n : calm w (set_draws n w).
Proof. by repeat split. Qed.


(** The loop of the second revision touches neither the globals nor the
    network, whether it ends or not. *)
Lemma wp_V2_pickLoop files fuel : ∀ file w (Q : result DirEntry → Prop),
  (∀ f w', calm w w' → Q (Ret f w')) →
  (∀ w', calm w w' → Q (Panic w')) →
  Q OutOfFuel →
  wp (V2.pickLoop env fuel files file) w Q.
Proof.
  induction fuel as [|fuel IH]; intros file w Q HR HP HO; cbn [V2.pickLoop].
  { by apply wp_out. }
  destruct (negb (V2.isImage (Name file))).
  2:{ apply wp_ret, HR, calm_refl. }
  apply wp_bind, wp_gets. wp_simpl. apply wp_bind.
  assert (∀ w1, calm w w1 →
    wp (let* i := Intn env (List.length files) in
        match files !! i with
        | Some file0 => V2.pickLoop env fuel files file0
        | None => panic
        end) w1 Q) as Hrest.
  { intros w1 Hc. apply wp_bind, wp_Intn.
    destruct (List.length files); [by apply HP |]. wp_simpl.
    destruct (files !! _).
    - apply IH; [intros f w' Hc' | intros w' Hc' | done];
        [apply HR | apply HP]; (eapply calm_trans; [exact Hc |]);
        (eapply calm_trans; [apply calm_draws | exact Hc']).
    - apply wp_panic, HP. eapply calm_trans; [exact Hc | apply calm_draws]. }
  apply wp_remove.
  - intros e. wp_simpl. apply wp_bind, wp_printError. wp_simpl.
    apply Hrest, calm_log.
  - intros n Hn. wp_simpl. apply wp_bind, wp_ret. wp_simpl.
    apply Hrest, calm_set_fs.
Qed.

Lemma wp_V2_serveLocal fuel host rw w
    (Q : result (ResponseWriter * bool) → Prop) :
  (∀ a w', calm w w' → Q (Ret a w')) →
  (∀ w', calm w w' → Q (Panic w')) →
  Q OutOfFuel →
  wp (V2.serveLocal env fuel host rw) w Q.
Proof.
  intros HR HP HO. unfold V2.serveLocal.
  apply wp_bind, wp_gets. wp_simpl. apply wp_bind, wp_readDir.
  { intros e. wp_run. apply HR, calm_log. }
  intros files Hdir. wp_simpl.
  destruct (Nat.eqb_spec (List.length files) 0).
  { wp_run. apply HR, calm_log. }
  apply wp_bind, wp_Now. wp_simpl. apply wp_bind, wp_Intn_pos; [lia |].
  wp_simpl. destruct (files !! _).
  2:{ apply wp_panic, HP. by repeat split. }
  apply wp_bind, wp_V2_pickLoop; [| | done].
  - intros f w' Hc. wp_simpl.
    assert (calm w w') as Hc'.
    { eapply calm_trans; [| exact Hc]. by repeat split. }
    destruct (negb (V2.isImage (Name f))); wp_run; apply HR;
      (eapply calm_trans; [exact Hc' | apply calm_log]).
  - intros w' Hc. apply HP. eapply calm_trans; [| exact Hc]. by repeat split.
Qed.





Lemma V2_serveLocal_calm fuel host rw w a w1 :
  V2.serveLocal env fuel host rw w = Ret a w1 → calm w w1.
Proof.
  intros E.
  pose proof (wp_V2_serveLocal fuel host rw w
                (λ res, res = Ret a w1 → calm w w1)) as H.
  unfold wp in H. apply H; [| done | done | done].
  by intros a' w' Hc [= <- <-].
Qed.

(** The second revision answers a fresh local image like the third. *)
Lemma V2_handle_fresh fuel r w rw w1 :
  Method r = "GET" → Path r = "/" →
  V2.serveLocal env fuel (Host r) rootWriter w = Ret (rw, true) w1 →
  (CfgMode (config w1) = Local
   ∨ (wrap64 (Unix (clock env (ticks w1)) - timestamp w1)
      < UpdateInterval (config w1))%Z) →
  ∃ w2, V2.serve env fuel r w = Ret rw w2
    ∧ (w2 = w1 ∨ w2 = set_ticks (S (ticks w1)) w1)
    ∧ requested w2 = requested w.
Proof.
  intros Hm Hp Hs Hfresh.
  assert (∃ w2, V2.handleRequest env fuel r w = Ret (rw, false) w2
            ∧ (w2 = w1 ∨ w2 = set_ticks (S (ticks w1)) w1)) as (w2 & E & Hw).
  { unfold V2.handleRequest. rewrite Hm, Hp.
    cbn [String.eqb Ascii.eqb Bool.eqb negb].
    unfold bind at 1, gets at 1. rewrite HasPrefix_root.
    fold rootWriter. unfold bind at 1. rewrite Hs.
    unfold bind at 1, gets at 1, bind at 1.
    destruct (String.eqb_spec (CfgMode (config w1)) Local) as [Hl|Hl].
    - exists w1. split; [done | by left].
    - destruct Hfresh as [Hfresh|Hfresh]; [done |].
      unfold bind, Now, gets, ret. cbn.
      apply Z.ltb_lt in Hfresh. rewrite Hfresh.
      eexists. split; [done | by right]. }
  exists w2. split; [| split; [done |]].
  - unfold V2.serve. rewrite Hp. cbn [String.eqb Ascii.eqb Bool.eqb].
    by rewrite E.
  - apply V2_serveLocal_calm in Hs as (_ & _ & _ & Hreq).
    by destruct Hw as [->| ->].
Qed.

End v2_serve.

(** ** Requests to the first revision *)

Section v1_serve.
Context (env : Env).

(** The loop of the first revision touches neither the globals nor the
    network, whether it ends or not. *)
Lemma wp_V1_pickLoop files fuel : ∀ file w (Q : result DirEntry → Prop),
  (∀ f w', calm w w' → Q (Ret f w')) →
  (∀ w', calm w w' → Q (Panic w')) →
  Q OutOfFuel →
  wp (V1.pickLoop env fuel files file) w Q.
Proof.
  induction fuel as [|fuel IH]; intros file w Q HR HP HO; cbn [V1.pickLoop].
  { by apply wp_out. }
  destruct (negb (V1.isImage (Name file))).
  2:{ apply wp_ret, HR, calm_refl. }
  apply wp_bind, wp_gets. wp_simpl. apply wp_bind.
  assert (∀ w1, calm w w1 →
    wp (let* i := Intn env (List.length files) in
        match files !! i with
        | Some file0 => V1.pickLoop env fuel files file0
        | None => panic
        end) w1 Q) as Hrest.
  { intros w1 Hc. apply wp_bind, wp_Intn.
    destruct (List.length files); [by apply HP |]. wp_simpl.
    destruct (files !! _).
    - apply IH; [intros f w' Hc' | intros w' Hc' | done];
        [apply HR | apply HP]; (eapply calm_trans; [exact Hc |]);
        (eapply calm_trans; [apply calm_draws | exact Hc']).
    - apply wp_panic, HP. eapply calm_trans; [exact Hc | apply calm_draws]. }
  apply wp_remove.
  - intros e. wp_simpl. apply Hrest, calm_refl.
  - intros n Hn. wp_simpl. apply Hrest, calm_set_fs.
Qed.

Lemma wp_V1_serveLocal fuel host rw w
    (Q : result (ResponseWriter * bool) → Prop) :
  (∀ a w', calm w w' → Q (Ret a w')) →
  (∀ w', calm w w' → Q (Panic w')) →
  Q OutOfFuel →
  wp (V1.serveLocal env fuel host rw) w Q.
Proof.
  intros HR HP HO. unfold V1.serveLocal.
  apply wp_bind, wp_gets. wp_simpl. apply wp_bind, wp_readDir.
  { intros e. wp_run. apply HR, calm_log. }
  intros files Hdir. wp_simpl.
  destruct (Nat.eqb_spec (List.length files) 0).
  { wp_run. apply HR, calm_log. }
  apply wp_bind, wp_Now. wp_simpl. apply wp_bind, wp_Intn_pos; [lia |].
  wp_simpl. destruct (files !! _).
  2:{ apply wp_panic, HP. by repeat split. }
  apply wp_bind, wp_V1_pickLoop; [| | done].
  - intros f w' Hc. wp_simpl.
    assert (calm w w') as Hc'.
    { eapply calm_trans; [| exact Hc]. by repeat split. }
    destruct (negb (V1.isImage (Name f))); wp_run; apply HR;
      (eapply calm_trans; [exact Hc' | apply calm_log]).
  - intros w' Hc. apply HP. eapply calm_trans; [| exact Hc]. by repeat split.
Qed.

Lemma V1_serveLocal_calm fuel host rw w a w1 :
  V1.serveLocal env fuel host rw w = Ret a w1 → calm w w1.
Proof.
  intros E.
  pose proof (wp_V1_serveLocal fuel host rw w
                (λ res, res = Ret a w1 → calm w w1)) as H.
  unfold wp in H. apply H; [| done | done | done].
  by intros a' w' Hc [= <- <-].
Qed.

(** The first revision decides on the freshness first, tries the cache
    only then, and returns from there when an image was found. *)
Lemma V1_handle_fresh fuel r w rw w1 :
  Method r = "GET" → Path r = "/" →
  let w0 := if String.eqb (CfgMode (config w)) Local then w
            else set_ticks (S (ticks w)) w in
  (CfgMode (config w) = Local
   ∨ (wrap64 (Unix (clock env (ticks w)) - timestamp w)
      < UpdateInterval (config w))%Z) →
  V1.serveLocal env fuel (Host r) emptyResponse w0 = Ret (rw, true) w1 →
  V1.serve env fuel r w = Ret rw w1 ∧ requested w1 = requested w.
Proof.
  intros Hm Hp w0 Hfresh Hs. split.
  - unfold V1.serve. rewrite Hp. cbn [String.eqb Ascii.eqb Bool.eqb].
    unfold V1.handleRequest. rewrite Hm, Hp.
    cbn [String.eqb Ascii.eqb Bool.eqb negb].
    unfold bind at 1, gets at 1. rewrite HasPrefix_root.
    unfold bind at 1, gets at 1. unfold bind at 1. subst w0.
    destruct (String.eqb_spec (CfgMode (config w)) Local) as [Hl|Hl].
    + unfold ret at 1. unfold bind at 1. by rewrite Hs.
    + destruct Hfresh as [Hfresh|Hfresh]; [done |].
      unfold bind at 1, Now at 1. unfold bind at 1, gets at 1. unfold ret at 1.
      cbn [timestamp config set_ticks].
      apply Z.ltb_lt in Hfresh. rewrite Hfresh.
      unfold bind at 1. by rewrite Hs.
  - apply V1_serveLocal_calm in Hs as (_ & _ & _ & Hreq).
    rewrite Hreq. subst w0. by destruct (String.eqb _ _).
Qed.

End v1_serve.

(** * The claims *)

Import Scenario.

(** ** The fresh local answer *)

(** C1: for a GET of the root path, when the attempt to serve from the
    cache has picked an image and the mode is local or the last update is
    less than the update interval old, the handler returns with the answer
    of that attempt, the address of an image of the cache folder; it starts
    no fetch, neither at once nor in the background, and nothing is
    requested from a remote. *)
Theorem C1_fresh_local_answer env fuel r w rw w1 :
  Method r = "GET" → Path r = "/" →
  V3.serveLocal env fuel (Host r) rootWriter w = Ret (rw, true) w1 →
  (CfgMode (config w1) = Local
   ∨ (wrap64 (Unix (clock env (ticks w1)) - timestamp w1)
      < UpdateInterval (config w1))%Z) →
  ∃ w2 name,
    V3.handleRequest env fuel r w = Ret (rw, false) w2
    ∧ V3.serve env fuel r w = Ret rw w2
    ∧ requested w2 = requested w
    ∧ image_name name
    ∧ body rw = url_of (Host r) (CacheFolder (config w)) name.
Proof.
  intros Hm Hp Hs Hfresh.
  destruct (V3_handle_fresh env fuel r w rw w1 Hm Hp Hs Hfresh)
    as (w2 & Hh & Hserve & Hw2).
  destruct (V3_serveLocal_served env fuel _ _ _ _ _ Hs)
    as ((_ & _ & _ & Hreq) & name & Hname & -> & _).
  exists w2, name. split_and!; try done.
  by destruct Hw2 as [->| ->].
Qed.

Lemma C1_fresh_local_answer_witness :
  ∃ w2, V3.serve env_ok 1 (get "/") w_local_image
        = Ret (localAnswer "h" "cache" "b.jpg") w2
    ∧ requested w2 = requested w_local_image.
Proof.
  assert (∃ w1, V3.serveLocal env_ok 1 "h" rootWriter w_local_image
                = Ret (localAnswer "h" "cache" "b.jpg", true) w1
            ∧ CfgMode (config w1) = Local) as (w1 & Hs & Hl).
  { eexists. split; [vm_compute; reflexivity | reflexivity]. }
  destruct (C1_fresh_local_answer env_ok 1 (get "/") w_local_image _ w1
              eq_refl eq_refl Hs (or_introl Hl))
    as (w2 & name & _ & Hserve & Hreq & _).
  exists w2. split; [exact Hserve | exact Hreq].
Defined.

(** ** The switch to the local mode *)




(** ** The shape of the answer *)

(** With a backslash in the name of the cache folder the answer of a fetch
    names another folder than the configured one. *)
Lemma C3_backslash_in_the_cache_folder :
  CacheFolder (config w_backslash) = "a\b"
  ∧ ∃ rw w', V3.serve env_ok 0 (get "/") w_backslash = Ret rw w'
      ∧ body rw = "http://h/a/b/1700000100000000002.jpg"
      ∧ ¬ spec_shape "h" "a\b" (body rw).
Proof.
  split; [reflexivity |]. eexists _, _.
  split; [vm_compute; reflexivity |]. split; [reflexivity |].
  intros (name & e & E & _). cbv in E. discriminate E.
Qed.

(** C3, amended: a body returned for a GET of the root path is empty or
    has the shape [http://<host>/<folder>/<name>.<ext>] with one of the
    three extensions in any case, where the folder is the cache folder as
    configured, for an image served from the cache, or the cache folder
    with every backslash turned into a slash, for an image just fetched. *)
Theorem C3_answer_shape env fuel r w rw w' :
  Method r = "GET" → Path r = "/" →
  V3.serve env fuel r w = Ret rw w' → body rw ≠ "" →
  ∃ folder,
    (folder = CacheFolder (config w)
     ∨ folder = Str.to_slash (CacheFolder (config w)))
    ∧ spec_shape (Host r) folder (body rw).
Proof.
  intros Hm Hp E Hb.
  pose proof (V3_serve_root env fuel r w Hm Hp) as H. rewrite E in H.
  destruct H as (_ & _ & H). by apply answer_shape_spec, H.
Qed.

Lemma C3_answer_shape_witness :
  ∃ rw w', V3.serve env_ok 0 (get "/") w_first_run = Ret rw w'
    ∧ ∃ folder,
        (folder = CacheFolder (config w_first_run)
         ∨ folder = Str.to_slash (CacheFolder (config w_first_run)))
        ∧ spec_shape "h" folder (body rw).
Proof.
  assert (∃ rw w', V3.serve env_ok 0 (get "/") w_first_run = Ret rw w'
            ∧ body rw ≠ "") as (rw & w' & E & Hb).
  { eexists _, _. split; [vm_compute; reflexivity | discriminate]. }
  exists rw, w'. split; [exact E |].
  exact (C3_answer_shape env_ok 0 (get "/") w_first_run rw w'
           eq_refl eq_refl E Hb).
Defined.

(** ** Errors while a request is handled *)




(** ** The time of the last update *)

(** A fetch that fails, here because the network is down, has moved the
    time of the last update all the same. *)
Lemma C5_failed_fetch_moves_the_timestamp :
  timestamp w_first_run = 1700000000%Z
  ∧ ∃ w', V3.retrieveRemote env_down "h" rootWriter w_first_run
          = Ret rootWriter w'
      ∧ last (logged w') = Some (PrintError "http.Get")
      ∧ timestamp w' = 1700000100%Z.
Proof.
  split; [reflexivity |]. eexists.
  split; [vm_compute; reflexivity | split; reflexivity].
Qed.

(** C5, amended: the time of the last update is the time, in seconds since
    the epoch, at which the last fetch started: a fetch sets it to the
    clock reading it begins with, before a remote is chosen, and it has
    that value however the fetch ends. *)
Theorem C5_timestamp_set_at_the_start env host rw w :
  match V3.retrieveRemote env host rw w with
  | Ret _ w' | Exit w' | Panic w' =>
      timestamp w' = Unix (clock env (ticks w))
  | OutOfFuel => False
  end.
Proof.
  pose proof (V3_fetch_globals env host rw w) as H. unfold wp in H.
  destruct (V3.retrieveRemote env host rw w); [apply H .. | done].
Qed.

(** ** A response that names no image *)



(** ** Files of the cache folder over HTTP *)




(** ** What a fetch does to the cache folder *)




(** ** The extension of an extracted address *)

(** C9: whatever the text, an address that [getImgURL] finds in it has an
    extension for [getImgExtension], one of jpg, jpeg and png in lower
    case, so that the name of the temporary file made from it has an
    extension. *)
Theorem C9_extracted_address_has_an_extension s :
  getImgURL s ≠ "" →
  is_image_ext (getImgExtension (getImgURL s))
  ∧ getImgExtension (getImgURL s) ≠ "".
Proof.
  intros H. apply getImgURL_sound in H as [H _].
  assert (is_image_ext (getImgExtension (getImgURL s))) as He
    by by apply getImgExtension_complete, image_url_image_name.
  split; [done |]. by apply is_image_ext_nonempty.
Qed.

Lemma C9_extracted_address_witness :
  getImgURL "{'url':'https:\/\/i.example\/a.PNG'}" = "https://i.example/a.PNG"
  ∧ is_image_ext (getImgExtension "https://i.example/a.PNG").
Proof.
  assert (getImgURL "{'url':'https:\/\/i.example\/a.PNG'}"
          = "https://i.example/a.PNG") as E by (vm_compute; reflexivity).
  split; [exact E |]. rewrite <- E.
  apply C9_extracted_address_has_an_extension.
  rewrite E. discriminate.
Defined.

(** ** The loop over the listing *)

(** C10: in the first and in the second revision the loop that looks for
    an image in the listing never ends when the listing has no image: with
    the single entry [a.txt] in the cache folder, the request for the root
    path runs out of whatever fuel it is given.  The loop of the third
    revision ends ([V3_pickLoop_terminates]). *)
Theorem C10_early_loops_never_end fuel :
  V2.serve env_ok fuel (get "/") w_no_image = OutOfFuel
  ∧ V1.serve env_ok fuel (get "/") w_no_image = OutOfFuel.
Proof.
  pose (files := [{| Name := "a.txt"; IsDir := false |}]).
  assert (∀ e : DirEntry, e ∈ files → V2.isImage (Name e) = false) as Hall.
  { intros e ->%list_elem_of_singleton. by vm_compute. }
  assert (FS.readDir (fs w_no_image) [CacheFolder (config w_no_image)]
          = Ok files) as Hdir by (by vm_compute).
  split.
  - by apply (V2_serve_spins env_ok fuel (get "/") w_no_image files).
  - by apply (V1_serve_spins env_ok fuel (get "/") w_no_image files).
Qed.

(** * Facts about the rest of the program *)

(** ** More on the two patterns *)

Lemma ToLower_length s : String.length (Str.ToLower s) = String.length s.
Proof. induction s as [|c s IH]; [done |]. cbn. by rewrite IH. Qed.

Lemma is_image_ext_length e :
  is_image_ext (Str.ToLower e) → String.length e = 3 ∨ String.length e = 4.
Proof.
  intros H. rewrite <- (ToLower_length e).
  destruct H as [->|[->| ->]]; cbn; auto.
Qed.

Lemma is_image_ext_no_dot x :
  is_image_ext (Str.ToLower (String "." x)) → False.
Proof. cbn. by intros [H|[H|H]]. Qed.

(** The text after the dot of an image name is fixed by the name. *)
Lemma image_suffix_unique pre d e pre' d' e' :
  pre +:+ String d ("." +:+ e) = pre' +:+ String d' ("." +:+ e') →
  is_image_ext (Str.ToLower e) → is_image_ext (Str.ToLower e') → e = e'.
Proof.
  intros E He He'.
  assert (∀ p c x, p +:+ String c ("." +:+ x) = (p +:+ String c ".") +:+ x)
    as Hre.
  { intros p c x. rewrite StrFacts.app_assoc.
    by rewrite !StrFacts.app_cons, StrFacts.app_nil_l. }
  assert (∀ p c x, p +:+ String c ("." +:+ x)
                   = (p +:+ String c "") +:+ String "." x) as Hre'.
  { intros p c x. rewrite StrFacts.app_assoc.
    by rewrite !StrFacts.app_cons, !StrFacts.app_nil_l. }
  assert (String.length (pre +:+ String d ".") + String.length e
          = String.length (pre' +:+ String d' ".") + String.length e') as Hlen.
  { rewrite <- !StrFacts.length_app, <- !Hre. by rewrite E. }
  destruct (is_image_ext_length e He) as [L|L],
           (is_image_ext_length e' He') as [L'|L'].
  - rewrite !Hre in E.
    apply (f_equal (Str.drop (String.length (pre +:+ String d ".")))) in E.
    rewrite StrFacts.drop_app in E.
    replace (String.length (pre +:+ String d "."))
      with (String.length (pre' +:+ String d' ".")) in E by lia.
    by rewrite StrFacts.drop_app in E.
  - exfalso. rewrite (Hre' pre d e), (Hre pre' d' e') in E.
    apply (f_equal (Str.drop (String.length (pre +:+ String d "")))) in E.
    rewrite StrFacts.drop_app in E.
    replace (String.length (pre +:+ String d ""))
      with (String.length (pre' +:+ String d' ".")) in E.
    2:{ rewrite !StrFacts.length_app in *. cbn in *. lia. }
    rewrite StrFacts.drop_app in E. subst e'.
    by eapply is_image_ext_no_dot.
  - exfalso. rewrite (Hre pre d e), (Hre' pre' d' e') in E.
    apply (f_equal (Str.drop (String.length (pre' +:+ String d' "")))) in E.
    rewrite (StrFacts.drop_app (pre' +:+ String d' "")) in E.
    replace (String.length (pre' +:+ String d' ""))
      with (String.length (pre +:+ String d ".")) in E.
    2:{ rewrite !StrFacts.length_app in *. cbn in *. lia. }
    rewrite StrFacts.drop_app in E. subst e.
    by eapply is_image_ext_no_dot.
  - rewrite !Hre in E.
    apply (f_equal (Str.drop (String.length (pre +:+ String d ".")))) in E.
    rewrite StrFacts.drop_app in E.
    replace (String.length (pre +:+ String d "."))
      with (String.length (pre' +:+ String d' ".")) in E by lia.
    by rewrite StrFacts.drop_app in E.
Qed.

Lemma app_eq_split (a b a' b' : string) :
  a +:+ b = a' +:+ b' → String.length a <= String.length a' →
  ∃ c, a' = a +:+ c ∧ b = c +:+ b'.
Proof.
  revert a'. induction a as [|x a IH]; intros a' E Hlen.
  - exists a'. by rewrite !StrFacts.app_nil_l in *.
  - destruct a' as [|x' a']; [cbn in Hlen; lia |].
    rewrite !StrFacts.app_cons in E. injection E as <- E.
    destruct (IH a' E) as (c & -> & ->); [cbn in Hlen; lia |].
    exists c. by rewrite StrFacts.app_cons.
Qed.

(** One turn of the greedy loop over [.+]. *)
Lemma plus_any_step k fuel d s c :
  plus_loop (bt AnyNotNL) k (S fuel) (String d s) c
  = if Ascii.eqb d newline then None
    else match plus_loop (bt AnyNotNL) k fuel s c with
         | Some o => Some o
         | None => k s c
         end.
Proof.
  cbn [plus_loop bt]. destruct (Ascii.eqb d newline); [done |].
  by rewrite (proj2 (Nat.ltb_lt (String.length s) (String.length (String d s))))
    by (cbn; lia).
Qed.

(** The greedy loop over [.+]: when it fails, the continuation fails after
    every stretch of the line; when it succeeds, the continuation has
    failed after every longer stretch. *)
Lemma plus_any_none k fuel : ∀ s c,
  plus_loop (bt AnyNotNL) k fuel s c = None → String.length s < fuel →
  ∀ x rest, s = x +:+ rest → x ≠ "" → one_line x → k rest c = None.
Proof.
  induction fuel as [|fuel IH]; intros s c Hnone Hfuel x rest -> Hx Hl;
    [lia |].
  destruct x as [|d x]; [done |]. destruct Hl as [Hd Hl].
  rewrite StrFacts.app_cons in *. rewrite plus_any_step in Hnone.
  cbn [String.length] in Hfuel.
  destruct (Ascii.eqb_spec d newline); [done |].
  destruct (plus_loop (bt AnyNotNL) k fuel (x +:+ rest) c) eqn:E; [done |].
  destruct x as [|d' x].
  - by rewrite StrFacts.app_nil_l in *.
  - eapply IH; [exact E | lia | done | done | done].
Qed.

Lemma plus_any_greedy k fuel : ∀ s c o,
  plus_loop (bt AnyNotNL) k fuel s c = Some o → String.length s < fuel →
  ∃ x rest, s = x +:+ rest ∧ x ≠ "" ∧ one_line x ∧ k rest c = Some o
    ∧ ∀ x' rest', s = x' +:+ rest' → one_line x' →
        String.length x < String.length x' → k rest' c = None.
Proof.
  induction fuel as [|fuel IH]; intros s c o Hsome Hfuel; [lia |].
  destruct s as [|d s]; [done |]. rewrite plus_any_step in Hsome.
  destruct (Ascii.eqb_spec d newline) as [|Hd]; [done |].
  cbn [String.length] in Hfuel.
  destruct (plus_loop (bt AnyNotNL) k fuel s c) as [o'|] eqn:E.
  - injection Hsome as ->.
    destruct (IH s c o E) as (x & rest & -> & Hx & Hl & Hk & Hlong); [lia |].
    exists (String d x), rest. rewrite StrFacts.app_cons.
    split_and!; try done.
    intros [|d' x'] rest' E' Hl' Hlen; [cbn in Hlen; lia |].
    rewrite StrFacts.app_cons in E'. injection E' as <- E'.
    destruct Hl' as [_ Hl']. eapply Hlong; [exact E' | done | cbn in Hlen; lia].
  - exists (String d ""), s. rewrite StrFacts.app_cons, StrFacts.app_nil_l.
    split_and!; try done.
    intros [|d' x'] rest' E' Hl' Hlen; [cbn in Hlen; lia |].
    rewrite StrFacts.app_cons in E'. injection E' as <- E'.
    destruct Hl' as [_ Hl'].
    eapply (plus_any_none k fuel s c E); [lia | exact E' | | done].
    destruct x'; [cbn in Hlen; lia | done].
Qed.

(** The match found by [find] is the one [match_here] finds where it
    begins, and [match_here] finds none before. *)
Lemma find_at r s m cap :
  find r s = Some (m, cap) →
  ∃ pre rest, s = pre +:+ m +:+ rest
    ∧ match_here r (m +:+ rest) = Some (m, cap)
    ∧ ∀ pre' a' rest' c c', s = pre' +:+ a' +:+ rest' →
        matches r a' rest' c c' → String.length pre <= String.length pre'.
Proof.
  induction s as [|x s IH]; cbn [find].
  - destruct (match_here r "") as [[m' cap']|] eqn:E; [| done].
    intros [= -> ->]. pose proof E as E'.
    apply match_here_sound in E' as (rest & Es & _).
    exists "", rest. rewrite StrFacts.app_nil_l, <- Es.
    split; [done |]. split; [done |]. cbn; lia.
  - destruct (match_here r (String x s)) as [[m' cap']|] eqn:E.
    + intros [= -> ->]. pose proof E as E'.
      apply match_here_sound in E' as (rest & Es & _).
      exists "", rest. rewrite StrFacts.app_nil_l, <- Es.
      split; [done |]. split; [done |]. cbn; lia.
    + intros H. apply IH in H as (pre & rest & -> & Hm & Hleft).
      exists (String x pre), rest. rewrite StrFacts.app_cons.
      split; [done |]. split; [done |].
      intros [|y pre'] a' rest' c c' Heq Hm'.
      * rewrite StrFacts.app_nil_l in Heq.
        destruct (match_here_complete _ _ _ _ _ Hm') as [o Ho].
        rewrite <- Heq in Ho. congruence.
      * rewrite StrFacts.app_cons in Heq. injection Heq as -> Heq.
        cbn [String.length]. apply le_n_S. eapply Hleft; eauto.
Qed.

Lemma image_url_shorter sch x e rest sch' x' e' rest' :
  "http" +:+ sch +:+ "://" +:+ x +:+ "." +:+ e +:+ rest
  = "http" +:+ sch' +:+ "://" +:+ x' +:+ "." +:+ e' +:+ rest' →
  (sch = "s" ∨ sch = "") → (sch' = "s" ∨ sch' = "") →
  one_line x' → x' ≠ "" →
  is_image_ext (Str.ToLower e) → is_image_ext (Str.ToLower e') →
  (∀ y rest1, x +:+ "." +:+ e +:+ rest = y +:+ rest1 → one_line y →
     String.length x < String.length y →
     bt (Cat (Lit ".") image_exts) rest1 None (λ s' cap, Some (s', cap)) = None) →
  sch' = sch
  ∧ String.length x' + String.length e' <= String.length x + String.length e.
Proof.
  intros E Hs Hs' Hl' Hx' He He' Hlong.
  rewrite !StrFacts.app_cons, !StrFacts.app_nil_l in E.
  injection E as E.
  assert (sch' = sch
          ∧ x +:+ "." +:+ e +:+ rest = x' +:+ "." +:+ e' +:+ rest') as [-> E3].
  { destruct Hs as [->| ->], Hs' as [->| ->];
      rewrite ?StrFacts.app_cons, ?StrFacts.app_nil_l in E; by simplify_eq. }
  clear E. split; [done |].
  destruct (is_image_ext_length e He) as [Le|Le],
           (is_image_ext_length e' He') as [Le'|Le'].
  all: destruct (Nat.lt_trichotomy (String.length x) (String.length x'))
         as [Hlt|[Heq|Hgt]]; try lia.
  all: try (exfalso;
            assert (is_Some (bt (Cat (Lit ".") image_exts)
                               (("." +:+ e') +:+ rest') None
                               (λ s' cap, Some (s', cap)))) as [o' Ho];
            [ eapply (bt_complete _ _ _ None (Some e')); [| by eexists];
              exists ".", e', None; split; [done |]; split; [done |];
              by apply image_exts_iff
            | rewrite StrFacts.app_assoc in Ho;
              rewrite (Hlong x' _ E3 Hl' Hlt) in Ho; done ]).
  (* what is left: the same stretch and a longer extension *)
  exfalso. apply app_eq_split in E3 as (c & Ec & E3); [| lia].
    assert (c = "") as ->.
    { apply (f_equal String.length) in Ec.
      rewrite StrFacts.length_app in Ec. destruct c; [done | cbn in Ec; lia]. }
    rewrite StrFacts.app_nil_l, !StrFacts.app_cons, !StrFacts.app_nil_l in E3.
    injection E3 as E3.
    destruct e as [|a1 [|a2 [|a3 [|]]]]; try (cbn in Le; lia).
    destruct e' as [|b1 [|b2 [|b3 [|b4 [|]]]]]; try (cbn in Le'; lia).
    rewrite !StrFacts.app_cons, !StrFacts.app_nil_l in E3.
    injection E3 as <- <- <- _.
    cbn in He, He'. destruct He as [He|[He|He]], He' as [He'|[He'|He']];
      congruence.
Qed.


Lemma bt_Cat r1 r2 s c k :
  bt (Cat r1 r2) s c k = bt r1 s c (λ s' c', bt r2 s' c' k).
Proof. done. Qed.

(** What [match_here] finds for the pattern of an address: the shape, and
    that the greedy stretch could not be longer. *)
Lemma match_here_imgURL s m cap :
  match_here imgURL_pattern s = Some (m, cap) →
  ∃ sch x e rest,
    s = m +:+ rest
    ∧ m = "http" +:+ sch +:+ "://" +:+ x +:+ "." +:+ e
    ∧ (sch = "s" ∨ sch = "") ∧ is_image_ext (Str.ToLower e)
    ∧ ∀ y rest1, x +:+ "." +:+ e +:+ rest = y +:+ rest1 → one_line y →
        String.length x < String.length y →
        bt (Cat (Lit ".") image_exts) rest1 None (λ s' cap, Some (s', cap))
        = None.
Proof.
  unfold match_here.
  destruct (bt imgURL_pattern s None _) as [[s' c']|] eqn:Eb; [| done].
  intros [= <- <-].
  unfold imgURL_pattern in Eb. rewrite bt_Cat in Eb.
  apply bt_sound in Eb as (a1 & t1 & c1 & -> & H1 & Eb).
  apply lits_iff in H1 as [-> ->]; [| done]. rewrite bt_Cat in Eb.
  apply bt_sound in Eb as (sch & t2 & c2 & -> & H2 & Eb).
  assert ((sch = "s" ∨ sch = "") ∧ c2 = None) as [Hsch ->].
  { destruct H2 as [[-> ->]|[-> ->]]; auto. }
  rewrite bt_Cat in Eb.
  apply bt_sound in Eb as (a3 & t3 & c3 & -> & H3 & Eb).
  apply lits_iff in H3 as [-> ->]; [| done]. rewrite bt_Cat in Eb.
  cbn [bt] in Eb.
  apply plus_any_greedy in Eb as (x & t4 & -> & Hx & Hl & Hk & Hlong); [| lia].
  pose proof Hk as Hk'.
  apply (bt_sound (Cat (Lit ".") image_exts)) in Hk'
    as (a5 & t5 & c5 & -> & H5 & Hacc).
  injection Hacc as -> ->.
  destruct H5 as (d & e & cm & -> & [-> ->] & He).
  apply image_exts_iff in He as [He _].
  assert ("http" +:+ sch +:+ "://" +:+ x +:+ ("." +:+ e) +:+ s'
          = ("http" +:+ sch +:+ "://" +:+ x +:+ "." +:+ e) +:+ s') as Eassoc.
  { by rewrite !StrFacts.app_assoc. }
  rewrite Eassoc, StrFacts.length_app.
  replace (String.length ("http" +:+ sch +:+ "://" +:+ x +:+ "." +:+ e)
           + String.length s' - String.length s')
    with (String.length ("http" +:+ sch +:+ "://" +:+ x +:+ "." +:+ e)) by lia.
  rewrite StrFacts.take_app.
  exists sch, x, e, s'. split; [done |]. split; [done |].
  split; [done |]. split; [done |].
  intros y rest1 Ey Hy Hlen. eapply Hlong; [| done | done].
  by rewrite <- Ey, !StrFacts.app_assoc.
Qed.

(** ** The check of an image and the loop of the third revision *)

Section v3_images.
Context (env : Env).

(** [isImage] of the third revision says yes to the servable entries and to
    them only; it may log a line and does nothing else. *)
Lemma V3_isImage_spec name w :
  ∃ b w', V3.isImage env name w = Ret b w' ∧ quiet w w' ∧ fs w' = fs w
    ∧ (b = true ↔ servable env w name).
Proof.
  unfold V3.isImage, servable.
  destruct (String.eqb_spec (getImgExtension name) "") as [Hext|Hext].
  { exists false, w. split; [done |]. split; [apply quiet_refl |].
    split; [done |]. split; [done |].
    intros (Hn & _). by apply getImgExtension_iff in Hn. }
  apply getImgExtension_iff in Hext.
  unfold bind at 1, gets at 1. unfold bind at 1, os_Open.
  destruct (fault env SysOpen _) eqn:Hf.
  { unfold ret at 1. unfold bind, printError, modify, ret.
    eexists false, _. split; [done |]. split; [apply quiet_log |].
    split; [done |]. split; [done |]. by intros (_ & ? & _). }
  unfold gets at 1. unfold FS.stat.
  destruct (fs w !! [CacheFolder (config w); name]) as [[data|]|] eqn:E.
  - exists (negb (String.eqb data "")), w. split; [done |].
    split; [apply quiet_refl |]. split; [done |].
    destruct (String.eqb_spec data ""); cbn; split; try done.
    + intros (_ & _ & d & [= <-] & ?). done.
    + intros _. split; [done |]. split; [done |]. by exists data.
  - exists false, w. split; [done |]. split; [apply quiet_refl |].
    split; [done |]. split; [done |]. by intros (_ & _ & d & ? & _).
  - assert (∃ e, match fs w !! removelast [CacheFolder (config w); name] with
                 | Some (File _) => @Fail node ENOTDIR
                 | _ => Fail ENOENT
                 end = Fail e) as [e ->].
    { destruct (fs w !! removelast _) as [[]|]; by eexists. }
    unfold bind, printError, modify, ret.
    eexists false, _. split; [done |]. split; [apply quiet_log |].
    split; [done |]. split; [done |]. by intros (_ & _ & d & ? & _).
Qed.

Lemma wp_isImage_spec name w Q :
  (∀ b w', quiet w w' → fs w' = fs w → (b = true ↔ servable env w name) →
     Q (Ret b w')) →
  wp (V3.isImage env name) w Q.
Proof.
  intros H. destruct (V3_isImage_spec name w) as (b & w' & E & Hq & Hfs & Hb).
  unfold wp. rewrite E. by apply H.
Qed.

(** Being servable looks at the configuration and at one place of the
    disk. *)
Lemma servable_same w w' name :
  config w' = config w →
  fs w' !! [CacheFolder (config w); name] = fs w !! [CacheFolder (config w); name] →
  servable env w name ↔ servable env w' name.
Proof. unfold servable. intros -> ->. done. Qed.

Lemma elem_of_delete_ne {A} (l : list A) i x y :
  l !! i = Some x → y ∈ l → y ≠ x → y ∈ delete i l.
Proof.
  intros Hi Hy Hne. rewrite (delete_Permutation l i x Hi) in Hy.
  apply elem_of_cons in Hy as [|]; done.
Qed.

(** The loop of the third revision: it ends within as many turns as the
    listing is long, with an index inside the listing; it removes no
    servable entry, from the disk or from the listing; and it stops on a
    servable entry or on an empty listing. *)
Lemma wp_pickLoop_keeps fuel :
  ∀ files idx w (Q : result (list DirEntry * nat) → Prop),
  idx < List.length files →
  (List.length files <= fuel ∨ Q OutOfFuel) →
  (∀ files' idx' w', calm w w' → fs w' ⊆ fs w → ticks w' = ticks w →
     (∀ name, servable env w name → servable env w' name) →
     (∀ e, e ∈ files → servable env w (Name e) → e ∈ files') →
     (files' = []
      ∨ ∃ file, files' !! idx' = Some file ∧ servable env w' (Name file)) →
     Q (Ret (files', idx') w')) →
  wp (V3.pickLoop env fuel files idx) w Q.
Proof.
  induction fuel as [|fuel IH]; intros files idx w Q Hidx Hfuel HQ.
  { destruct Hfuel; [lia | done]. }
  cbn [V3.pickLoop].
  destruct (files !! idx) as [file|] eqn:Efile;
    [| apply lookup_ge_None in Efile; lia].
  apply wp_bind, wp_isImage_spec. intros b w1 Hq Hfs Hb. wp_simpl.
  assert (calm w w1) as Hc1 by by apply quiet_calm.
  assert (ticks w1 = ticks w) as Ht1 by apply Hq.
  assert (∀ name, servable env w name ↔ servable env w1 name) as Hs1.
  { intros name. apply servable_same; [apply Hc1 | by rewrite Hfs]. }
  destruct b; cbn [negb andb].
  { apply wp_ret. apply HQ; try done; [by rewrite Hfs | intros ?; apply Hs1 |].
    right. exists file. split; [done |]. apply Hs1, Hb. done. }
  assert (¬ servable env w (Name file)) as Hbad.
  { intros H. by apply Hb in H. }
  destruct (Nat.ltb_spec 0 (List.length files)) as [Hpos|]; [| lia].
  assert (List.length (delete idx files) = List.length files - 1) as Hlen.
  { rewrite length_delete; [lia | by eexists]. }
  assert (∀ e, e ∈ files → servable env w (Name e) → e ∈ delete idx files)
    as Hin.
  { intros e He Hse. eapply elem_of_delete_ne; [done | done |].
    intros ->. done. }
  (* what follows the removal, with the disk [m] it leaves *)
  assert (∀ w2, calm w w2 → fs w2 ⊆ fs w → ticks w2 = ticks w →
            (∀ name, servable env w name → servable env w2 name) →
            wp (if Nat.eqb (List.length (delete idx files)) 0
                then ret (delete idx files, idx)
                else let* i := Intn env (List.length (delete idx files)) in
                     V3.pickLoop env fuel (delete idx files) i) w2 Q) as Hnext.
  { intros w2 Hc2 Hsub2 Ht2 Hk2.
    destruct (Nat.eqb_spec (List.length (delete idx files)) 0) as [E0|Hne].
    - apply wp_ret. apply HQ; try done. left. by apply length_zero_iff_nil.
    - apply wp_bind, wp_Intn_pos; [lia |]. wp_simpl.
      apply IH; [apply Nat.mod_upper_bound; lia
                | destruct Hfuel; [left; lia | by right] |].
      intros files' idx' w' Hc Hsub Ht Hk Hl Hres.
      assert (calm w (set_draws (S (draws w2)) w2)) as Hc2'.
      { unfold calm in *. wsimpl. intuition congruence. }
      assert (∀ name, servable env w name →
                servable env (set_draws (S (draws w2)) w2) name) as Hk2'.
      { intros name Hn. apply Hk2 in Hn. exact Hn. }
      apply HQ.
      + eapply calm_trans; [exact Hc2' | exact Hc].
      + etrans; [exact Hsub | exact Hsub2].
      + rewrite Ht. exact Ht2.
      + intros name Hn. apply Hk, Hk2', Hn.
      + intros e He Hse. apply Hl; [by apply Hin | by apply Hk2'].
      + exact Hres. }
  destruct (IsDir file).
  { apply Hnext; [done | by rewrite Hfs | done | intros ?; apply Hs1]. }
  apply wp_bind, wp_gets. wp_simpl. apply wp_bind, wp_remove.
  - intros e. wp_simpl. apply wp_bind, wp_printError. wp_simpl.
    apply Hnext; wsimpl.
    + unfold calm in *. wsimpl. intuition congruence.
    + by rewrite Hfs.
    + done.
    + intros name Hn. apply Hs1 in Hn. exact Hn.
  - intros n Hn. wp_simpl. apply wp_bind, wp_ret. wp_simpl.
    apply Hnext; wsimpl.
    + unfold calm in *. wsimpl. intuition congruence.
    + rewrite Hfs. apply delete_subseteq.
    + done.
    + intros name Hsn. pose proof Hsn as Hsn'.
      destruct Hc1 as (Hcfg & _).
      destruct Hsn as (Hi & Hfl & data & Hd & Hne).
      split; [done |]. wsimpl. rewrite Hcfg. split; [done |].
      exists data. split; [| done].
      rewrite lookup_delete_ne; [by rewrite Hfs |].
      intros [= E]. apply Hbad. by rewrite E.
Qed.

(** The attempt to serve from the cache, third revision. *)
Lemma V3_serveLocal_spec fuel host rw w :
  fuel_ok fuel w →
  ∃ rw' served w',
    V3.serveLocal env fuel host rw w = Ret (rw', served) w'
    ∧ calm w w' ∧ fs w' ⊆ fs w
    ∧ (∀ name, servable env w name → servable env w' name)
    ∧ (served = true →
       ∃ name, servable env w name
         ∧ rw' = Fprintf rw (url_of host (CacheFolder (config w)) name))
    ∧ (served = false →
       rw' = rw ∧ error_logged w'
       ∧ ∀ files e, fault env SysReadDir [CacheFolder (config w)] = false →
           FS.readDir (fs w) [CacheFolder (config w)] = Ok files →
           e ∈ files → ¬ servable env w (Name e)).
Proof.
  intros Hfuel.
  change (wp (V3.serveLocal env fuel host rw) w (λ res,
    ∃ rw' served w', res = Ret (rw', served) w'
    ∧ calm w w' ∧ fs w' ⊆ fs w
    ∧ (∀ name, servable env w name → servable env w' name)
    ∧ (served = true →
       ∃ name, servable env w name
         ∧ rw' = Fprintf rw (url_of host (CacheFolder (config w)) name))
    ∧ (served = false →
       rw' = rw ∧ error_logged w'
       ∧ ∀ files e, fault env SysReadDir [CacheFolder (config w)] = false →
           FS.readDir (fs w) [CacheFolder (config w)] = Ok files →
           e ∈ files → ¬ servable env w (Name e)))).
  assert (∀ l, error_logged
            (set_logged (l ++ [PrintError "No image found in cache folder"]) w))
    as Hlog.
  { intros l. eexists. cbn. by rewrite last_snoc. }
  unfold V3.serveLocal.
  apply wp_bind, wp_gets. wp_simpl. apply wp_bind. unfold ioutil_ReadDir.
  destruct (fault env SysReadDir _) eqn:Hfault.
  { wp_run. eexists _, false, _. split; [done |]. split; [by repeat split |].
    split; [done |]. split; [done |]. split; [done |]. intros _.
    split; [done |]. split; [| done]. eexists. cbn. by rewrite last_snoc. }
  apply wp_gets. wp_simpl.
  destruct (FS.readDir (fs w) _) as [files|e] eqn:Edir.
  2:{ wp_run. eexists _, false, _. split; [done |]. split; [by repeat split |].
      split; [done |]. split; [done |]. split; [done |]. intros _.
      split; [done |]. split; [| done]. eexists. cbn. by rewrite last_snoc. }
  destruct (Nat.eqb_spec (List.length files) 0) as [E0|Hne].
  { wp_run. eexists _, false, _. split; [done |]. split; [by repeat split |].
    split; [done |]. split; [done |]. split; [done |]. intros _.
    split; [done |]. split; [eexists; cbn; by rewrite last_snoc |].
    intros files0 e _ [= <-] He. apply length_zero_iff_nil in E0. subst files.
    by apply elem_of_nil in He. }
  apply wp_bind, wp_Now. wp_simpl.
  apply wp_bind, wp_Intn_pos; [lia |]. wp_simpl.
  apply wp_bind, wp_pickLoop_keeps.
  { apply Nat.mod_upper_bound; lia. }
  { left. by apply Hfuel. }
  intros files' idx' w1 Hc1 Hs1 Ht1 Hk1 Hl1 Hres. wp_simpl. wsimpl.
  assert (calm w w1) as Hc.
  { unfold calm in *. wsimpl. intuition congruence. }
  assert (∀ name, servable env w name → servable env w1 name) as Hk.
  { intros name Hn. apply Hk1. exact Hn. }
  destruct (Nat.eqb_spec (List.length files') 0) as [E0|Hne'].
  { wp_run. eexists _, false, _. split; [done |].
    split; [eapply calm_trans; [exact Hc | by repeat split] |].
    split; [done |]. split; [intros name Hn; apply Hk in Hn; exact Hn |].
    split; [done |]. intros _.
    split; [done |]. split; [eexists; cbn; by rewrite last_snoc |].
    intros files0 e _ [= <-] He Hse. apply length_zero_iff_nil in E0.
    subst files'. eapply elem_of_nil, Hl1; [exact He |]. exact Hse. }
  destruct Hres as [->|(file & Efile & Hfile)]; [done |]. rewrite Efile.
  wp_simpl. apply wp_bind, wp_bind, wp_isImage_spec.
  intros b w2 Hq2 Hfs2 Hb. wp_simpl.
  assert (b = true) as -> by by apply Hb.
  assert (calm w w2) as Hc2.
  { eapply calm_trans; [exact Hc | by apply quiet_calm]. }
  assert (∀ name, servable env w name → servable env w2 name) as Hk2.
  { intros name Hn. apply Hk in Hn.
    refine (proj1 (servable_same w1 w2 name _ _) Hn);
      [apply Hq2 | by rewrite Hfs2]. }
  wp_simpl. apply wp_ret. wp_simpl. apply wp_bind, wp_println. wp_simpl.
  apply wp_ret.
  eexists _, true, _. split; [done |].
  split; [eapply calm_trans; [exact Hc2 | by repeat split] |].
  split; [wsimpl; by rewrite Hfs2 |].
  split; [intros name Hn; apply Hk2 in Hn; exact Hn |].
  split; [| done]. intros _. exists (Name file). split; [| done].
  (* the entry was servable from the start: the loop only removes *)
  destruct Hc as (Hcfg & _).
  destruct Hfile as (Hi & Hfl & data & Hd & Hnd). wsimpl.
  rewrite Hcfg in *. split; [done |]. split; [done |].
  exists data. split; [| done]. eapply lookup_weaken; [exact Hd | done].
Qed.

End v3_images.

(** ** The configuration of the third revision *)

Section v3_config.
Context (env : Env).

Lemma wp_warn valid text w Q :
  (∀ w', quiet w w' → fs w' = fs w → (valid = true → w' = w) → Q (Ret tt w')) →
  wp (V3.warn valid text) w Q.
Proof.
  intros H. unfold V3.warn. destruct valid.
  - apply wp_ret, H; [apply quiet_refl | done | done].
  - apply wp_println, H; [apply quiet_log | done | done].
Qed.

(** The configuration [newConfig] builds, as a function. *)
Lemma V3_newConfig_spec c w :
  ∃ c' w', V3.newConfig c w = Ret c' w' ∧ quiet w w' ∧ fs w' = fs w
    ∧ in_range c' ∧ LogFileName c' = LogFileName c
    ∧ (CfgMode c = Local → CfgMode c' = Local)
    ∧ (in_range c → c' = c)
    ∧ (in_range c → LogFileName c ≠ "" → w' = w).
Proof.
  change (wp (V3.newConfig c) w (λ res,
    ∃ c' w', res = Ret c' w' ∧ quiet w w' ∧ fs w' = fs w
    ∧ in_range c' ∧ LogFileName c' = LogFileName c
    ∧ (CfgMode c = Local → CfgMode c' = Local)
    ∧ (in_range c → c' = c)
    ∧ (in_range c → LogFileName c ≠ "" → w' = w))).
  unfold V3.newConfig.
  repeat (apply wp_bind, wp_warn; intros ? ? ? ?; wp_simpl).
  apply wp_ret. eexists _, _. split; [done |].
  split; [repeat (eapply quiet_trans; [eassumption |]); apply quiet_refl |].
  split; [congruence |].
  split.
  { unfold in_range. cbn.
    split.
    { destruct (_ && _) eqn:E; [| done].
      apply andb_true_iff in E as [?%Z.leb_le ?%Z.leb_le]. lia. }
    split_and!.
    - destruct (_ || _) eqn:E; [| by right].
      apply orb_true_iff in E as [?%String.eqb_eq|?%String.eqb_eq]; auto.
    - destruct (String.eqb_spec (CacheFolder c) ""); cbn; done.
    - destruct (String.eqb_spec (CacheTmpFolder c) ""); cbn; done.
    - destruct (Z.ltb_spec 0 (UpdateInterval c)); [done | done].
    - destruct (Z.leb_spec 0 (MaxCacheSize c)); [done | done].
    - destruct (Z.ltb_spec 0 (ImageQuality c)); [done | done].
    - by destruct (Remotes c). }
  split; [done |].
  split.
  { cbn. intros ->. done. }
  assert (in_range c →
    ((1024 <=? ListenPort c) && (ListenPort c <=? 65535))%Z = true
    ∧ (String.eqb (CfgMode c) Local || String.eqb (CfgMode c) Remote) = true
    ∧ negb (String.eqb (CacheFolder c) "") = true
    ∧ negb (String.eqb (CacheTmpFolder c) "") = true
    ∧ (0 <? UpdateInterval c)%Z = true ∧ (0 <=? MaxCacheSize c)%Z = true
    ∧ (0 <? ImageQuality c)%Z = true
    ∧ match Remotes c with Some _ => true | None => false end = true) as Hb.
  { intros (Hp & Hm & Hf & Ht & Hu & Hs & Hq & Hr). split_and!.
    - apply andb_true_iff. split; apply Z.leb_le; lia.
    - apply orb_true_iff. destruct Hm as [->| ->]; auto.
    - by apply negb_true_iff, String.eqb_neq.
    - by apply negb_true_iff, String.eqb_neq.
    - by apply Z.ltb_lt.
    - by apply Z.leb_le.
    - by apply Z.ltb_lt.
    - by destruct (Remotes c). }
  split.
  - intros Hin. destruct (Hb Hin) as (-> & -> & -> & -> & -> & -> & -> & Hr).
    destruct (Remotes c) eqn:Er; [| done]. destruct c; cbn in *. by subst.
  - intros Hin Hlog.
    destruct (Hb Hin) as (Hp & Hm & Hf & Ht & Hu & Hs & Hq & Hr).
    assert (negb (String.eqb (LogFileName c) "") = true) as Hl
      by by apply negb_true_iff, String.eqb_neq.
    repeat match goal with
           | H : ?b = true → ?w' = ?w'' |- _ =>
               first [ specialize (H Hp) | specialize (H Hm) | specialize (H Hf)
                     | specialize (H Ht) | specialize (H Hu) | specialize (H Hs)
                     | specialize (H Hq) | specialize (H Hr) | specialize (H Hl) ];
               subst
           end.
    done.
Qed.

Lemma in_range_set_Mode c : in_range c → in_range (set_Mode Local c).
Proof.
  intros (? & ? & ? & ? & ? & ? & ? & ?). unfold in_range. cbn.
  split_and!; try done; try lia. by left.
Qed.

Lemma mode_step_in_range w w' :
  mode_step w w' → in_range (config w) → in_range (config w').
Proof. intros [->|[-> _]]; [done | apply in_range_set_Mode]. Qed.

(** [getConfig]: the configuration as [newConfig] makes it from the file,
    or from nothing, written back to the file. *)
Lemma V3_getConfig_spec w :
  match configFile w with
  | Unreadable =>
      ∃ w', V3.getConfig env w = Exit w' ∧ config w' = config w
        ∧ configFile w' = configFile w ∧ config_only w w'
        ∧ last (logged w') = Some (PrintError "readConfig")
  | file =>
      ∃ c' w', V3.getConfig env w = Ret c' w' ∧ config w' = config w
        ∧ config_only w w' ∧ in_range c'
        ∧ (if fault env SysWriteFile ["config.json"]
           then configFile w' = configFile w
           else configFile w' = Stored c')
        ∧ match file with
          | Stored c =>
              LogFileName c' = LogFileName c
              ∧ (CfgMode c = Local → CfgMode c' = Local)
              ∧ (in_range c → c' = c)
          | _ =>
              c' = {| ListenPort := 8080; LogFileName := ""; CfgMode := Remote;
                      CacheFolder := "cache"; CacheTmpFolder := "tmp";
                      UpdateInterval := 3; MaxCacheSize := 0;
                      ImageQuality := 60;
                      Remotes := Some ["https://api.nyan.xyz/httpapi/sexphoto";
                                       "https://loliapi.com/acg"] |}
          end
  end.
Proof.
  destruct (configFile w) as [| |c] eqn:Ef;
    unfold V3.getConfig; unfold bind at 1; unfold gets; rewrite Ef.
  - (* no file *)
    unfold bind at 1, bind at 1, println at 1, modify at 1.
    destruct (V3_newConfig_spec V3.zeroConfig
                (set_logged (logged w ++ [Println "No config file found, creating one..."]) w))
      as (c' & w1 & E & Hq & Hfs & Hin & _).
    pose proof E as E'. unfold V3.newConfig, V3.warn in E'. cbn in E'.
    unfold bind, println, modify, ret in E'. cbn in E'.
    injection E' as <- _.
    rewrite E. unfold bind at 1, writeConfig.
    destruct Hq as (Hc & Ht & Hcf & Htk & Hd & Hr & _). wsimpl.
    destruct (fault env SysWriteFile _).
    + unfold printError, modify, ret. eexists _, _. split; [reflexivity |].
      wsimpl. unfold config_only. wsimpl. split_and!; try done; congruence.
    + unfold modify, ret. eexists _, _. split; [reflexivity |].
      wsimpl. unfold config_only. wsimpl. split_and!; done.
  - (* a file that cannot be read *)
    unfold bind, println, fatalln, printError, modify, exit, bind.
    eexists. split; [reflexivity |]. unfold config_only. wsimpl.
    split_and!; try done. by rewrite last_snoc.
  - (* the file *)
    unfold bind at 1, bind at 1, println at 1, modify at 1.
    destruct (V3_newConfig_spec c
                (set_logged (logged w ++ [Println "Config file found, reading..."]) w))
      as (c' & w1 & E & Hq & Hfs & Hin & Hlog & Hmode & Hsame & _).
    rewrite E. unfold bind at 1, writeConfig.
    destruct Hq as (Hc & Ht & Hcf & Htk & Hd & Hr & _). wsimpl.
    destruct (fault env SysWriteFile _).
    + unfold printError, modify, ret. eexists _, _. split; [reflexivity |].
      wsimpl. unfold config_only. wsimpl. split_and!; try done; congruence.
    + unfold modify, ret. eexists _, _. split; [reflexivity |].
      wsimpl. unfold config_only. wsimpl. split_and!; done.
Qed.

End v3_config.

(** ** The reload, the start of the server and the requests in a row *)

Section v3_main.
Context (env : Env).

(** The route [/reload], whatever the method. *)
Lemma V3_reload_spec fuel r w :
  Path r = "/reload" →
  match configFile w with
  | Unreadable =>
      ∃ w', V3.serve env fuel r w = Exit w' ∧ config w' = config w
        ∧ config_only w w'
  | file =>
      ∃ w', V3.serve env fuel r w
            = Ret {| status := 200; body := "Config reloaded";
                     allowOrigin := None |} w'
        ∧ config_only w w' ∧ in_range (config w')
        ∧ (if fault env SysWriteFile ["config.json"]
           then configFile w' = configFile w
           else configFile w' = Stored (config w'))
        ∧ match file with
          | Stored c =>
              LogFileName (config w') = LogFileName c
              ∧ (CfgMode c = Local → CfgMode (config w') = Local)
              ∧ (in_range c → config w' = c)
          | _ => CfgMode (config w') = Remote
          end
  end.
Proof.
  intros Hp. pose proof (V3_getConfig_spec env w) as H.
  destruct (configFile w) as [| |c] eqn:Ef;
    unfold V3.serve; rewrite Hp; cbn [String.eqb Ascii.eqb Bool.eqb];
    unfold V3.reloadConfig; unfold bind at 1.
  - destruct H as (c' & w1 & -> & Hc & Ho & Hin & Hf & ->).
    unfold bind, modify, println, ret. eexists. split; [reflexivity |].
    unfold config_only in *. wsimpl. split_and!; try apply Ho; try done.
  - destruct H as (w1 & -> & Hc & Hcf & Ho & _). by eexists.
  - destruct H as (c' & w1 & -> & Hc & Ho & Hin & Hf & Hs).
    unfold bind, modify, println, ret. eexists. split; [reflexivity |].
    unfold config_only in *. wsimpl. split_and!; try apply Ho; try done;
      apply Hs.
Qed.

(** Every request keeps the configuration within the ranges. *)
Lemma V3_serve_in_range fuel r w w' :
  in_range (config w) → final (V3.serve env fuel r w) = Some w' →
  in_range (config w').
Proof.
  intros Hin Hfin.
  destruct (decide (Path r = "/reload")) as [Hp|Hp].
  - pose proof (V3_reload_spec fuel r w Hp) as H.
    destruct (configFile w) as [| |c].
    + destruct H as (w1 & E & _ & H & _). rewrite E in Hfin.
      cbn in Hfin. by simplify_eq.
    + destruct H as (w1 & E & Hc & _). rewrite E in Hfin.
      cbn in Hfin. simplify_eq. by rewrite Hc.
    + destruct H as (w1 & E & _ & H & _). rewrite E in Hfin.
      cbn in Hfin. by simplify_eq.
  - eapply mode_step_in_range; [| done]. by eapply V3_serve_mode_step.
Qed.

Lemma V3_serveAll_in_range fuel requests : ∀ w,
  in_range (config w) →
  match V3.serveAll env fuel requests w with
  | Ret l w' => in_range (config w') ∧ List.length l = List.length requests
  | Exit w' | Panic w' => in_range (config w')
  | OutOfFuel => True
  end.
Proof.
  induction requests as [|r requests IH]; intros w Hin; [done |].
  cbn [V3.serveAll].
  pose proof (V3_serve_in_range fuel r w) as Hstep.
  destruct (V3.serve env fuel r w) as [rw w1|w1|w1|]; cbn [final] in Hstep;
    [| by apply Hstep | | done].
  - specialize (IH w1 (Hstep w1 Hin eq_refl)). unfold bind, ret.
    destruct (V3.serveAll env fuel requests w1); [| done..].
    destruct IH as [? ?]. split; [done |]. cbn. lia.
  - specialize (IH w1 (Hstep w1 Hin eq_refl)). unfold bind, ret.
    destruct (V3.serveAll env fuel requests w1); [| done..].
    destruct IH as [? ?]. split; [done |]. cbn. lia.
Qed.

Lemma V3_startup_spec w :
  match V3.startup env w with
  | Ret _ w' =>
      in_range (config w') ∧ timestamp w' = Unix (clock env (ticks w))
      ∧ fs w' = fs w ∧ requested w' = requested w
      ∧ configFile w ≠ Unreadable
  | Exit w' => fs w' = fs w ∧ requested w' = requested w
  | Panic _ | OutOfFuel => False
  end.
Proof.
  unfold V3.startup. unfold bind at 1.
  pose proof (V3_getConfig_spec env w) as H.
  destruct (configFile w) as [| |c] eqn:Ef.
  - destruct H as (c' & w1 & -> & Hc & Ho & Hin & _).
    unfold config_only in Ho. destruct Ho as (Ht & Hfs & Hr & Htk & _).
    unfold bind at 1, modify at 1. unfold bind at 1.
    destruct (negb _); [destruct (fault env SysOpen _) |];
      unfold bind, fatalln, printError, println, modify, exit, ret, Now, bind;
      wsimpl; rewrite ?Htk; done.
  - destruct H as (w1 & -> & _ & _ & Ho & _).
    unfold config_only in Ho. by destruct Ho as (_ & ? & ? & _).
  - destruct H as (c' & w1 & -> & Hc & Ho & Hin & _).
    unfold config_only in Ho. destruct Ho as (Ht & Hfs & Hr & Htk & _).
    unfold bind at 1, modify at 1. unfold bind at 1.
    destruct (negb _); [destruct (fault env SysOpen _) |];
      unfold bind, fatalln, printError, println, modify, exit, ret, Now, bind;
      wsimpl; rewrite ?Htk; done.
Qed.

(** From the start of the server on, whatever the requests, the
    configuration in memory is within the ranges of [newConfig]. *)
Lemma V3_main_in_range fuel requests w :
  match V3.main env fuel requests w with
  | Ret l w' => in_range (config w') ∧ List.length l = List.length requests
  | Panic w' => in_range (config w')
  | Exit _ | OutOfFuel => True
  end.
Proof.
  unfold V3.main. unfold bind at 1.
  pose proof (V3_startup_spec w) as H.
  destruct (V3.startup env w) as [[] w1|w1|w1|]; [| done..].
  destruct H as (Hin & _).
  pose proof (V3_serveAll_in_range fuel requests w1 Hin) as H.
  by destruct (V3.serveAll env fuel requests w1).
Qed.

End v3_main.

(** ** The download and what a fetch stores *)

Section v3_content.
Context (env : Env).

(** [downloadFile]: the file is created, or emptied, before the request is
    sent; it holds the body when the call succeeds and nothing when the
    request or the copy fails. *)
Lemma downloadFile_spec p url w :
  match downloadFile env p url w with
  | Ret None w' =>
      ∃ resp data, url ≠ "" ∧ network env url = Some resp
        ∧ Body resp = Some data
        ∧ w' = set_fs (<[p := File data]> (fs w))
                 (set_requested (requested w ++ [url]) w)
  | Ret (Some _) w' =>
      w' = w
      ∨ (w' = set_requested (requested w ++ [url])
                (set_fs (<[p := File ""]> (fs w)) w)
         ∧ (url = "" ∨ network env url = None
            ∨ ∃ resp, network env url = Some resp ∧ Body resp = None))
  | Exit _ | Panic _ | OutOfFuel => False
  end.
Proof.
  unfold downloadFile. unfold bind at 1, os_Create.
  destruct (fault env SysCreate p); [by left |].
  unfold update_fs. destruct (FS.writeFile (fs w) p "") as [m|e] eqn:Ew;
    [| by left].
  apply writeFile_Ok in Ew as (-> & _ & _).
  unfold bind at 1, http_Get. wsimpl.
  destruct (String.eqb_spec url "") as [->|Hurl].
  { right. split; [done |]. by left. }
  destruct (network env url) as [resp|] eqn:En.
  2:{ right. split; [done |]. right. by left. }
  destruct (Body resp) as [data|] eqn:Eb.
  2:{ right. split; [done |]. right. right. by exists resp. }
  unfold bind, modify, ret. wsimpl. exists resp, data.
  split_and!; try done. by rewrite insert_insert_eq.
Qed.




End v3_content.

(** ** The addresses handed out can be fetched back *)









Section v3_back.
Context (env : Env).

Lemma V3_serve_below fuel r w cf x :
  Path r = "/" +:+ cf +:+ "/" +:+ x →
  V3.serve env fuel r w
  = match V3.handleRequest env fuel r w with
    | Ret (rw, false) w' => Ret rw w'
    | Ret (rw, true) w' =>
        match V3.retrieveRemote env (Host r) rw w' with
        | Ret _ w'' => Ret rw w''
        | Exit w'' | Panic w'' => Exit w''
        | OutOfFuel => OutOfFuel
        end
    | Exit w' => Exit w'
    | Panic w' => Panic w'
    | OutOfFuel => OutOfFuel
    end.
Proof.
  intros Hp. unfold V3.serve. rewrite Hp.
  by rewrite (eqb_two_slashes _ _ "reload") by (cbn; naive_solver).
Qed.


End v3_back.

(** ** The answer from the cache, and the way back *)

Section v3_answers.
Context (env : Env).

(** With an entry it can serve in the listing, the handler answers a GET
    of the root path with the address of such an entry. *)
Lemma V3_handle_local fuel r w files e :
  Method r = "GET" → Path r = "/" → fuel_ok fuel w →
  fault env SysReadDir [CacheFolder (config w)] = false →
  FS.readDir (fs w) [CacheFolder (config w)] = Ok files →
  e ∈ files → servable env w (Name e) →
  ∃ name bg w',
    V3.handleRequest env fuel r w
    = Ret (localAnswer (Host r) (CacheFolder (config w)) name, bg) w'
    ∧ servable env w name ∧ calm w w' ∧ fs w' ⊆ fs w
    ∧ (∀ n, servable env w n → servable env w' n).
Proof.
  intros Hm Hp Hfuel Hfault Hdir He Hs.
  destruct (V3_serveLocal_spec env fuel (Host r) rootWriter w Hfuel)
    as (rw' & served & w1 & E & Hcalm & Hsub & Hkeep & Hyes & Hno).
  destruct served.
  2:{ destruct (Hno eq_refl) as (_ & _ & Hnone).
      by destruct (Hnone files e Hfault Hdir He). }
  destruct (Hyes eq_refl) as (name & Hname & ->).
  assert (∃ bg w2, V3.handleRequest env fuel r w
            = Ret (localAnswer (Host r) (CacheFolder (config w)) name, bg) w2
            ∧ (w2 = w1 ∨ w2 = set_ticks (S (ticks w1)) w1))
    as (bg & w2 & Eh & Hw2).
  { unfold V3.handleRequest. rewrite Hm, Hp.
    cbn [String.eqb Ascii.eqb Bool.eqb negb].
    unfold bind at 1, gets at 1. rewrite HasPrefix_root.
    fold rootWriter. unfold bind at 1. rewrite E.
    unfold bind at 1, gets at 1, bind at 1.
    destruct (String.eqb (CfgMode (config w1)) Local).
    - exists false, w1. split; [done | by left].
    - unfold bind, Now, gets, ret. cbn.
      destruct (_ <? _)%Z; eexists _, _; (split; [done | by right]). }
  exists name, bg, w2. split; [done |]. split; [done |].
  destruct Hw2 as [-> | ->]; [done |].
  split; [by destruct Hcalm as (? & ? & ? & ?) |]. split; [done |].
  intros n Hn. destruct (Hkeep n Hn) as (? & ? & ?). by split.
Qed.


End v3_answers.

(** ** The fetch without a remote *)

Section no_remote.
Context (env : Env).

Lemma V3_fetch_panics host rw w :
  default [] (Remotes (config w)) = [] →
  V3.retrieveRemote env host rw w
  = Panic (set_timestamp (Unix (clock env (ticks w)))
             (set_ticks (S (ticks w))
                (set_logged
                   (logged w ++ [Println "--- Starting Remote Retrieval ---"])
                   w))).
Proof.
  intros H. unfold V3.retrieveRemote.
  unfold bind, println, Now, modify, gets, Intn, panic. wsimpl.
  rewrite H. done.
Qed.

Lemma V2_fetch_panics host rw w :
  default [] (Remotes (config w)) = [] →
  V2.retrieveRemote env host rw w = Panic w.
Proof.
  intros H. unfold V2.retrieveRemote.
  unfold bind, gets, Intn, panic. by rewrite H.
Qed.

Lemma V1_fetch_panics host rw w :
  default [] (Remotes (config w)) = [] →
  V1.fetchRemote env host rw w = Panic w.
Proof.
  intros H. unfold V1.fetchRemote.
  unfold bind, gets, Intn, panic. by rewrite H.
Qed.

End no_remote.

(** ** The clock in nanoseconds *)

(** A time in seconds minus a time in nanoseconds of this century is below
    every interval that is not negative. *)
Lemma seconds_minus_nanoseconds now stamp interval :
  (0 <= now < 2 ^ 63)%Z → (10 ^ 10 <= stamp < 2 ^ 63)%Z →
  (0 <= interval)%Z →
  (wrap64 (Unix now - UnixNano stamp) < interval)%Z.
Proof.
  intros Hnow Hstamp Hi. unfold wrap64, Unix, UnixNano.
  assert (0 <= now `div` 1000000000 < 10 ^ 10)%Z as Hs.
  { split; [apply Z.div_pos; lia |].
    apply Z.div_lt_upper_bound; lia. }
  assert (- 2 ^ 63 <= now `div` 1000000000 - stamp < 0)%Z as Hd by lia.
  rewrite Z.mod_small by lia. lia.
Qed.

(** ** The server as a whole *)

Section v3_server.
Context (env : Env).

Lemma V3_serveAll_no_panic fuel requests : ∀ w w',
  V3.serveAll env fuel requests w ≠ Panic w'.
Proof.
  induction requests as [|r requests IH]; intros w w'; [done |].
  cbn [V3.serveAll].
  destruct (V3.serve env fuel r w) as [rw w1|w1|w1|]; try done.
  - unfold bind, ret. specialize (IH w1 w').
    by destruct (V3.serveAll env fuel requests w1).
  - unfold bind, ret. specialize (IH w1 w').
    by destruct (V3.serveAll env fuel requests w1).
Qed.

Lemma V3_newConfig_Remotes c w :
  Remotes c = Some [] →
  ∃ c' w', V3.newConfig c w = Ret c' w' ∧ Remotes c' = Some [].
Proof.
  intros Hc.
  change (wp (V3.newConfig c) w (λ res,
    ∃ c' w', res = Ret c' w' ∧ Remotes c' = Some [])).
  unfold V3.newConfig.
  repeat (apply wp_bind, wp_warn; intros ? ? ? ?; wp_simpl).
  apply wp_ret. eexists _, _. split; [done |]. cbn. by rewrite Hc.
Qed.

End v3_server.

(** * More of the program *)

Import Scenario Scenario2.

(** ** Extensions and addresses *)

(** X1: for a name that ends in a byte other than a line feed, a dot and
    one of the three extensions [jpg], [jpeg], [png] in any case,
    [getImgExtension] is that extension in lower case, whatever comes
    before. *)
Theorem X1_extension_of_a_name pre d e :
  d ≠ newline → is_image_ext (Str.ToLower e) →
  getImgExtension (pre +:+ String d ("." +:+ e)) = Str.ToLower e.
Proof.
  intros Hd He.
  assert (image_name (pre +:+ String d ("." +:+ e))) as Hn by by exists pre, d, e.
  apply getImgExtension_iff, getImgExtension_sound in Hn
    as (pre' & d' & e' & E & _ & He' & ->).
  by rewrite (image_suffix_unique _ _ _ _ _ _ E He He').
Qed.

Lemma X1_extension_of_a_name_witness :
  getImgExtension ("/cache/17000" +:+ String "1" ("." +:+ "JPeG")) = "jpeg".
Proof.
  apply (X1_extension_of_a_name "/cache/17000" "1"%char "JPeG").
  - discriminate.
  - right. left. reflexivity.
Defined.

(** X2: the address [getImgURL] finds in a text is a piece of the text,
    with every [\/] read as [/]; it starts at the leftmost place where an
    address of an image starts, and no address of an image that starts
    there is longer.  So two addresses on one line come back as one, from
    the start of the first to the end of the last. *)
Theorem X2_address_is_leftmost_and_longest body :
  getImgURL body ≠ "" →
  ∃ pre rest, Str.unescape_slashes body = pre +:+ getImgURL body +:+ rest
    ∧ (∀ pre' u' rest', Str.unescape_slashes body = pre' +:+ u' +:+ rest' →
         image_url u' → String.length pre <= String.length pre')
    ∧ (∀ u' rest', Str.unescape_slashes body = pre +:+ u' +:+ rest' →
         image_url u' → String.length u' <= String.length (getImgURL body)).
Proof.
  unfold getImgURL, FindString.
  destruct (find imgURL_pattern _) as [[m cap]|] eqn:Ef; [| done].
  intros _. apply find_at in Ef as (pre & rest & E & Hh & Hleft).
  exists pre, rest. split; [done |]. split.
  - intros pre' u' rest' E' (sch' & x' & e' & -> & ? & ? & ? & ?).
    eapply (Hleft pre' _ rest' None (Some e')); [exact E' |].
    apply imgURL_pattern_iff. exists sch', x', e'. done.
  - intros u' rest' E' (sch' & x' & e' & -> & Hs' & Hx' & Hl' & He').
    apply match_here_imgURL in Hh
      as (sch & x & e & rest0 & Er & -> & Hs & He & Hlong).
    apply StrFacts.app_inv_head in Er as <-.
    rewrite E in E'. apply StrFacts.app_inv_head in E'.
    rewrite !StrFacts.app_assoc in E'.
    destruct (image_url_shorter sch x e rest sch' x' e' rest' E' Hs Hs' Hl' Hx'
                He He') as [-> Hle].
    { exact Hlong. }
    rewrite !StrFacts.length_app. lia.
Qed.

Lemma X2_address_is_leftmost_and_longest_witness :
  getImgURL two_addresses = "http://a.example/1.jpg or http://b.example/2.PNG"
  ∧ ∃ pre rest,
      Str.unescape_slashes two_addresses
      = pre +:+ getImgURL two_addresses +:+ rest
      ∧ (∀ pre' u' rest',
           Str.unescape_slashes two_addresses = pre' +:+ u' +:+ rest' →
           image_url u' → String.length pre <= String.length pre')
      ∧ (∀ u' rest',
           Str.unescape_slashes two_addresses = pre +:+ u' +:+ rest' →
           image_url u' →
           String.length u' <= String.length (getImgURL two_addresses)).
Proof.
  split; [vm_compute; reflexivity |].
  apply (X2_address_is_leftmost_and_longest two_addresses).
  vm_compute. discriminate.
Defined.

(** ** The cache folder *)

(** X3: [isImage] of the third revision returns, changes nothing but the
    log, and says yes exactly for a name that passes the check of the
    extension and under which the cache folder has a file that can be
    opened and is not empty. *)
Theorem X3_isImage_decides env name w :
  ∃ b w', V3.isImage env name w = Ret b w' ∧ quiet w w' ∧ fs w' = fs w
    ∧ (b = true ↔ servable env w name).
Proof. apply V3_isImage_spec. Qed.

(** X4: in the third revision, for a GET of the root path with fuel for
    the listing, when the cache folder can be listed and one entry of the
    listing can be served, the handler answers with the address of an
    entry that can be served; nothing is requested from a remote before it
    returns, the disk only loses entries, and every entry that could be
    served still can. *)
Theorem X4_cache_answers_when_it_can env fuel r w files e :
  Method r = "GET" → Path r = "/" → fuel_ok fuel w →
  fault env SysReadDir [CacheFolder (config w)] = false →
  FS.readDir (fs w) [CacheFolder (config w)] = Ok files →
  e ∈ files → servable env w (Name e) →
  ∃ name bg w',
    V3.handleRequest env fuel r w
    = Ret (localAnswer (Host r) (CacheFolder (config w)) name, bg) w'
    ∧ servable env w name ∧ calm w w' ∧ fs w' ⊆ fs w
    ∧ (∀ n, servable env w n → servable env w' n).
Proof. apply V3_handle_local. Qed.

Lemma X4_cache_answers_when_it_can_witness :
  ∃ name bg w',
    V3.handleRequest env_ok 1 (get "/") w_local_image
    = Ret (localAnswer "h" "cache" name, bg) w'
    ∧ servable env_ok w_local_image name ∧ calm w_local_image w'
    ∧ fs w' ⊆ fs w_local_image
    ∧ (∀ n, servable env_ok w_local_image n → servable env_ok w' n).
Proof.
  apply (X4_cache_answers_when_it_can env_ok 1 (get "/") w_local_image
           [b_jpg] b_jpg).
  - reflexivity.
  - reflexivity.
  - intros files Hdir. vm_compute in Hdir.
    injection Hdir as <-. simpl. lia.
  - reflexivity.
  - vm_compute. reflexivity.
  - apply list_elem_of_singleton. reflexivity.
  - split.
    + exists "", "b"%char, "jpg". split; [reflexivity |].
      split; [discriminate | left; reflexivity].
    + split; [reflexivity |]. exists "image".
      split; [vm_compute; reflexivity | discriminate].
Defined.



(** ** What a fetch stores *)





(** X8: [downloadFile] creates the file, or empties it, before it sends
    the request, and it does not look at the status of the response.  When
    it reports no error the file holds the body of the response and the
    address was requested; when it reports one, either the disk is as it
    was, the file could not be created, or the file is there, and it is
    empty when the address was refused or the request failed.  It ends
    neither the process nor the request. *)
Theorem X8_downloadFile_outcomes env p url w :
  match downloadFile env p url w with
  | Ret None w' =>
      ∃ resp data, network env url = Some resp ∧ Body resp = Some data
        ∧ fs w' = <[p := File data]> (fs w)
        ∧ requested w' = requested w ++ [url]
  | Ret (Some _) w' =>
      fs w' = fs w
      ∨ ∃ data, fs w' = <[p := File data]> (fs w)
          ∧ (url = "" ∨ network env url = None → data = "")
  | Exit _ | Panic _ | OutOfFuel => False
  end.
Proof.
  pose proof (downloadFile_spec env p url w) as H.
  destruct (downloadFile env p url w) as [[e|] w'|w'|w'|]; try done.
  - destruct H as [->|[-> _]]; [by left |]. right. by exists "".
  - destruct H as (resp & data & _ & Hn & Hb & ->). by exists resp, data.
Qed.

(** ** The configuration *)

(** X9: [newConfig] of the third revision returns a configuration within
    its ranges, whatever it is given; it keeps the name of the log file
    and the local mode, it hands back a configuration that is within the
    ranges as it is, and it touches nothing but the log, which it leaves
    alone as well when nothing is out of range and the log file has a
    name. *)
Theorem X9_newConfig_is_in_range c w :
  ∃ c' w', V3.newConfig c w = Ret c' w' ∧ quiet w w' ∧ fs w' = fs w
    ∧ in_range c' ∧ LogFileName c' = LogFileName c
    ∧ (CfgMode c = Local → CfgMode c' = Local)
    ∧ (in_range c → c' = c)
    ∧ (in_range c → LogFileName c ≠ "" → w' = w).
Proof. apply V3_newConfig_spec. Qed.

(** X10: the route [/reload] of the third revision, whatever the method of
    the request.  A file that cannot be read ends the process.  Otherwise
    the answer is 200 with the text [Config reloaded] and without the
    header that allows every origin; the configuration in memory is within
    the ranges and, unless the file cannot be written, is what the file
    holds afterwards; with a file in range it is the file, the local mode
    of the file is kept, and without a file the mode is remote.  The disk,
    the time of the last update and the clock are as before. *)
Theorem X10_reload env fuel r w :
  Path r = "/reload" →
  match configFile w with
  | Unreadable =>
      ∃ w', V3.serve env fuel r w = Exit w' ∧ config w' = config w
        ∧ config_only w w'
  | file =>
      ∃ w', V3.serve env fuel r w
            = Ret {| status := 200; body := "Config reloaded";
                     allowOrigin := None |} w'
        ∧ config_only w w' ∧ in_range (config w')
        ∧ (if fault env SysWriteFile ["config.json"]
           then configFile w' = configFile w
           else configFile w' = Stored (config w'))
        ∧ match file with
          | Stored c =>
              LogFileName (config w') = LogFileName c
              ∧ (CfgMode c = Local → CfgMode (config w') = Local)
              ∧ (in_range c → config w' = c)
          | _ => CfgMode (config w') = Remote
          end
  end.
Proof. apply V3_reload_spec. Qed.

Lemma X10_reload_witness :
  ∃ w', V3.serve env_ok 0 post_reload
          (set_configFile (Stored cfg_out_of_range) w_first_run)
        = Ret {| status := 200; body := "Config reloaded";
                 allowOrigin := None |} w'
    ∧ in_range (config w')
    ∧ configFile w' = Stored (config w')
    ∧ LogFileName (config w') = "server.log"
    ∧ CfgMode (config w') = Local.
Proof.
  pose proof (X10_reload env_ok 0 post_reload
                (set_configFile (Stored cfg_out_of_range) w_first_run)
                eq_refl) as H.
  change (configFile (set_configFile (Stored cfg_out_of_range) w_first_run))
    with (Stored cfg_out_of_range) in H.
  cbv iota in H.
  destruct H as (w' & E & _ & Hin & Hf & Hl & Hm & _).
  exists w'. split; [exact E |]. split; [exact Hin |].
  split; [exact Hf |]. split; [exact Hl | exact (Hm eq_refl)].
Defined.

(** ** The server *)


(** X12: from the start of the third revision on, whatever the requests
    and whatever the files, the clock and the remotes do, the
    configuration in memory is within the ranges of [newConfig] after
    every request, every request that was handled has its answer or its
    panic, and the server itself does not panic. *)
Theorem X12_configuration_stays_in_range env fuel requests w :
  match V3.main env fuel requests w with
  | Ret answers w' =>
      in_range (config w') ∧ List.length answers = List.length requests
  | Panic _ => False
  | Exit _ | OutOfFuel => True
  end.
Proof.
  pose proof (V3_main_in_range env fuel requests w) as H.
  destruct (V3.main env fuel requests w) as [l w'|w'|w'|] eqn:E; try done.
  unfold V3.main, bind in E.
  destruct (V3.startup env w) as [[] w1| | |] eqn:Es; try done.
  - by destruct (V3_serveAll_no_panic env fuel requests w1 w').
  - pose proof (V3_startup_spec env w) as Hs. by rewrite Es in Hs.
Qed.

(** X13: in each of the three revisions the fetch panics exactly when the
    list of remotes is empty or missing; and [newConfig] of the third
    revision lets the empty list through. *)
Theorem X13_fetch_without_a_remote env host rw w :
  ((∃ w', V3.retrieveRemote env host rw w = Panic w')
     ↔ default [] (Remotes (config w)) = [])
  ∧ ((∃ w', V2.retrieveRemote env host rw w = Panic w')
     ↔ default [] (Remotes (config w)) = [])
  ∧ ((∃ w', V1.fetchRemote env host rw w = Panic w')
     ↔ default [] (Remotes (config w)) = [])
  ∧ (∀ c, Remotes c = Some [] →
       ∃ c' w', V3.newConfig c w = Ret c' w' ∧ Remotes c' = Some []).
Proof.
  split_and!.
  - split.
    + intros [w' E]. pose proof (V3_fetch_globals env host rw w) as H.
      unfold wp in H. rewrite E in H. apply H.
    + intros H. eexists. by apply V3_fetch_panics.
  - split.
    + intros [w' E]. pose proof (V2_fetch_globals env host rw w) as H.
      unfold wp in H. rewrite E in H. apply H.
    + intros H. eexists. by apply V2_fetch_panics.
  - split.
    + intros [w' E]. pose proof (V1_fetch_globals env host rw w) as H.
      unfold wp in H. rewrite E in H. apply H.
    + intros H. eexists. by apply V1_fetch_panics.
  - intros c Hc. by apply V3_newConfig_Remotes.
Qed.

(** X14: the handler of the third revision, on a request other than a GET
    of the root path, leaves the world as it is: no file, no line of the
    log, no reading of the clock, no request to a remote, and no fetch is
    started.  A method other than GET is answered with 405 and without the
    header that allows every origin, whatever the path; every answer to a
    GET has that header. *)
Theorem X14_other_requests_change_nothing env fuel r w :
  Method r ≠ "GET" ∨ Path r ≠ "/" →
  ∃ rw, V3.handleRequest env fuel r w = Ret (rw, false) w
    ∧ (Method r ≠ "GET" →
       rw = {| status := 405;
               body := "Method not allowed" +:+ String newline "";
               allowOrigin := None |})
    ∧ (Method r = "GET" → allowOrigin rw = Some "*").
Proof.
  intros Hr. unfold V3.handleRequest.
  destruct (String.eqb_spec (Method r) "GET") as [Hm|Hm]; cbn [negb];
    [| by eexists].
  destruct (String.eqb (Path r) "/favicon.ico"); [by eexists |].
  unfold bind at 1, gets at 1.
  destruct (Str.HasPrefix _ _).
  - destruct (String.eqb (getImgExtension (Path r)) ""); [by eexists |].
    unfold bind at 1, os_Stat at 1, gets at 1.
    destruct (FS.stat _ _); [| by eexists].
    unfold bind, http_ServeFile.
    destruct (containsDotDot _); [by eexists |].
    unfold bind, os_Open. destruct (fault _ _ _); [by eexists |].
    unfold gets. destruct (FS.stat _ _) as [[]|e]; try by eexists.
    eexists. split; [done |]. split; [done |]. intros _. by destruct e.
  - destruct (String.eqb_spec (Path r) "/") as [Hp|Hp]; cbn [negb];
      [| by eexists].
    by destruct Hr.
Qed.

Lemma X14_other_requests_change_nothing_witness :
  ∃ rw, V3.handleRequest env_ok 0
          {| Method := "POST"; Path := "/"; Host := "h" |} w_local_image
        = Ret (rw, false) w_local_image
    ∧ rw = {| status := 405;
              body := "Method not allowed" +:+ String newline "";
              allowOrigin := None |}.
Proof.
  destruct (X14_other_requests_change_nothing env_ok 0
              {| Method := "POST"; Path := "/"; Host := "h" |} w_local_image)
    as (rw & E & H & _).
  - left. discriminate.
  - exists rw. split; [exact E |]. apply H. discriminate.
Defined.

(** ** The first revision and the clock *)

(** X15: the first revision compares the clock in seconds with a time of
    the last update that a fetch has written in nanoseconds.  Once a fetch
    has answered, and until the start of the server writes that time
    again, a GET of the root path that finds an image in the cache folder
    is answered with it and nothing is requested from a remote, however
    long ago the fetch was. *)
Theorem X15_first_revision_stays_fresh
    env host rw0 wa rwb wb fuel r w rw w1 :
  V1.fetchRemote env host rw0 wa = Ret rwb wb → rwb ≠ rw0 →
  (10 ^ 10 <= clock env (ticks wa) < 2 ^ 63)%Z →
  timestamp w = timestamp wb →
  (0 <= clock env (ticks w) < 2 ^ 63)%Z →
  (0 <= UpdateInterval (config w))%Z →
  Method r = "GET" → Path r = "/" →
  V1.serveLocal env fuel (Host r) emptyResponse
    (if String.eqb (CfgMode (config w)) Local then w
     else set_ticks (S (ticks w)) w)
  = Ret (rw, true) w1 →
  V1.serve env fuel r w = Ret rw w1 ∧ requested w1 = requested w.
Proof.
  intros E Hne Ha Ht Hnow Hi Hm Hp Hs.
  pose proof (V1_fetch_globals env host rw0 wa) as H.
  unfold wp in H. rewrite E in H. destruct H as (_ & _ & Hstamp).
  apply (V1_handle_fresh env fuel r w rw w1 Hm Hp); [| done].
  right. rewrite Ht, (Hstamp Hne).
  by apply seconds_minus_nanoseconds.
Qed.

Lemma X15_first_revision_stays_fresh_witness :
  (Unix (clock env_slow (ticks w_after_fetch)) - Unix (timestamp w_after_fetch)
   = 1000)%Z
  ∧ ∃ rw w1, V1.serve env_slow 1 (get "/") w_after_fetch = Ret rw w1
      ∧ requested w1 = requested w_after_fetch.
Proof.
  split; [vm_compute; reflexivity |].
  assert (∃ rwb, V1.fetchRemote env_slow "h" emptyResponse w_empty_cache
                 = Ret rwb w_after_fetch ∧ rwb ≠ emptyResponse)
    as (rwb & E & Hne).
  { eexists. split; [vm_compute; reflexivity | discriminate]. }
  assert (∃ rw w1,
            V1.serveLocal env_slow 1 "h" emptyResponse
              (set_ticks (S (ticks w_after_fetch)) w_after_fetch)
            = Ret (rw, true) w1) as (rw & w1 & Hs).
  { eexists _, _. vm_compute. reflexivity. }
  exists rw, w1.
  apply (X15_first_revision_stays_fresh env_slow "h" emptyResponse
           w_empty_cache rwb w_after_fetch 1 (get "/") w_after_fetch rw w1
           E Hne).
  - vm_compute. split; [discriminate | reflexivity].
  - reflexivity.
  - vm_compute. split; [discriminate | reflexivity].
  - vm_compute. discriminate.
  - reflexivity.
  - reflexivity.
  - exact Hs.
Defined.
Example getImgURL_ex1 :
  getImgURL "{url:'https:\/\/a.b\/c.JPG',x:1}" = "https://a.b/c.JPG".
Proof. vm_compute. reflexivity. Qed.

Example getImgExtension_ex1 : getImgExtension "a.b.PnG" = "png".
Proof. vm_compute. reflexivity. Qed.
Example getImgExtension_ex2 : getImgExtension ".jpg" = "".
Proof. vm_compute. reflexivity. Qed.
Example getImgExtension_ex3 : getImgExtension "/cache/.jpeg" = "jpeg".
Proof. vm_compute. reflexivity. Qed.
Example getImgURL_ex2 : getImgURL "x http://a.jpg b https://c.png.zip" = "http://a.jpg b https://c.png".
Proof. vm_compute. reflexivity. Qed.
Example getImgURL_ex3 : getImgURL "http://a.jpeg" = "http://a.jpeg".
Proof. vm_compute. reflexivity. Qed.
Example getImgURL_ex4 : getImgURL "http://.jpg" = "".
Proof. vm_compute. reflexivity. Qed.
